(** * SweetLine highlighting core (native/sweetline/src/core/highlight.cpp)

    A shallow embedding of the line tokenizer, the span merger, the text-mode
    splitter and the full and incremental document analyzers, with the
    properties the specification states about them.

    Conventions.
    - [int32_t] values (lexer states, style ids, group numbers, the signed
      line delta of a patch) are [Z].
    - [size_t] values are byte or character offsets into a text held in
      memory, or counts of them; they are [nat].  The places where the source
      converts between [int]/[int32_t] and [size_t] are written out
      ([size_of_int], [change_end_line]).
    - [U8String] is [string]: a sequence of bytes.
    - The regular-expression engine (Oniguruma) is external: it is a
      parameter [onig_search] of the development.
    - The document buffer is an interface ([DocumentBuffer]); the analyzers
      only use its operations. *)

From stdpp Require Import gmap strings list.
From Stdlib Require Import ZArith Lia.

Open Scope Z_scope.

(** ** Result containers *)

Record TextPosition := mkTextPosition {
  line : nat;
  column : nat;
  index : nat
}.

Record TextRange := mkTextRange {
  start : TextPosition;
  end_ : TextPosition
}.

Record TokenSpan := mkTokenSpan {
  range : TextRange;
  style_id : Z;
  state : Z;
  goto_state : Z;
  matched_text : string;
  inline_style : option string
}.

Record LineHighlight := mkLineHighlight {
  spans : list TokenSpan
}.

Record DocumentHighlight := mkDocumentHighlight {
  lines : list LineHighlight
}.

(** Modelled from the spec: the default-constructed values of the structs
    declared in internal_highlight.h.  The transition sentinel is -1
    ("goto_state is the next state if the producing rule transitions, else a
    sentinel (-1)"); the other numeric fields start at zero. *)
Definition kNoState : Z := -1.

Definition TextPosition_default : TextPosition := mkTextPosition 0 0 0.

Definition TextRange_default : TextRange :=
  mkTextRange TextPosition_default TextPosition_default.

Definition TokenSpan_default : TokenSpan :=
  mkTokenSpan TextRange_default 0 0 kNoState "" None.

Definition LineHighlight_default : LineHighlight := mkLineHighlight [].

(** Field updates used by the source ([x.f = v]). *)
Definition set_column (c : nat) (p : TextPosition) : TextPosition :=
  mkTextPosition (line p) c (index p).

Definition set_index (i : nat) (p : TextPosition) : TextPosition :=
  mkTextPosition (line p) (column p) i.

Definition set_line (l : nat) (p : TextPosition) : TextPosition :=
  mkTextPosition l (column p) (index p).

Definition set_range (r : TextRange) (s : TokenSpan) : TokenSpan :=
  mkTokenSpan r (style_id s) (state s) (goto_state s) (matched_text s) (inline_style s).

Definition set_state (st : Z) (s : TokenSpan) : TokenSpan :=
  mkTokenSpan (range s) (style_id s) st (goto_state s) (matched_text s) (inline_style s).

(** Modelled from the spec: equality of positions and ranges
    (TextPosition::operator==, TextRange::operator== are declared outside
    highlight.cpp); "Equality is structural". *)
Definition TextPosition_eqb (a b : TextPosition) : bool :=
  (line a =? line b)%nat && (column a =? column b)%nat && (index a =? index b)%nat.

Definition TextRange_eqb (a b : TextRange) : bool :=
  TextPosition_eqb (start a) (start b) && TextPosition_eqb (end_ a) (end_ b).

(** TokenSpan::operator== *)
Definition TokenSpan_eqb (a b : TokenSpan) : bool :=
  TextRange_eqb (range a) (range b) && (style_id a =? style_id b)
  && (state a =? state b) && (goto_state a =? goto_state b).

(** LineHighlight::operator== : same size and pairwise equal spans. *)
Fixpoint spans_eqb (xs ys : list TokenSpan) : bool :=
  match xs, ys with
  | [], [] => true
  | x :: xs', y :: ys' => TokenSpan_eqb x y && spans_eqb xs' ys'
  | _, _ => false
  end.

Definition LineHighlight_eqb (a b : LineHighlight) : bool :=
  spans_eqb (spans a) (spans b).

(** ** Span merger: LineHighlight::pushOrMergeSpan *)

(** The test of the inner [if]: the new span starts in the column where the
    last one ends and has its style. *)
Definition mergeable (last span : TokenSpan) : bool :=
  (column (end_ (range last)) =? column (start (range span)))%nat
  && (style_id last =? style_id span).

(** [last.range.end.column = span.range.end.column;
     last.range.end.index = span.range.end.index;] *)
Definition extend_end (last span : TokenSpan) : TokenSpan :=
  set_range
    (mkTextRange (start (range last))
       (set_index (index (end_ (range span)))
          (set_column (column (end_ (range span))) (end_ (range last)))))
    last.

Definition pushOrMergeSpan (hl : LineHighlight) (span : TokenSpan) : LineHighlight :=
  match last (spans hl) with
  | None => mkLineHighlight (spans hl ++ [span])
  | Some l =>
      if mergeable l span
      then mkLineHighlight (<[pred (length (spans hl)) := extend_end l span]> (spans hl))
      else mkLineHighlight (spans hl ++ [span])
  end.

(** Merge closure: no two neighbours that the merger would have fused. *)
Definition merge_closed (l : list TokenSpan) : Prop :=
  forall (i : nat) (a b : TokenSpan),
    l !! i = Some a -> l !! S i = Some b -> mergeable a b = false.

(** ** Outcomes

    The scan loops of the source are [while] loops whose progress depends on
    what the regex engine returns.  A computation of the model either
    finishes with a value or stops because a loop has used up its fuel. *)

Inductive Failure :=
  | OutOfFuel.

Inductive outcome (A : Type) :=
  | Done (a : A)
  | Fail (e : Failure).

Arguments Done {A} a.
Arguments Fail {A} e.

#[global] Instance outcome_ret : MRet outcome := fun A a => Done a.

#[global] Instance outcome_bind : MBind outcome := fun A B f m =>
  match m with
  | Done a => f a
  | Fail e => Fail e
  end.

Definition is_done {A : Type} (m : outcome A) : bool :=
  match m with
  | Done _ => true
  | Fail _ => false
  end.

(** ** UTF-8 index (Utf8Util, declared in util.h) *)

(** A continuation byte has the bit pattern 10xxxxxx. *)
Definition is_continuation (a : Ascii.ascii) : bool :=
  match a with
  | Ascii.Ascii _ _ _ _ _ _ b6 b7 => b7 && negb b6
  end.

Definition char_start (a : Ascii.ascii) : nat :=
  if is_continuation a then 0%nat else 1%nat.

(** Modelled from the spec: Utf8Util::countChars, [char_count(text)]: the
    number of characters, counted as the bytes that start one. *)
Fixpoint countChars (s : string) : nat :=
  match s with
  | EmptyString => 0%nat
  | String a s' => (char_start a + countChars s')%nat
  end.

(** Modelled from the spec: Utf8Util::charPosToBytePos,
    [char_to_byte(text, char_pos)]: the byte offset where character
    [char_pos] starts, the length of the text when there is none. *)
Fixpoint charPosToBytePos (s : string) (c : nat) : nat :=
  match s with
  | EmptyString => 0%nat
  | String a s' =>
      if is_continuation a then S (charPosToBytePos s' c)
      else match c with
           | O => 0%nat
           | S c' => S (charPosToBytePos s' c')
           end
  end.

(** Modelled from the spec: Utf8Util::bytePosToCharPos,
    [byte_to_char(text, byte_pos)]: the number of characters that start
    before [byte_pos]. *)
Fixpoint bytePosToCharPos (s : string) (b : nat) : nat :=
  match b, s with
  | S b', String a s' => (char_start a + bytePosToCharPos s' b')%nat
  | _, _ => 0%nat
  end.

(** Modelled from the spec: Utf8Util::utf8Substr,
    [substr_chars(text, char_start, char_len)]. *)
Definition utf8Substr (s : string) (start_char len_chars : nat) : string :=
  let b := charPosToBytePos s start_char in
  let e := charPosToBytePos s (start_char + len_chars) in
  String.substring b (e - b) s.

(** ** Regex adapter *)

(** The match region filled by the engine: the byte span of every capture
    group, ONIG_REGION_NOTPOS (-1) for a group that did not take part. *)
Record OnigRegion := mkOnigRegion {
  beg : list Z;
  end' : list Z
}.

Definition ONIG_REGION_NOTPOS : Z := -1.

Definition region_at (l : list Z) (g : Z) : Z :=
  if g <? 0 then ONIG_REGION_NOTPOS
  else default ONIG_REGION_NOTPOS (l !! Z.to_nat g).

Definition region_beg (r : OnigRegion) (g : Z) : Z := region_at (beg r) g.
Definition region_end (r : OnigRegion) (g : Z) : Z := region_at (end' r) g.

(** The conversion [int -> size_t] of a 64-bit target
    ([size_t match_end_byte = region->end[0]]). *)
Definition size_of_int (z : Z) : nat := Z.to_nat (z mod 2 ^ 64).

(** The conversions [static_cast<int>] and [static_cast<int32_t>] of a
    [size_t]: the value modulo 2^32, read as a signed number. *)
Definition int32_of (z : Z) : Z := (z + 2 ^ 31) mod 2 ^ 32 - 2 ^ 31.

(** The difference of two [size_t], which wraps around below zero. *)
Definition size_sub (a b : nat) : nat :=
  Z.to_nat ((Z.of_nat a - Z.of_nat b) mod 2 ^ 64).

(** The engine: [onig_search re text start] searches [text] forward from
    the byte offset [start] up to its end, and returns the byte offset of
    the match (negative when there is none) with the region it filled. *)
Class RegexType := Regex : Type.

Class RegexEngine {regex_type : RegexType} := {
  onig_search : Regex -> string -> nat -> Z * OnigRegion
}.

(** ** Grammar model *)

Record TokenRule (SR : Type) := mkTokenRule {
  group_offset_start : Z;
  group_count : Z;
  group_styles : list Z;
  tr_goto_state : Z;
  sub_state_rule : option SR
}.

Arguments mkTokenRule {SR}.
Arguments group_offset_start {SR}.
Arguments group_count {SR}.
Arguments group_styles {SR}.
Arguments tr_goto_state {SR}.
Arguments sub_state_rule {SR}.

(** Modelled from the spec: TokenRule::getGroupStyleId, "group_styles[0] is
    the rule's default style; group_styles[g] is style for capture group g". *)
Definition getGroupStyleId {SR : Type} (r : TokenRule SR) (g : Z) : Z :=
  if g <? 0 then 0 else default 0 (group_styles r !! Z.to_nat g).

Record HighlightConfig := mkHighlightConfig {
  cfg_show_index : bool;
  cfg_inline_style : bool
}.

Record CaptureGroupMatch := mkCaptureGroupMatch {
  cg_group : Z;
  cg_style : Z;
  cg_start : nat;
  cg_length : nat
}.

Record MatchResult := mkMatchResult {
  matched : bool;
  mr_start : nat;
  mr_length : nat;
  mr_style : Z;
  mr_goto_state : Z;
  token_rule_idx : Z;
  matched_group : Z;
  mr_matched_text : string;
  capture_groups : list CaptureGroupMatch;
  sub_spans : list TokenSpan
}.

(** Modelled from the spec: a default-constructed MatchResult is not a
    match, names no token rule and no transition. *)
Definition MatchResult_default : MatchResult :=
  mkMatchResult false 0 0 0 kNoState (-1) (-1) "" [] [].

Record TextLineInfo := mkTextLineInfo {
  li_line : nat;
  start_state : Z;
  start_char_offset : nat
}.

Record LineAnalyzeResult := mkLineAnalyzeResult {
  highlight : LineHighlight;
  end_state : Z;
  char_count : nat
}.

Section Grammar.
Context {regex_type : RegexType}.

#[warnings="-register-all"]
Inductive StateRule :=
  | mkStateRule (regex : Regex) (token_rules : list (TokenRule StateRule))
                (line_end_state : Z).

Definition regex (sr : StateRule) : Regex :=
  match sr with mkStateRule re _ _ => re end.

Definition token_rules (sr : StateRule) : list (TokenRule StateRule) :=
  match sr with mkStateRule _ rs _ => rs end.

Definition line_end_state (sr : StateRule) : Z :=
  match sr with mkStateRule _ _ s => s end.

(** How deep sub-grammars nest below a state rule. *)
Fixpoint rule_depth (sr : StateRule) : nat :=
  match sr with
  | mkStateRule _ rs _ =>
      S (foldr (fun r acc =>
                  Nat.max (match sub_state_rule r with
                           | Some sub => rule_depth sub
                           | None => 0%nat
                           end) acc) 0%nat rs)
  end.

Record SyntaxRule := mkSyntaxRule {
  states : gmap Z StateRule;
  inline_style_lookup : gmap Z string
}.

Definition kDefaultStateId : Z := 0.

(** Modelled from the spec: SyntaxRule::containsRule and
    SyntaxRule::getStateRule read the map [states] ("let rule =
    grammar.states[s]").  A state that is absent has no rule, and the spec
    lets no lookup fail for it ("UnknownState ... Recovered locally ... Never
    surfaced"): the caller that finds no rule goes on without one. *)
Definition containsRule (g : SyntaxRule) (s : Z) : bool :=
  bool_decide (is_Some (states g !! s)).

Definition getStateRule (g : SyntaxRule) (s : Z) : option StateRule :=
  states g !! s.

(** Modelled from the spec: SyntaxRule::getInlineStyle,
    [inline_style_lookup: i32 -> string | none]. *)
Definition getInlineStyle (g : SyntaxRule) (style : Z) : option string :=
  inline_style_lookup g !! style.

End Grammar.

(** ** Line tokenizer: LineHighlightAnalyzer *)

Section LineHighlightAnalyzer.
Context {regex_type : RegexType} {engine : RegexEngine}.
Variable m_rule : SyntaxRule.
Variable m_config : HighlightConfig.

(** [if (m_config_.inline_style) s.inline_style = m_rule_->getInlineStyle(style)] *)
Definition resolve_inline_style (style : Z) : option string :=
  if cfg_inline_style m_config then getInlineStyle m_rule style else None.

(** A span of a sub-grammar descent, in columns of the matched text; the
    other fields keep their default values. *)
Definition local_span (start_col end_col : nat) (style : Z) : TokenSpan :=
  mkTokenSpan
    (mkTextRange (set_column start_col TextPosition_default)
                 (set_column end_col TextPosition_default))
    style 0 kNoState "" (resolve_inline_style style).

(** [s.range.start.column += d; s.range.end.column += d;] *)
Definition shift_columns (d : nat) (s : TokenSpan) : TokenSpan :=
  set_range
    (mkTextRange (set_column (column (start (range s)) + d) (start (range s)))
                 (set_column (column (end_ (range s)) + d) (end_ (range s))))
    s.

(** The capture groups of the winning rule: the loop over
    [group = 1 .. group_count] of findMatchedRuleAndGroup.  A group is kept
    when its byte span lies inside the span of the match, whose offsets the
    source compares as [static_cast<int>(match_start_byte)] and
    [static_cast<int>(match_end_byte)]; its length in characters is a
    difference of two [size_t]. *)
Definition collect_capture_groups (token_rule : TokenRule StateRule)
    (region : OnigRegion) (text : string)
    (match_start_byte match_end_byte : nat) : list CaptureGroupMatch :=
  foldl (fun acc group =>
           let absolute_group := group + group_offset_start token_rule in
           let group_start_byte := region_beg region absolute_group in
           let group_end_byte := region_end region absolute_group in
           if (int32_of (Z.of_nat match_start_byte) <=? group_start_byte)
              && (group_end_byte <=? int32_of (Z.of_nat match_end_byte))
           then
             let match_start_char := bytePosToCharPos text (size_of_int group_start_byte) in
             let match_end_char := bytePosToCharPos text (size_of_int group_end_byte) in
             acc ++ [mkCaptureGroupMatch group (getGroupStyleId token_rule group)
                       match_start_char (size_sub match_end_char match_start_char)]
           else acc)
        [] (seqZ 1 (group_count token_rule)).

(** LineHighlightAnalyzer::findMatchedRuleAndGroup: the first token rule, in
    declared order, whose group 0 has the byte span of the match
    ([region->beg[token_group_start] == static_cast<int>(match_start_byte)
    && region->end[token_group_start] == static_cast<int>(match_end_byte)]). *)
Fixpoint findMatchedRuleAndGroup_from (rules : list (TokenRule StateRule))
    (rule_idx : Z) (region : OnigRegion) (text : string)
    (match_start_byte match_end_byte : nat) (result : MatchResult) : MatchResult :=
  match rules with
  | [] => result
  | token_rule :: rest =>
      let token_group_start := group_offset_start token_rule in
      if (region_beg region token_group_start =? int32_of (Z.of_nat match_start_byte))
         && (region_end region token_group_start =? int32_of (Z.of_nat match_end_byte))
      then
        mkMatchResult (matched result) (mr_start result) (mr_length result)
          (getGroupStyleId token_rule 0) (tr_goto_state token_rule)
          rule_idx token_group_start (mr_matched_text result)
          (capture_groups result
             ++ collect_capture_groups token_rule region text
                  match_start_byte match_end_byte)
          (sub_spans result)
      else
        findMatchedRuleAndGroup_from rest (rule_idx + 1) region text
          match_start_byte match_end_byte result
  end.

Definition findMatchedRuleAndGroup (state_rule : StateRule) (region : OnigRegion)
    (text : string) (match_start_byte match_end_byte : nat)
    (result : MatchResult) : MatchResult :=
  findMatchedRuleAndGroup_from (token_rules state_rule) 0 region text
    match_start_byte match_end_byte result.

Definition set_sub_spans (ss : list TokenSpan) (r : MatchResult) : MatchResult :=
  mkMatchResult (matched r) (mr_start r) (mr_length r) (mr_style r)
    (mr_goto_state r) (token_rule_idx r) (matched_group r) (mr_matched_text r)
    (capture_groups r) ss.

(** What one sub-match contributes to the sub-spans of its parent: its own
    sub-spans shifted to its start, else one span per capture group, else
    one span for the whole sub-match. *)
Definition sub_match_content (sub_res : MatchResult) : list TokenSpan :=
  match sub_spans sub_res with
  | _ :: _ => map (shift_columns (mr_start sub_res)) (sub_spans sub_res)
  | [] =>
      match capture_groups sub_res with
      | _ :: _ =>
          map (fun g =>
                 local_span (cg_start g + mr_start sub_res)
                            (cg_start g + cg_length g + mr_start sub_res)
                            (cg_style g))
              (capture_groups sub_res)
      | [] =>
          [local_span (mr_start sub_res) (mr_start sub_res + mr_length sub_res)
                      (mr_style sub_res)]
      end
  end.

(** The gap in front of a sub-match ([if (sub_res.start > sub_pos)]). *)
Definition gap_before (style : Z) (sub_pos : nat) (sub_res : MatchResult) : list TokenSpan :=
  if (sub_pos <? mr_start sub_res)%nat
  then [local_span sub_pos (mr_start sub_res) style]
  else [].

(** The loop [while (sub_pos < sub_len)] of the sub-grammar descent;
    [sub_match] is the recursive call on the sub-rule.  It returns the
    sub-spans collected and the position where it stopped. *)
Fixpoint sub_loop (fuel : nat) (sub_match : nat -> outcome MatchResult)
    (style : Z) (sub_len sub_pos : nat) (acc : list TokenSpan)
    : outcome (list TokenSpan * nat) :=
  if (sub_pos <? sub_len)%nat then
    match fuel with
    | O => Fail OutOfFuel
    | S fuel' =>
        sub_res ← sub_match sub_pos;
        if negb (matched sub_res) then Done (acc, sub_pos)
        else
          let acc' := acc ++ gap_before style sub_pos sub_res
                          ++ sub_match_content sub_res in
          let sub_pos' := (mr_start sub_res + mr_length sub_res)%nat in
          let sub_pos'' := if (mr_length sub_res =? 0)%nat then S sub_pos' else sub_pos' in
          sub_loop fuel' sub_match style sub_len sub_pos'' acc'
    end
  else Done (acc, sub_pos).

(** The trailing gap ([if (sub_pos < sub_len)] after the loop). *)
Definition tail_gap (style : Z) (sub_pos sub_len : nat) : list TokenSpan :=
  if (sub_pos <? sub_len)%nat then [local_span sub_pos sub_len style] else [].

(** The result as it stands when findMatchedRuleAndGroup is called: the
    match with its position, length and text in characters. *)
Definition initial_match (text : string) (match_start_byte match_end_byte : nat)
    : MatchResult :=
  let match_start_char := bytePosToCharPos text match_start_byte in
  let match_end_char := bytePosToCharPos text match_end_byte in
  let match_length_chars := (match_end_char - match_start_char)%nat in
  mkMatchResult true match_start_char match_length_chars
    (mr_style MatchResult_default) (mr_goto_state MatchResult_default)
    (token_rule_idx MatchResult_default) (matched_group MatchResult_default)
    (utf8Substr text match_start_char match_length_chars) [] [].

(** [state_rule.token_rules[result.token_rule_idx]] under the guard
    [result.matched && result.token_rule_idx >= 0]. *)
Definition winning_rule (state_rule : StateRule) (result : MatchResult)
    : option (TokenRule StateRule) :=
  if matched result && (0 <=? token_rule_idx result)
  then token_rules state_rule !! Z.to_nat (token_rule_idx result)
  else None.

(** LineHighlightAnalyzer::matchAtPosition(text, start_char_pos, state_rule).
    [depth] bounds the nesting of the recursive calls on sub-grammars. *)
Fixpoint matchAtPositionRule (depth : nat) (text : string) (start_char_pos : nat)
    (state_rule : StateRule) : outcome MatchResult :=
  match depth with
  | O => Fail OutOfFuel
  | S depth' =>
      let start_byte_pos := charPosToBytePos text start_char_pos in
      let '(match_byte_pos, region) := onig_search (regex state_rule) text start_byte_pos in
      if 0 <=? match_byte_pos then
        let match_start_byte := Z.to_nat match_byte_pos in
        let match_end_byte := size_of_int (region_end region 0) in
        if (match_end_byte <=? match_start_byte)%nat then Done MatchResult_default
        else
          let result :=
            findMatchedRuleAndGroup state_rule region text
              match_start_byte match_end_byte
              (initial_match text match_start_byte match_end_byte) in
          match winning_rule state_rule result with
          | Some rule =>
              match sub_state_rule rule with
              | Some sub_rule =>
                  let sub_len := countChars (mr_matched_text result) in
                  '(ss, sub_pos) ←
                     sub_loop sub_len
                       (fun p => matchAtPositionRule depth' (mr_matched_text result) p sub_rule)
                       (mr_style result) sub_len 0 [];
                  Done (set_sub_spans (ss ++ tail_gap (mr_style result) sub_pos sub_len) result)
              | None => Done result
              end
          | None => Done result
          end
      else Done MatchResult_default
  end.

(** LineHighlightAnalyzer::matchAtPosition(text, start_char_pos, syntax_state) *)
Definition matchAtPosition (text : string) (start_char_pos : nat)
    (syntax_state : Z) : outcome MatchResult :=
  if negb (containsRule m_rule syntax_state) then Done MatchResult_default
  else
    match getStateRule m_rule syntax_state with
    | Some state_rule =>
        matchAtPositionRule (rule_depth state_rule) text start_char_pos state_rule
    | None => Done MatchResult_default
    end.

(** The spans that addLineHighlightResult hands to the merger for a match,
    in order: the three branches of the source. *)
Definition sub_span_emitted (info : TextLineInfo) (syntax_state : Z)
    (match_result : MatchResult) (sub : TokenSpan) : TokenSpan :=
  let start_column := (column (start (range sub)) + mr_start match_result)%nat in
  let end_column := (column (end_ (range sub)) + mr_start match_result)%nat in
  set_state syntax_state
    (set_range
       (mkTextRange
          (mkTextPosition (li_line info) start_column
             (start_char_offset info + start_column))
          (mkTextPosition (li_line info) end_column
             (start_char_offset info + end_column)))
       sub).

Definition whole_match_emitted (info : TextLineInfo) (syntax_state : Z)
    (match_result : MatchResult) : TokenSpan :=
  mkTokenSpan
    (mkTextRange
       (mkTextPosition (li_line info) (mr_start match_result)
          (start_char_offset info + mr_start match_result))
       (mkTextPosition (li_line info)
          (mr_start match_result + mr_length match_result)
          (start_char_offset info + mr_start match_result + mr_length match_result)))
    (mr_style match_result) syntax_state (mr_goto_state match_result)
    (mr_matched_text match_result) (resolve_inline_style (mr_style match_result)).

Definition capture_group_emitted (info : TextLineInfo) (syntax_state : Z)
    (match_result : MatchResult) (group_match : CaptureGroupMatch) : TokenSpan :=
  mkTokenSpan
    (mkTextRange
       (mkTextPosition (li_line info) (cg_start group_match)
          (start_char_offset info + cg_start group_match))
       (mkTextPosition (li_line info)
          (cg_start group_match + cg_length group_match)
          (start_char_offset info + cg_start group_match + cg_length group_match)))
    (cg_style group_match) syntax_state (mr_goto_state match_result)
    "" (resolve_inline_style (cg_style group_match)).

(** LineHighlightAnalyzer::addLineHighlightResult *)
Definition addLineHighlightResult (highlight : LineHighlight) (info : TextLineInfo)
    (syntax_state : Z) (match_result : MatchResult) : LineHighlight :=
  match sub_spans match_result with
  | _ :: _ =>
      foldl (fun hl sub =>
               pushOrMergeSpan hl (sub_span_emitted info syntax_state match_result sub))
            highlight (sub_spans match_result)
  | [] =>
      match capture_groups match_result with
      | [] => pushOrMergeSpan highlight (whole_match_emitted info syntax_state match_result)
      | _ :: _ =>
          foldl (fun hl group_match =>
                   pushOrMergeSpan hl
                     (capture_group_emitted info syntax_state match_result group_match))
                highlight (capture_groups match_result)
      end
  end.

(** The spans handed to the merger for a match, in order. *)
Definition emitted_spans (info : TextLineInfo) (syntax_state : Z)
    (match_result : MatchResult) : list TokenSpan :=
  match sub_spans match_result with
  | _ :: _ => map (sub_span_emitted info syntax_state match_result) (sub_spans match_result)
  | [] =>
      match capture_groups match_result with
      | [] => [whole_match_emitted info syntax_state match_result]
      | _ :: _ =>
          map (capture_group_emitted info syntax_state match_result)
              (capture_groups match_result)
      end
  end.

(** The state of the scan loop of analyzeLine. *)
Record ScanState := mkScanState {
  current_char_pos : nat;
  current_state : Z;
  scan_highlight : LineHighlight
}.

(** One iteration of [while (current_char_pos < line_char_count)]. *)
Definition scan_step (text : string) (info : TextLineInfo) (s : ScanState)
    : outcome ScanState :=
  match_result ← matchAtPosition text (current_char_pos s) (current_state s);
  if negb (matched match_result)
  then Done (mkScanState (S (current_char_pos s)) (current_state s) (scan_highlight s))
  else
    Done (mkScanState
            (mr_start match_result + mr_length match_result)
            (if 0 <=? mr_goto_state match_result
             then mr_goto_state match_result else current_state s)
            (addLineHighlightResult (scan_highlight s) info (current_state s) match_result)).

Fixpoint scan_loop (fuel : nat) (text : string) (info : TextLineInfo)
    (line_char_count : nat) (s : ScanState) : outcome ScanState :=
  if (current_char_pos s <? line_char_count)%nat then
    match fuel with
    | O => Fail OutOfFuel
    | S fuel' =>
        s' ← scan_step text info s;
        scan_loop fuel' text info line_char_count s'
    end
  else Done s.

(** The end of analyzeLine: the line-end transition of the state reached;
    a state without a rule has none. *)
Definition finish_line (line_char_count : nat) (s : ScanState)
    : outcome LineAnalyzeResult :=
  let end_state :=
    match getStateRule m_rule (current_state s) with
    | Some state_rule =>
        if 0 <=? line_end_state state_rule
        then line_end_state state_rule else current_state s
    | None => current_state s
    end in
  Done (mkLineAnalyzeResult (scan_highlight s) end_state line_char_count).

(** LineHighlightAnalyzer::analyzeLine, on a fresh LineAnalyzeResult (every
    caller passes one).  The scan loop runs for at most [fuel] iterations. *)
Definition analyzeLine_fuel (fuel : nat) (text : string) (info : TextLineInfo)
    : outcome LineAnalyzeResult :=
  match text with
  | EmptyString => Done (mkLineAnalyzeResult LineHighlight_default (start_state info) 0)
  | String _ _ =>
      let line_char_count := countChars text in
      s ← scan_loop fuel text info line_char_count
            (mkScanState 0 (start_state info) LineHighlight_default);
      finish_line line_char_count s
  end.

Definition analyzeLine (text : string) (info : TextLineInfo)
    : outcome LineAnalyzeResult :=
  analyzeLine_fuel (countChars text) text info.

End LineHighlightAnalyzer.

(** ** Text-mode splitter: TextAnalyzer::analyzeText *)

Definition newline : Ascii.ascii := Ascii.ascii_of_nat 10.
Definition carriage_return : Ascii.ascii := Ascii.ascii_of_nat 13.

(** The pieces of the text between the successive ['\n'] found by
    [text.find('\n', start)]; the last piece is what follows the last one. *)
Fixpoint split_newline (s : string) : list string :=
  match s with
  | EmptyString => [EmptyString]
  | String a s' =>
      if Ascii.eqb a newline then EmptyString :: split_newline s'
      else match split_newline s' with
           | l :: ls => String a l :: ls
           | [] => [String a EmptyString]
           end
  end.

(** [!line_text.empty() && line_text.back() == '\r'] *)
Fixpoint has_cr (s : string) : bool :=
  match s with
  | EmptyString => false
  | String a EmptyString => Ascii.eqb a carriage_return
  | String _ s' => has_cr s'
  end.

(** [line_text.pop_back()] *)
Fixpoint pop_back (s : string) : string :=
  match s with
  | EmptyString => EmptyString
  | String _ EmptyString => EmptyString
  | String a s' => String a (pop_back s')
  end.

Definition strip_cr (s : string) : string :=
  if has_cr s then pop_back s else s.

(** DocumentHighlight::addLine *)
Definition addLine (h : DocumentHighlight) (l : LineHighlight) : DocumentHighlight :=
  mkDocumentHighlight (lines h ++ [l]).

Section TextAnalyzer.
Context {regex_type : RegexType} {engine : RegexEngine}.
Variable m_rule : SyntaxRule.
Variable m_config : HighlightConfig.

(** [line_info] after a line that ended in ['\n']. *)
Definition next_line_info (line_info : TextLineInfo) (line_text : string)
    (result : LineAnalyzeResult) : TextLineInfo :=
  mkTextLineInfo (S (li_line line_info)) (end_state result)
    (start_char_offset line_info + char_count result
     + (if has_cr line_text then 1 else 0) + 1).

(** The [while (end != npos)] loop over the pieces that end in ['\n'],
    followed by the last line. *)
Fixpoint analyzeText_lines (pieces : list string) (line_info : TextLineInfo)
    (document_highlight : DocumentHighlight) : outcome DocumentHighlight :=
  match pieces with
  | [] => Done document_highlight
  | [last_line] =>
      result ← analyzeLine m_rule m_config (strip_cr last_line) line_info;
      Done (addLine document_highlight (highlight result))
  | line_text :: rest =>
      result ← analyzeLine m_rule m_config (strip_cr line_text) line_info;
      analyzeText_lines rest (next_line_info line_info line_text result)
        (addLine document_highlight (highlight result))
  end.

Definition analyzeText (text : string) : outcome DocumentHighlight :=
  match text with
  | EmptyString => Done (mkDocumentHighlight [])
  | String _ _ =>
      analyzeText_lines (split_newline text)
        (mkTextLineInfo 0 kDefaultStateId 0) (mkDocumentHighlight [])
  end.

End TextAnalyzer.

(** ** Document buffer interface *)

Inductive LineEnding := LF | CRLF | CR | NONE.

Record DocumentLine := mkDocumentLine {
  text : string;
  ending : LineEnding
}.

(** Modelled from the spec: Document::getLineEndingWidth,
    "0 for NONE, 1 for LF/CR, 2 for CRLF". *)
Definition getLineEndingWidth (e : LineEnding) : nat :=
  match e with
  | NONE => 0
  | LF | CR => 1
  | CRLF => 2
  end%nat.

(** The operations of Document that the analyzers call.  [patch] returns the
    buffer after the edit and the signed change of its line count. *)
Class DocumentBuffer (D : Type) := {
  getLineCount : D -> nat;
  getLine : D -> nat -> DocumentLine;
  getLineCharCount : D -> nat -> nat;
  charIndexOfLine : D -> nat -> nat;
  patch : D -> TextRange -> string -> D * Z
}.

(** ** Document analyzers: InternalDocumentAnalyzer *)

(** Element access of a vector, [v[i]]. *)
Definition vec_at {A : Type} (d : A) (v : list A) (i : nat) : A :=
  default d (v !! i).

(** [v.resize(n, x)] *)
Definition vec_resize {A : Type} (n : nat) (x : A) (v : list A) : list A :=
  take n v ++ replicate (n - length v) x.

(** [v.erase(v.begin() + first, v.begin() + last)] *)
Definition vec_erase {A : Type} (first last : nat) (v : list A) : list A :=
  take first v ++ drop last v.

(** [v.insert(v.begin() + pos, n, x)] *)
Definition vec_insert {A : Type} (pos n : nat) (x : A) (v : list A) : list A :=
  take pos v ++ replicate n x ++ drop pos v.

Record InternalDocumentAnalyzer (D : Type) := mkInternalDocumentAnalyzer {
  m_document : D;
  m_line_syntax_states : list Z;
  m_highlight : DocumentHighlight
}.

Arguments mkInternalDocumentAnalyzer {D}.
Arguments m_document {D}.
Arguments m_line_syntax_states {D}.
Arguments m_highlight {D}.

(** The variables of the two loops of the analyzers. *)
Record PassState := mkPassState {
  ps_line : nat;
  ps_current_state : Z;
  ps_line_start_index : nat;
  ps_states : list Z;
  ps_lines : list LineHighlight;
  ps_stable : bool
}.

Section DocumentAnalyzer.
Context {regex_type : RegexType} {engine : RegexEngine} {D : Type} {buffer : DocumentBuffer D}.
Variable m_rule : SyntaxRule.
Variable m_config : HighlightConfig.

(** The body of the [for] loop of analyzeHighlight. *)
Definition full_step (doc : D) (s : PassState) : outcome PassState :=
  let line_num := ps_line s in
  let info := mkTextLineInfo line_num (ps_current_state s) (ps_line_start_index s) in
  result ← analyzeLine m_rule m_config (text (getLine doc line_num)) info;
  Done (mkPassState (S line_num) (end_state result)
          (ps_line_start_index s + char_count result
           + getLineEndingWidth (ending (getLine doc line_num)))
          (<[line_num := end_state result]> (ps_states s))
          (ps_lines s ++ [highlight result])
          false).

Fixpoint full_loop (todo : nat) (doc : D) (s : PassState) : outcome PassState :=
  match todo with
  | O => Done s
  | S todo' => s' ← full_step doc s; full_loop todo' doc s'
  end.

(** InternalDocumentAnalyzer::analyzeHighlight (the grammar is present). *)
Definition analyzeHighlight (a : InternalDocumentAnalyzer D)
    : outcome (InternalDocumentAnalyzer D) :=
  let doc := m_document a in
  let line_count := getLineCount doc in
  let states0 := vec_resize line_count 0 (m_line_syntax_states a) in
  s ← full_loop line_count doc
        (mkPassState 0 kDefaultStateId 0 states0 [] false);
  Done (mkInternalDocumentAnalyzer doc (ps_states s) (mkDocumentHighlight (ps_lines s))).

(** The stability test of the incremental loop. *)
Definition stability_check (change_end_line line : nat) (old_state : Z)
    (old_line_highlight : LineHighlight) (result : LineAnalyzeResult) : bool :=
  if (change_end_line <? line)%nat && (old_state =? end_state result)
  then LineHighlight_eqb old_line_highlight (highlight result)
  else false.

(** The body of the re-tokenization loop of analyzeHighlightIncremental. *)
Definition retokenize_step (doc : D) (change_end_line : nat) (s : PassState)
    : outcome PassState :=
  let line := ps_line s in
  let old_state := vec_at 0 (ps_states s) line in
  let line_info := mkTextLineInfo line (ps_current_state s) (ps_line_start_index s) in
  result ← analyzeLine m_rule m_config (text (getLine doc line)) line_info;
  Done (mkPassState (S line) (end_state result)
          (ps_line_start_index s + char_count result
           + getLineEndingWidth (ending (getLine doc line)))
          (<[line := end_state result]> (ps_states s))
          (<[line := highlight result]> (ps_lines s))
          (stability_check change_end_line line old_state
             (vec_at LineHighlight_default (ps_lines s) line) result)).

(** [for (; line < total_line_count; ++line) { if (stable) break; ... }];
    [todo] is [total_line_count - line]. *)
Fixpoint retokenize_loop (todo : nat) (doc : D) (change_end_line : nat)
    (s : PassState) : outcome PassState :=
  match todo with
  | O => Done s
  | S todo' =>
      if ps_stable s then Done s
      else
        s' ← retokenize_step doc change_end_line s;
        retokenize_loop todo' doc change_end_line s'
  end.

(** The index fields of a span moved to a line that starts at
    [line_start_index]. *)
Definition reindex_span (line_start_index : nat) (span : TokenSpan) : TokenSpan :=
  set_range
    (mkTextRange
       (set_index (line_start_index + column (start (range span))) (start (range span)))
       (set_index (line_start_index + column (end_ (range span))) (end_ (range span))))
    span.

(** The body of the fix-up loop that follows under [show_index]. *)
Definition fixup_step (doc : D) (s : PassState) : PassState :=
  let line := ps_line s in
  let line_highlight := vec_at LineHighlight_default (ps_lines s) line in
  mkPassState (S line) (ps_current_state s)
    (ps_line_start_index s + getLineCharCount doc line)
    (ps_states s)
    (<[line := mkLineHighlight
                 (map (reindex_span (ps_line_start_index s)) (spans line_highlight))]>
       (ps_lines s))
    (ps_stable s).

Fixpoint fixup_loop (todo : nat) (doc : D) (s : PassState) : PassState :=
  match todo with
  | O => s
  | S todo' => fixup_loop todo' doc (fixup_step doc s)
  end.

(** The line where the change ends after the patch:
    [size_t change_end_line = static_cast<int32_t>(range.end.line) + line_change]. *)
Definition change_end_line_of (range : TextRange) (line_change : Z) : nat :=
  size_of_int (int32_of (Z.of_nat (line (end_ range))) + line_change).

(** The vectors of states and of line highlights after the edit changed the
    number of lines. *)
Definition resize_for_patch {A : Type} (range : TextRange) (line_change : Z)
    (x : A) (v : list A) : list A :=
  if line_change <? 0 then
    vec_erase (Z.to_nat (Z.of_nat (line (end_ range)) + line_change + 1))
              (line (end_ range) + 1) v
  else if 0 <? line_change then
    vec_insert (line (end_ range) + 1) (Z.to_nat line_change) x v
  else v.

(** The state the re-tokenization starts from. *)
Definition seed_state (states : list Z) (change_start_line : nat) : Z :=
  if (0 <? change_start_line)%nat
  then vec_at 0 states (change_start_line - 1)
  else kDefaultStateId.

(** InternalDocumentAnalyzer::analyzeHighlightIncremental(range, new_text)
    (the grammar is present). *)
Definition analyzeHighlightIncremental (a : InternalDocumentAnalyzer D)
    (range : TextRange) (new_text : string)
    : outcome (InternalDocumentAnalyzer D) :=
  let '(doc, line_change) := patch (m_document a) range new_text in
  let change_start_line := line (start range) in
  let change_end_line := change_end_line_of range line_change in
  let states := resize_for_patch range line_change 0 (m_line_syntax_states a) in
  let hl_lines := resize_for_patch range line_change LineHighlight_default
                    (lines (m_highlight a)) in
  let total_line_count := getLineCount doc in
  s ← retokenize_loop (total_line_count - change_start_line) doc change_end_line
        (mkPassState change_start_line (seed_state states change_start_line)
           (charIndexOfLine doc change_start_line) states hl_lines false);
  let s' := if cfg_show_index m_config
            then fixup_loop (total_line_count - ps_line s) doc s
            else s in
  Done (mkInternalDocumentAnalyzer doc (ps_states s') (mkDocumentHighlight (ps_lines s'))).

End DocumentAnalyzer.

(** ** Stability of a line

    Line [j] lies beyond the patched range and has, in the vectors after
    the re-tokenization, the end state and the LineHighlight it had in the
    vectors before it. *)
Definition stable_at (change_end_line : nat) (old new : PassState) (j : nat) : bool :=
  (change_end_line <? j)%nat
  && (vec_at 0 (ps_states old) j =? vec_at 0 (ps_states new) j)
  && LineHighlight_eqb (vec_at LineHighlight_default (ps_lines old) j)
                       (vec_at LineHighlight_default (ps_lines new) j).

(** ** Index consistency

    The index of a position is the character offset of the start of its
    line plus its column: for the line the position names, and for the line
    of the DocumentHighlight the span sits in. *)
Section IndexConsistency.
Context {D : Type} {buffer : DocumentBuffer D}.

Definition position_consistent (doc : D) (p : TextPosition) : bool :=
  (index p =? charIndexOfLine doc (line p) + column p)%nat.

Definition span_index_consistent (doc : D) (sp : TokenSpan) : bool :=
  position_consistent doc (start (range sp))
  && position_consistent doc (end_ (range sp)).

Definition index_consistent (doc : D) (h : DocumentHighlight) : bool :=
  forallb (fun l => forallb (span_index_consistent doc) (spans l)) (lines h).

Definition span_index_consistent_at (doc : D) (i : nat) (sp : TokenSpan) : bool :=
  (index (start (range sp)) =? charIndexOfLine doc i + column (start (range sp)))%nat
  && (index (end_ (range sp)) =? charIndexOfLine doc i + column (end_ (range sp)))%nat.

Definition index_consistent_by_position (doc : D) (h : DocumentHighlight) : bool :=
  forallb (fun il => forallb (span_index_consistent_at doc il.1) (spans il.2))
          (imap pair (lines h)).

End IndexConsistency.

(** ** Lines of a text and closed grammars *)

(** The number of ['\n'] in a text. *)
Fixpoint count_newlines (s : string) : nat :=
  match s with
  | EmptyString => 0%nat
  | String a s' => ((if Ascii.eqb a newline then 1 else 0) + count_newlines s')%nat
  end.

Section ClosedGrammar.
Context {regex_type : RegexType} {engine : RegexEngine}.

(** The states a state rule leads to are states of the grammar. *)
Definition rule_targets_known (g : SyntaxRule) (sr : StateRule) : bool :=
  forallb (fun r => (tr_goto_state r <? 0) || containsRule g (tr_goto_state r))
          (token_rules sr)
  && ((line_end_state sr <? 0) || containsRule g (line_end_state sr)).

(** The grammar has the default state, and no transition leaves it. *)
Definition states_closed (g : SyntaxRule) : bool :=
  containsRule g kDefaultStateId
  && forallb (fun kv => rule_targets_known g kv.2) (map_to_list (states g)).

End ClosedGrammar.

(** ** A small regex engine and a list-of-lines buffer

    Instances of the two interfaces on which the analyzers can be run: an
    engine for alternations of sequences of character classes (with capture
    groups), and a document kept as a list of lines. *)

Module Toy.

Inductive CharClass :=
  | Lower
  | Digit
  | Lit (a : Ascii.ascii)
  | AnyChar.

Record Atom := mkAtom {
  atom_class : CharClass;
  atom_plus : bool;
  atom_capture : bool
}.

Definition Pattern := list Atom.

Definition class_matches (c : CharClass) (a : Ascii.ascii) : bool :=
  let n := Ascii.nat_of_ascii a in
  negb (is_continuation a) &&
  match c with
  | Lower => (97 <=? n)%nat && (n <=? 122)%nat
  | Digit => (48 <=? n)%nat && (n <=? 57)%nat
  | Lit b => Ascii.eqb a b
  | AnyChar => (n <? 128)%nat
  end.

Fixpoint string_drop (n : nat) (s : string) : string :=
  match n, s with
  | S n', String _ s' => string_drop n' s'
  | _, _ => s
  end.

Fixpoint count_class (c : CharClass) (s : string) : nat :=
  match s with
  | String a s' => if class_matches c a then S (count_class c s') else 0%nat
  | EmptyString => 0%nat
  end.

Definition match_atom (t : Atom) (s : string) : option nat :=
  match s with
  | String a s' =>
      if class_matches (atom_class t) a
      then Some (if atom_plus t then S (count_class (atom_class t) s') else 1%nat)
      else None
  | EmptyString => None
  end.

(** Matches the atoms one after the other on [s], which sits at the byte
    offset [off] of the text; returns the end offset and the spans of the
    capturing atoms. *)
Fixpoint match_pattern (p : Pattern) (s : string) (off : nat)
    : option (nat * list (Z * Z)) :=
  match p with
  | [] => Some (off, [])
  | t :: p' =>
      match match_atom t s with
      | None => None
      | Some n =>
          match match_pattern p' (string_drop n s) (off + n) with
          | None => None
          | Some (e, caps) =>
              Some (e, if atom_capture t
                       then (Z.of_nat off, Z.of_nat (off + n)) :: caps
                       else caps)
          end
      end
  end.

(** The first alternative, in order, that matches at least one byte. *)
Fixpoint try_alternatives (re : list Pattern) (j : nat) (s : string) (off : nat)
    : option (nat * nat * list (Z * Z)) :=
  match re with
  | [] => None
  | p :: re' =>
      match match_pattern p s off with
      | Some (e, caps) =>
          if (off <? e)%nat then Some (j, e, caps)
          else try_alternatives re' (S j) s off
      | None => try_alternatives re' (S j) s off
      end
  end.

(** Leftmost match at or after [off]. *)
Fixpoint search_from (re : list Pattern) (s : string) (off : nat)
    : option (nat * (nat * nat * list (Z * Z))) :=
  match s with
  | EmptyString => None
  | String _ s' =>
      match try_alternatives re 0 s off with
      | Some m => Some (off, m)
      | None => search_from re s' (S off)
      end
  end.

Definition captures_of (p : Pattern) : nat :=
  length (filter (fun t => atom_capture t = true) p).

(** Group 0 is the whole match; every alternative then owns its group 0 and
    its capture groups, unset when it is not the one that matched. *)
Fixpoint alternative_groups (re : list Pattern) (j winner : nat)
    (whole : Z * Z) (caps : list (Z * Z)) : list (Z * Z) :=
  match re with
  | [] => []
  | p :: re' =>
      (if (j =? winner)%nat then whole :: caps
       else replicate (S (captures_of p)) (ONIG_REGION_NOTPOS, ONIG_REGION_NOTPOS))
      ++ alternative_groups re' (S j) winner whole caps
  end.

Definition ONIG_MISMATCH : Z := -1.

Definition search (re : list Pattern) (text : string) (start_byte : nat)
    : Z * OnigRegion :=
  match search_from re (string_drop start_byte text) start_byte with
  | Some (pos, (winner, e, caps)) =>
      let whole := (Z.of_nat pos, Z.of_nat e) in
      let groups := whole :: alternative_groups re 0 winner whole caps in
      (Z.of_nat pos, mkOnigRegion (map fst groups) (map snd groups))
  | None => (ONIG_MISMATCH, mkOnigRegion [] [])
  end.

Definition pattern_type : RegexType := list Pattern.

Definition engine : @RegexEngine pattern_type :=
  {| onig_search := search |}.

(** The group where alternative [j] starts. *)
Definition group_offset (re : list Pattern) (j : nat) : Z :=
  Z.of_nat (1 + foldr (fun p acc => S (captures_of p) + acc) 0 (take j re))%nat.

(** The buffer: the lines of the text with their endings. *)
Fixpoint parse_lines (s : string) : list DocumentLine :=
  match s with
  | EmptyString => [mkDocumentLine "" NONE]
  | String a s' =>
      if Ascii.eqb a newline then mkDocumentLine "" LF :: parse_lines s'
      else if Ascii.eqb a carriage_return then
        match s' with
        | String b s'' =>
            if Ascii.eqb b newline then mkDocumentLine "" CRLF :: parse_lines s''
            else mkDocumentLine "" CR :: parse_lines s'
        | EmptyString => [mkDocumentLine "" CR; mkDocumentLine "" NONE]
        end
      else
        match parse_lines s' with
        | l :: ls => mkDocumentLine (String a (text l)) (ending l) :: ls
        | [] => [mkDocumentLine (String a "") NONE]
        end
  end.

Definition ending_text (e : LineEnding) : string :=
  match e with
  | LF => String newline ""
  | CRLF => String carriage_return (String newline "")
  | CR => String carriage_return ""
  | NONE => ""
  end.

Definition document_text (doc : list DocumentLine) : string :=
  foldr (fun l acc => text l +:+ ending_text (ending l) +:+ acc) "" doc.

Definition line_start (doc : list DocumentLine) (i : nat) : nat :=
  foldr (fun l acc => countChars (text l) + getLineEndingWidth (ending l) + acc)%nat
        0%nat (take i doc).

(** Replaces the characters between the two positions of [range] by
    [new_text] and reports the change of the line count. *)
Definition patch_lines (doc : list DocumentLine) (range : TextRange)
    (new_text : string) : list DocumentLine * Z :=
  let whole := document_text doc in
  let b := charPosToBytePos whole
             (line_start doc (line (start range)) + column (start range)) in
  let e := charPosToBytePos whole
             (line_start doc (line (end_ range)) + column (end_ range)) in
  let doc' := parse_lines (String.substring 0 b whole +:+ new_text +:+ string_drop e whole) in
  (doc', Z.of_nat (length doc') - Z.of_nat (length doc)).

(** The buffer interface on lists of lines; what getLineCharCount returns is
    left open by [line_char_count]. *)
Definition buffer (line_char_count : list DocumentLine -> nat -> nat)
    : DocumentBuffer (list DocumentLine) :=
  {| getLineCount := fun doc => length doc;
     getLine := fun doc i => vec_at (mkDocumentLine "" NONE) doc i;
     getLineCharCount := line_char_count;
     charIndexOfLine := line_start;
     patch := patch_lines |}.

(** Modelled from the spec: Document::getLineCharCount, the "per-line char
    count": the number of characters of the text of the line. *)
Definition text_char_count (doc : list DocumentLine) (i : nat) : nat :=
  countChars (text (vec_at (mkDocumentLine "" NONE) doc i)).

End Toy.

(** ** Tiling

    [tiles ss from to]: the spans of [ss] are not empty, each starts in the
    column where the one before ends, the first in [from], and the last ends
    in [to]. *)
Fixpoint tiles (ss : list TokenSpan) (from to : nat) : Prop :=
  match ss with
  | [] => from = to
  | s :: ss' =>
      column (start (range s)) = from
      /\ (from < column (end_ (range s)))%nat
      /\ tiles ss' (column (end_ (range s))) to
  end.

Section Tiling.
Context {regex_type : RegexType} {engine : RegexEngine}.
Variable m_rule : SyntaxRule.
Variable m_config : HighlightConfig.



(** No rule of the state rule, at any depth of its sub-grammars, has
    capture groups. *)
Fixpoint capture_free (sr : StateRule) : bool :=
  match sr with
  | mkStateRule _ rs _ =>
      forallb (fun r =>
                 (group_count r <=? 0)
                 && match sub_state_rule r with
                    | Some sub => capture_free sub
                    | None => true
                    end) rs
  end.

End Tiling.

(** ** The contract of the regex engine

    What the tokenizer expects from [onig_search] on a text in UTF-8: a match
    of positive width found from [start] starts at or after [start], on the
    first byte of a character, and ends inside the text. *)

Definition char_starts_at (text : string) (b : nat) : Prop :=
  bytePosToCharPos text (S b) = S (bytePosToCharPos text b).

Definition search_result_ok (text : string) (start : nat) (r : Z * OnigRegion) : Prop :=
  0 <= r.1 ->
  (Z.to_nat r.1 < size_of_int (region_end r.2 0))%nat ->
  (start <= Z.to_nat r.1)%nat
  /\ (size_of_int (region_end r.2 0) <= String.length text)%nat
  /\ char_starts_at text (Z.to_nat r.1).

Definition search_contract {regex_type : RegexType} {engine : RegexEngine} : Prop :=
  forall (re : Regex) (text : string) (start : nat),
    search_result_ok text start (onig_search re text start).

(** ** Invariants of a LineHighlight *)

(** The span lies on the line [line_no], which starts at the character
    offset [offset]: both positions name that line, and their indices are
    the offset plus their columns. *)
Definition span_stamped (line_no offset : nat) (sp : TokenSpan) : Prop :=
  line (start (range sp)) = line_no
  /\ line (end_ (range sp)) = line_no
  /\ index (start (range sp)) = (offset + column (start (range sp)))%nat
  /\ index (end_ (range sp)) = (offset + column (end_ (range sp)))%nat.

(** The spans are not empty, lie between the columns [lo] and [hi], and
    each starts at or after the end of the one before. *)
Fixpoint ordered_between (lo hi : nat) (ss : list TokenSpan) : Prop :=
  match ss with
  | [] => (lo <= hi)%nat
  | s :: ss' =>
      (lo <= column (start (range s)))%nat
      /\ (column (start (range s)) < column (end_ (range s)))%nat
      /\ ordered_between (column (end_ (range s))) hi ss'
  end.

Section CaptureFreeGrammar.
Context {regex_type : RegexType}.

(** No rule of the grammar, in its states or in their sub-grammars, has
    capture groups. *)
Definition grammar_capture_free (g : SyntaxRule) : bool :=
  forallb (fun kv => capture_free kv.2) (map_to_list (states g)).

End CaptureFreeGrammar.

(** ** Layout of a LineHighlight

    What a span says apart from the line numbers and the indices of its two
    positions: its columns, style, state, goto_state, matched text and
    inline style. *)
Definition span_layout (sp : TokenSpan)
    : nat * nat * Z * Z * Z * string * option string :=
  (column (start (range sp)), column (end_ (range sp)), style_id sp, state sp,
   goto_state sp, matched_text sp, inline_style sp).

Definition same_layout (a b : LineHighlight) : Prop :=
  map span_layout (spans a) = map span_layout (spans b).

(** Two computations end the same way: with values related by [R], or with
    the same failure. *)
Definition outcome_rel {A : Type} (R : A -> A -> Prop) (m1 m2 : outcome A) : Prop :=
  match m1, m2 with
  | Done a1, Done a2 => R a1 a2
  | Fail e1, Fail e2 => e1 = e2
  | _, _ => False
  end.

(** Two results of analyzeLine with the same end state, character count and
    layout. *)
Definition same_line_result (r1 r2 : LineAnalyzeResult) : Prop :=
  end_state r1 = end_state r2
  /\ char_count r1 = char_count r2
  /\ same_layout (highlight r1) (highlight r2).

Definition same_scan_state (s1 s2 : ScanState) : Prop :=
  current_char_pos s1 = current_char_pos s2
  /\ current_state s1 = current_state s2
  /\ same_layout (scan_highlight s1) (scan_highlight s2).

(** ** The full analysis, line by line *)

Section LineByLine.
Context {regex_type : RegexType} {engine : RegexEngine}
        {D : Type} {buffer : DocumentBuffer D}.
Variable m_rule : SyntaxRule.
Variable m_config : HighlightConfig.

(** The character offset where line [i] starts: the characters and the
    line endings of the lines before it. *)
Fixpoint doc_line_start (doc : D) (i : nat) : nat :=
  match i with
  | O => 0%nat
  | S j =>
      (doc_line_start doc j + countChars (text (getLine doc j))
       + getLineEndingWidth (ending (getLine doc j)))%nat
  end.

(** The entries of line [j] in the vectors [S] and [L] are the end state and
    the LineHighlight of the analysis of that line from the end state of
    the line before it (the default state for line 0). *)
Definition line_result_at (doc : D) (S : list Z) (L : list LineHighlight)
    (j : nat) : Prop :=
  exists r,
    analyzeLine m_rule m_config (text (getLine doc j))
      (mkTextLineInfo j (seed_state S j) (doc_line_start doc j)) = Done r
    /\ S !! j = Some (end_state r)
    /\ L !! j = Some (highlight r).

(** The invariant of the loop of analyzeHighlight: the lines before the
    current one have their results in the vectors. *)
Definition full_loop_inv (doc : D) (s : PassState) : Prop :=
  length (ps_lines s) = ps_line s
  /\ ps_line_start_index s = doc_line_start doc (ps_line s)
  /\ ps_current_state s = seed_state (ps_states s) (ps_line s)
  /\ forall j, (j < ps_line s)%nat ->
               line_result_at doc (ps_states s) (ps_lines s) j.

(** The same up to the line numbers and indices of the spans. *)
Definition line_layout_at (doc : D) (S : list Z) (L : list LineHighlight)
    (j : nat) : Prop :=
  exists r,
    analyzeLine m_rule m_config (text (getLine doc j))
      (mkTextLineInfo j (seed_state S j) (doc_line_start doc j)) = Done r
    /\ S !! j = Some (end_state r)
    /\ exists l, L !! j = Some l /\ same_layout l (highlight r).

(** The vectors hold, for every line of the document, what the full
    analysis computes for it, up to the line numbers and indices of the
    spans. *)
Definition agrees_with_full (doc : D) (S : list Z) (L : list LineHighlight) : Prop :=
  length S = getLineCount doc
  /\ length L = getLineCount doc
  /\ forall j, (j < getLineCount doc)%nat -> line_layout_at doc S L j.





(** What the incremental analyzer expects of the buffer for an edit of
    [range] that turned [doc] into [doc'] and changed the line count by
    [line_change]: the edit lies on the lines [range.start.line ..
    range.end.line] of [doc], which have become the lines [range.start.line
    .. range.end.line + line_change] of [doc']; the lines before them kept
    their text, and the lines after them are the old lines after
    [range.end.line], moved by [line_change].  The line of the end of the
    range and the line change are in the range of [int32_t]. *)
Definition edit_well_formed (doc doc' : D) (range : TextRange) (line_change : Z)
    : Prop :=
  Z.of_nat (getLineCount doc') = Z.of_nat (getLineCount doc) + line_change
  /\ (line (start range) <= line (end_ range))%nat
  /\ (line (end_ range) < getLineCount doc)%nat
  /\ Z.of_nat (line (end_ range)) < 2 ^ 31
  /\ - 2 ^ 31 <= line_change < 2 ^ 31
  /\ Z.of_nat (line (start range)) <= Z.of_nat (line (end_ range)) + line_change
  /\ (forall j, (j < line (start range))%nat ->
                text (getLine doc' j) = text (getLine doc j))
  /\ (forall j, Z.of_nat (line (end_ range)) + line_change < Z.of_nat j ->
                (j < getLineCount doc')%nat ->
                text (getLine doc' j)
                = text (getLine doc (Z.to_nat (Z.of_nat j - line_change)))).

(** The invariant of the re-tokenization loop started at the line
    [first]: the lines from [first] to the current one have their results in
    the vectors. *)
Definition retokenize_inv (doc : D) (first : nat) (s : PassState) : Prop :=
  ps_current_state s = seed_state (ps_states s) (ps_line s)
  /\ forall j, (first <= j < ps_line s)%nat ->
               line_layout_at doc (ps_states s) (ps_lines s) j.

(** A sequence of edits applied one after the other through
    analyzeHighlightIncremental (DocumentAnalyzer::analyzeIncremental). *)
Fixpoint analyzeIncrementalAll (a : InternalDocumentAnalyzer D)
    (edits : list (TextRange * string)) : outcome (InternalDocumentAnalyzer D) :=
  match edits with
  | [] => Done a
  | (range, new_text) :: rest =>
      a' ← analyzeHighlightIncremental m_rule m_config a range new_text;
      analyzeIncrementalAll a' rest
  end.

(** Every edit of the sequence is well formed for the buffer it meets. *)
Fixpoint edits_well_formed (doc : D) (edits : list (TextRange * string)) : Prop :=
  match edits with
  | [] => True
  | (range, new_text) :: rest =>
      edit_well_formed doc (patch doc range new_text).1 range
        (patch doc range new_text).2
      /\ edits_well_formed (patch doc range new_text).1 rest
  end.

(** The document after the edits. *)
Fixpoint patched (doc : D) (edits : list (TextRange * string)) : D :=
  match edits with
  | [] => doc
  | (range, new_text) :: rest => patched (patch doc range new_text).1 rest
  end.

End LineByLine.

(** ** A text and the buffer that holds it

    The buffer has one line for every piece of the text between two
    ['\n']: the text of the line is the piece without the ['\r'] at its
    end, and the ending of a line that is not the last is as wide as what was
    cut off. *)
Section TextAndDocument.
Context {D : Type} {buffer : DocumentBuffer D}.

Definition holds_pieces (doc : D) (pieces : list string) : Prop :=
  getLineCount doc = length pieces
  /\ forall (j : nat) (p : string),
       pieces !! j = Some p ->
       text (getLine doc j) = strip_cr p
       /\ ((S j < length pieces)%nat ->
           getLineEndingWidth (ending (getLine doc j))
           = ((if has_cr p then 1 else 0) + 1)%nat).

End TextAndDocument.

(** ** Offsets in a text

    [text_before s i]: the text up to and with its [i]-th ['\n'], which is
    what stands in front of line [i]. *)
Fixpoint text_before (s : string) (i : nat) : string :=
  match i, s with
  | O, _ => EmptyString
  | S _, EmptyString => EmptyString
  | S i', String a s' =>
      String a (if Ascii.eqb a newline then text_before s' i' else text_before s' i)
  end.

(** The characters of the first [i] pieces of a text, each counted with the
    ['\n'] behind it. *)
Fixpoint piece_start (pieces : list string) (i : nat) {struct i} : nat :=
  match i with
  | O => 0%nat
  | S i' =>
      match pieces with
      | p :: ps => (countChars p + 1 + piece_start ps i')%nat
      | [] => 0%nat
      end
  end.

(** ** What the equality of spans looks at *)

(** The fields that TokenSpan::operator== compares. *)
Definition span_key (sp : TokenSpan) : TextRange * Z * Z * Z :=
  (range sp, style_id sp, state sp, goto_state sp).

(** TokenSpan::operator!= *)
Definition TokenSpan_neqb (a b : TokenSpan) : bool := negb (TokenSpan_eqb a b).

(** DocumentHighlight::spanCount *)
Definition spanCount (h : DocumentHighlight) : nat :=
  foldl (fun count l => (count + length (spans l))%nat) 0%nat (lines h).


(** ** The registry: HighlightEngine *)

Section Registry.
Context {regex_type : RegexType} {D : Type}.

(** Modelled from the spec: the fields [name] and [file_extensions] of a
    SyntaxRule ("{name, file_extensions: set<string>, states, ...}"), which
    the registry reads; [syntax_rule] is the grammar. *)
Record NamedSyntaxRule := mkNamedSyntaxRule {
  name : string;
  file_extensions : gset string;
  syntax_rule : SyntaxRule
}.

(** DocumentAnalyzer(document, rule, config): the analyzer with the vectors
    that its constructor leaves empty, and the grammar it was made for. *)
Record DocumentAnalyzer := mkDocumentAnalyzer {
  analyzer_impl : InternalDocumentAnalyzer D;
  analyzer_rule : NamedSyntaxRule;
  analyzer_config : HighlightConfig
}.

Definition new_DocumentAnalyzer (document : D) (rule : NamedSyntaxRule)
    (config : HighlightConfig) : DocumentAnalyzer :=
  mkDocumentAnalyzer
    (mkInternalDocumentAnalyzer document [] (mkDocumentHighlight [])) rule config.

(** The engine: the grammars in the order in which its loops visit them,
    and the analyzers by URI. *)
Record HighlightEngine := mkHighlightEngine {
  engine_config : HighlightConfig;
  m_syntax_rules : list NamedSyntaxRule;
  m_analyzer_map : gmap string DocumentAnalyzer
}.

(** HighlightEngine::getSyntaxRuleByName *)
Definition getSyntaxRuleByName (e : HighlightEngine) (rule_name : string)
    : option NamedSyntaxRule :=
  list_find (fun rule => name rule = rule_name) (m_syntax_rules e) ≫= fun ir => Some ir.2.

Definition dot : Ascii.ascii := Ascii.ascii_of_nat 46.

(** [if (fixed_extension[0] != '.') fixed_extension.insert(0, ".")] *)
Definition fixed_extension (extension : string) : string :=
  match extension with
  | String a _ => if Ascii.eqb a dot then extension else String dot extension
  | EmptyString => extension
  end.

(** HighlightEngine::getSyntaxRuleByExtension *)
Definition getSyntaxRuleByExtension (e : HighlightEngine) (extension : string)
    : option NamedSyntaxRule :=
  match extension with
  | EmptyString => None
  | String _ _ =>
      list_find (fun rule => fixed_extension extension ∈ file_extensions rule)
                (m_syntax_rules e) ≫= fun ir => Some ir.2
  end.

(** Document::getUri and FileUtil::getExtension, which the source of the
    engine calls and does not define. *)
Variable getUri : D -> string.
Variable getExtension : string -> string.

(** HighlightEngine::loadDocument: the analyzer handed out, and the engine
    afterwards. *)
Definition loadDocument (e : HighlightEngine) (document : D)
    : option DocumentAnalyzer * HighlightEngine :=
  match m_analyzer_map e !! getUri document with
  | None =>
      let uri := getUri document in
      match getSyntaxRuleByExtension e (getExtension uri) with
      | None => (None, e)
      | Some rule =>
          let analyzer := new_DocumentAnalyzer document rule (engine_config e) in
          (Some analyzer,
           mkHighlightEngine (engine_config e) (m_syntax_rules e)
             (<[uri := analyzer]> (m_analyzer_map e)))
      end
  | Some analyzer => (Some analyzer, e)
  end.

(** HighlightEngine::removeDocument *)
Definition removeDocument (e : HighlightEngine) (uri : string) : HighlightEngine :=
  mkHighlightEngine (engine_config e) (m_syntax_rules e) (delete uri (m_analyzer_map e)).

End Registry.

Arguments NamedSyntaxRule {regex_type}.
Arguments DocumentAnalyzer {regex_type} D.
Arguments HighlightEngine {regex_type} D.

(** ** Sample grammars and texts *)

Module Samples.
Import Toy.
#[local] Existing Instance pattern_type.
#[local] Existing Instance engine.

Definition lit (a : string) : Atom :=
  match a with
  | String c _ => mkAtom (Lit c) false false
  | EmptyString => mkAtom AnyChar false false
  end.

Definition single_rule (re : list Pattern) (style goto : Z)
    (sub : option StateRule) (line_end : Z) : StateRule :=
  mkStateRule re [mkTokenRule (group_offset re 0) (Z.of_nat (captures_of (default [] (re !! 0%nat))))
                    (style :: replicate (captures_of (default [] (re !! 0%nat))) (style + 1))
                    goto sub]
    line_end.

Definition config : HighlightConfig := mkHighlightConfig true false.

(** State 0 with one rule for the word [if], style 7. *)
Definition keyword_grammar : SyntaxRule :=
  mkSyntaxRule {[ 0 := single_rule [[lit "i"; lit "f"]] 7 (-1) None (-1) ]} ∅.

(** Block comments: [/*] leads from state 0 to state 1, [*/] back; state 1
    is kept at the end of a line. *)
Definition comment_grammar : SyntaxRule :=
  mkSyntaxRule
    (<[ 0 := single_rule [[lit "/"; lit "*"]] 5 1 None (-1) ]>
       {[ 1 := single_rule [[lit "*"; lit "/"]] 5 0 None 1 ]})
    ∅.

(** One rule for a run of characters, style 1, whose sub-grammar gives the
    digits style 2. *)
Definition digits_rule : StateRule :=
  single_rule [[mkAtom Digit true false]] 2 (-1) None (-1).

Definition tiling_grammar : SyntaxRule :=
  mkSyntaxRule
    {[ 0 := single_rule [[mkAtom AnyChar true false]] 1 3 (Some digits_rule) (-1);
       3 := single_rule [[mkAtom AnyChar true false]] 1 (-1) None (-1) ]} ∅.



(** One rule for the letter [x], style 4. *)
Definition letter_grammar : SyntaxRule :=
  mkSyntaxRule {[ 0 := single_rule [[lit "x"]] 4 (-1) None (-1) ]} ∅.

Definition nl : string := String newline "".
Definition cr : string := String carriage_return "".

Definition first_line : TextLineInfo := mkTextLineInfo 0 kDefaultStateId 0.

(** The buffer of the text with the lines [x], [], [x], [x], and the edit
    that inserts a line break in front of it. *)
Definition four_lines : list DocumentLine :=
  parse_lines ("x" +:+ nl +:+ nl +:+ "x" +:+ nl +:+ "x").

Definition five_lines : list DocumentLine :=
  parse_lines (nl +:+ "x" +:+ nl +:+ nl +:+ "x" +:+ nl +:+ "x").

Definition at_start : TextRange :=
  mkTextRange (mkTextPosition 0 0 0) (mkTextPosition 0 0 0).

Definition fresh_analyzer (doc : list DocumentLine)
    : InternalDocumentAnalyzer (list DocumentLine) :=
  mkInternalDocumentAnalyzer doc [] (mkDocumentHighlight []).

(** The analyzer after the full analysis of [doc] and then of the edit. *)
Definition analyzed (line_char_count : list DocumentLine -> nat -> nat)
    (doc : list DocumentLine) : outcome (InternalDocumentAnalyzer (list DocumentLine)) :=
  analyzeHighlight (buffer := buffer line_char_count) letter_grammar config
    (fresh_analyzer doc).

Definition edited (line_char_count : list DocumentLine -> nat -> nat)
    (doc : list DocumentLine) (range : TextRange) (new_text : string)
    : outcome (InternalDocumentAnalyzer (list DocumentLine)) :=
  a ← analyzed line_char_count doc;
  analyzeHighlightIncremental (buffer := buffer line_char_count) letter_grammar config
    a range new_text.

(** What is compared of a span: line, columns and indices of its range. *)
Definition span_fields (sp : TokenSpan) : list nat :=
  [line (start (range sp)); column (start (range sp)); index (start (range sp));
   line (end_ (range sp)); column (end_ (range sp)); index (end_ (range sp))].

Definition highlight_fields (h : DocumentHighlight) : list (list (list nat)) :=
  map (fun l => map span_fields (spans l)) (lines h).

(** A document with its URI, and the part of a URI from its last dot. *)
Definition uri_of (d : string * list DocumentLine) : string := d.1.

Fixpoint extension_of (uri : string) : string :=
  match uri with
  | EmptyString => EmptyString
  | String a rest =>
      match extension_of rest with
      | EmptyString => if Ascii.eqb a dot then uri else EmptyString
      | ext => ext
      end
  end.

(** An engine that knows [letter_grammar] for the files [.x]. *)
Definition letter_rule : NamedSyntaxRule :=
  mkNamedSyntaxRule "letters" {[ ".x" ]} letter_grammar.

Definition letter_engine : HighlightEngine (string * list DocumentLine) :=
  mkHighlightEngine config [letter_rule] ∅.

(** The line numbers that the spans of a DocumentHighlight carry. *)
Definition line_numbers (h : DocumentHighlight) : list (list nat) :=
  map (fun l => map (fun sp => line (start (range sp))) (spans l)) (lines h).

End Samples.

(** * Properties *)

(** ** The span merger *)

Lemma mergeable_extend_end_r (a last span : TokenSpan) :
  mergeable a (extend_end last span) = mergeable a last.
Proof. reflexivity. Qed.

Lemma pushOrMergeSpan_nil (span : TokenSpan) :
  spans (pushOrMergeSpan (mkLineHighlight []) span) = [span].
Proof. reflexivity. Qed.

Lemma pushOrMergeSpan_snoc (init : list TokenSpan) (l span : TokenSpan) :
  spans (pushOrMergeSpan (mkLineHighlight (init ++ [l])) span) =
  if mergeable l span then init ++ [extend_end l span] else init ++ [l; span].
Proof.
  unfold pushOrMergeSpan; simpl.
  rewrite last_snoc.
  destruct (mergeable l span); simpl.
  - rewrite length_app; simpl.
    replace (pred (length init + 1)) with (length init + 0)%nat by lia.
    rewrite insert_app_r. reflexivity.
  - rewrite <- app_assoc. reflexivity.
Qed.

Lemma merge_closed_nil : merge_closed [].
Proof. intros i a b Ha. discriminate. Qed.

Lemma merge_closed_singleton (x : TokenSpan) : merge_closed [x].
Proof. intros [|i] a b Ha Hb; discriminate. Qed.

Lemma merge_closed_snoc (init : list TokenSpan) (l x : TokenSpan) :
  merge_closed (init ++ [l]) -> mergeable l x = false ->
  merge_closed (init ++ [l; x]).
Proof.
  intros Hc Hlx i a b Ha Hb.
  destruct (decide (S i < length (init ++ [l]))%nat) as [Hlt|Hge].
  - apply (Hc i a b).
    + replace (init ++ [l; x]) with ((init ++ [l]) ++ [x]) in Ha
        by (rewrite <- app_assoc; reflexivity).
      rewrite lookup_app_l in Ha by lia. exact Ha.
    + replace (init ++ [l; x]) with ((init ++ [l]) ++ [x]) in Hb
        by (rewrite <- app_assoc; reflexivity).
      rewrite lookup_app_l in Hb by lia. exact Hb.
  - rewrite length_app in Hge; simpl in Hge.
    assert (Hi : i = length init).
    { apply lookup_lt_Some in Hb. rewrite length_app in Hb; simpl in Hb. lia. }
    subst i.
    rewrite lookup_app_r in Ha by lia.
    rewrite lookup_app_r in Hb by lia.
    replace (length init - length init)%nat with 0%nat in Ha by lia.
    replace (S (length init) - length init)%nat with 1%nat in Hb by lia.
    simpl in Ha, Hb. congruence.
Qed.

Lemma merge_closed_replace_last (init : list TokenSpan) (l l' : TokenSpan) :
  merge_closed (init ++ [l]) ->
  (forall a, mergeable a l' = mergeable a l) ->
  merge_closed (init ++ [l']).
Proof.
  intros Hc Hsame i a b Ha Hb.
  assert (Hi : (S i < length init + 1)%nat).
  { apply lookup_lt_Some in Hb. rewrite length_app in Hb; simpl in Hb. lia. }
  rewrite lookup_app_l in Ha by lia.
  destruct (decide (S i < length init)%nat) as [Hlt|Hge].
  - rewrite lookup_app_l in Hb by lia.
    apply (Hc i a b); rewrite lookup_app_l by lia; assumption.
  - assert (S i = length init) by lia.
    rewrite lookup_app_r in Hb by lia.
    replace (S i - length init)%nat with 0%nat in Hb by lia.
    simpl in Hb. injection Hb as <-.
    rewrite Hsame.
    apply (Hc i a l).
    + rewrite lookup_app_l by lia. exact Ha.
    + rewrite lookup_app_r by lia.
      replace (S i - length init)%nat with 0%nat by lia. reflexivity.
Qed.

Lemma pushOrMergeSpan_preserves_merge_closed (hl : LineHighlight) (span : TokenSpan) :
  merge_closed (spans hl) -> merge_closed (spans (pushOrMergeSpan hl span)).
Proof.
  destruct hl as [ss]. simpl.
  destruct ss as [|s0 ss'] using rev_ind.
  - intros _. rewrite pushOrMergeSpan_nil. apply merge_closed_singleton.
  - clear IHss'. intros Hc. rewrite pushOrMergeSpan_snoc.
    destruct (mergeable s0 span) eqn:Hm.
    + eapply merge_closed_replace_last; [exact Hc|].
      intros a. apply mergeable_extend_end_r.
    + apply merge_closed_snoc; assumption.
Qed.

Lemma foldl_pushOrMergeSpan_merge_closed {A : Type} (f : A -> TokenSpan)
    (xs : list A) (hl : LineHighlight) :
  merge_closed (spans hl) ->
  merge_closed (spans (foldl (fun h x => pushOrMergeSpan h (f x)) hl xs)).
Proof.
  revert hl. induction xs as [|x xs IH]; intros hl Hc; simpl; [exact Hc|].
  apply IH. apply pushOrMergeSpan_preserves_merge_closed. exact Hc.
Qed.

(** C7. Merge closure and merge step of the span merger: whatever spans
    are inserted into a fresh LineHighlight through pushOrMergeSpan, no two
    neighbours of the result have the first end in the column where the
    second starts together with the same style; and a span that would form
    such a pair with the last one is not appended: the last span gets the
    end column and the end index of the new one and keeps its start, its
    end line, its style, its state, its goto_state, its matched_text and its
    inline style. *)
Theorem pushOrMergeSpan_merge_closure :
  (forall inserted : list TokenSpan,
     merge_closed (spans (foldl pushOrMergeSpan LineHighlight_default inserted)))
  /\ (forall (init : list TokenSpan) (last span : TokenSpan),
        spans (pushOrMergeSpan (mkLineHighlight (init ++ [last])) span) =
        if mergeable last span
        then init ++ [extend_end last span]
        else init ++ [last; span])
  /\ (forall last span : TokenSpan,
        column (end_ (range (extend_end last span))) = column (end_ (range span))
        /\ index (end_ (range (extend_end last span))) = index (end_ (range span))
        /\ line (end_ (range (extend_end last span))) = line (end_ (range last))
        /\ start (range (extend_end last span)) = start (range last)
        /\ style_id (extend_end last span) = style_id last
        /\ state (extend_end last span) = state last
        /\ goto_state (extend_end last span) = goto_state last
        /\ matched_text (extend_end last span) = matched_text last
        /\ inline_style (extend_end last span) = inline_style last).
Proof.
  split; [|split].
  - intros inserted.
    apply (foldl_pushOrMergeSpan_merge_closed (fun x => x)).
    apply merge_closed_nil.
  - apply pushOrMergeSpan_snoc.
  - intros last span. repeat split.
Qed.

(** ** The UTF-8 index *)

Lemma bytePosToCharPos_0 (s : string) : bytePosToCharPos s 0 = 0%nat.
Proof. destruct s; reflexivity. Qed.

Lemma bytePosToCharPos_mono (s : string) (b b' : nat) :
  (b <= b')%nat -> (bytePosToCharPos s b <= bytePosToCharPos s b')%nat.
Proof.
  revert b b'. induction s as [|a s IH]; intros b b' Hle.
  - destruct b, b'; simpl; lia.
  - destruct b as [|b]; [simpl; lia|].
    destruct b' as [|b']; [lia|]. simpl.
    specialize (IH b b'). lia.
Qed.

Lemma bytePosToCharPos_le_count (s : string) (b : nat) :
  (bytePosToCharPos s b <= countChars s)%nat.
Proof.
  revert b. induction s as [|a s IH]; intros b.
  - destruct b; simpl; lia.
  - destruct b as [|b]; simpl; [lia|]. specialize (IH b). lia.
Qed.

Lemma bytePosToCharPos_charPosToBytePos (s : string) (c : nat) :
  bytePosToCharPos s (charPosToBytePos s c) = Nat.min c (countChars s).
Proof.
  revert c. induction s as [|a s IH]; intros c; simpl.
  - lia.
  - unfold char_start. destruct (is_continuation a); simpl.
    + rewrite IH. unfold char_start. reflexivity.
    + destruct c as [|c]; simpl; [reflexivity|].
      rewrite IH. reflexivity.
Qed.

Lemma charPosToBytePos_le_length (s : string) (c : nat) :
  (charPosToBytePos s c <= String.length s)%nat.
Proof.
  revert c. induction s as [|a s IH]; intros c; simpl; [lia|].
  destruct (is_continuation a).
  - specialize (IH c). lia.
  - destruct c as [|c]; [lia|]. specialize (IH c). lia.
Qed.

Lemma charPosToBytePos_mono (s : string) (c c' : nat) :
  (c <= c')%nat -> (charPosToBytePos s c <= charPosToBytePos s c')%nat.
Proof.
  revert c c'. induction s as [|a s IH]; intros c c' Hle; simpl; [lia|].
  destruct (is_continuation a).
  - specialize (IH c c'). lia.
  - destruct c as [|c]; [lia|]. destruct c' as [|c']; [lia|].
    specialize (IH c c'). lia.
Qed.

Lemma char_starts_at_lt (s : string) (b e : nat) :
  char_starts_at s b -> (b < e)%nat ->
  (bytePosToCharPos s b < bytePosToCharPos s e)%nat.
Proof.
  unfold char_starts_at. intros Hb Hlt.
  pose proof (bytePosToCharPos_mono s (S b) e). lia.
Qed.

Lemma countChars_substring (s : string) (b n : nat) :
  countChars (String.substring b n s) =
  (bytePosToCharPos s (b + n) - bytePosToCharPos s b)%nat.
Proof.
  revert b n. induction s as [|a s IH]; intros b n.
  - destruct b, n; reflexivity.
  - destruct b as [|b].
    + destruct n as [|n]; simpl; [lia|].
      specialize (IH 0%nat n). simpl in IH.
      rewrite IH, bytePosToCharPos_0. lia.
    + simpl. rewrite IH. lia.
Qed.

Lemma countChars_utf8Substr (s : string) (start_char len_chars : nat) :
  (start_char + len_chars <= countChars s)%nat ->
  countChars (utf8Substr s start_char len_chars) = len_chars.
Proof.
  intros Hle. unfold utf8Substr.
  rewrite countChars_substring.
  pose proof (charPosToBytePos_mono s start_char (start_char + len_chars)).
  replace (charPosToBytePos s start_char
           + (charPosToBytePos s (start_char + len_chars) - charPosToBytePos s start_char))%nat
    with (charPosToBytePos s (start_char + len_chars)) by lia.
  rewrite !bytePosToCharPos_charPosToBytePos. lia.
Qed.

(** ** The line tokenizer *)

Section TokenizerFacts.
Context {regex_type : RegexType} {engine : RegexEngine}.
Variable m_rule : SyntaxRule.
Variable m_config : HighlightConfig.

Lemma bind_Done {A B : Type} (a : A) (f : A -> outcome B) :
  (Done a ≫= f) = f a.
Proof. reflexivity. Qed.

Lemma bind_Fail {A B : Type} (e : Failure) (f : A -> outcome B) :
  (Fail e ≫= f) = Fail e.
Proof. reflexivity. Qed.

Lemma rule_depth_pos (sr : StateRule) : (1 <= rule_depth sr)%nat.
Proof. destruct sr; simpl; lia. Qed.

Lemma rule_depth_sub (sr sub : StateRule) (r : TokenRule StateRule) (i : nat) :
  token_rules sr !! i = Some r -> sub_state_rule r = Some sub ->
  (rule_depth sub < rule_depth sr)%nat.
Proof.
  destruct sr as [re rs les]. simpl. revert i.
  induction rs as [|r0 rs IH]; intros i Hi Hsub; [discriminate|].
  destruct i as [|i]; simpl in Hi.
  - injection Hi as ->. simpl. rewrite Hsub. lia.
  - specialize (IH i Hi Hsub). simpl. lia.
Qed.

(** What findMatchedRuleAndGroup leaves alone. *)
Lemma findMatchedRuleAndGroup_from_fields (rules : list (TokenRule StateRule))
    (idx : Z) (region : OnigRegion) (text : string) (msb meb : nat)
    (result : MatchResult) :
  let r := findMatchedRuleAndGroup_from rules idx region text msb meb result in
  matched r = matched result /\ mr_start r = mr_start result
  /\ mr_length r = mr_length result
  /\ mr_matched_text r = mr_matched_text result
  /\ sub_spans r = sub_spans result.
Proof.
  revert idx. induction rules as [|tr rules IH]; intros idx; simpl.
  - repeat split.
  - destruct (_ && _); simpl; [repeat split|apply IH].
Qed.

(** A result of a search from the character [pos]: a match lies at or after
    [pos], has at least one character and ends inside the text. *)
Definition match_in_bounds (text : string) (pos : nat) (mr : MatchResult) : Prop :=
  matched mr = true ->
  (pos <= mr_start mr)%nat /\ (1 <= mr_length mr)%nat
  /\ (mr_start mr + mr_length mr <= countChars text)%nat
  /\ mr_matched_text mr = utf8Substr text (mr_start mr) (mr_length mr).

Lemma sub_loop_done (sub_match : nat -> outcome MatchResult) (style : Z)
    (sub_len : nat) :
  (forall p, (p < sub_len)%nat ->
     exists mr, sub_match p = Done mr /\ (matched mr = true -> (p <= mr_start mr)%nat)) ->
  forall (fuel sub_pos : nat) (acc : list TokenSpan),
    (sub_len - sub_pos <= fuel)%nat ->
    exists ss p', sub_loop m_rule m_config fuel sub_match style sub_len sub_pos acc = Done (ss, p').
Proof.
  intros Hsub fuel. induction fuel as [|fuel IH]; intros sub_pos acc Hfuel; simpl.
  - destruct (sub_pos <? sub_len)%nat eqn:Hlt; [apply Nat.ltb_lt in Hlt; lia|].
    eauto.
  - destruct (sub_pos <? sub_len)%nat eqn:Hlt; [|eauto].
    apply Nat.ltb_lt in Hlt.
    destruct (Hsub sub_pos Hlt) as (mr & -> & Hmr). rewrite bind_Done.
    destruct (matched mr) eqn:Hm; simpl; [|eauto].
    specialize (Hmr eq_refl).
    apply IH. destruct (mr_length mr =? 0)%nat eqn:Hz; [apply Nat.eqb_eq in Hz|apply Nat.eqb_neq in Hz]; lia.
Qed.

Section WithContract.
Hypothesis Hcontract : search_contract.

Lemma matchAtPositionRule_done (depth : nat) :
  forall (text : string) (pos : nat) (sr : StateRule),
    (rule_depth sr <= depth)%nat -> (pos <= countChars text)%nat ->
    exists mr, matchAtPositionRule m_rule m_config depth text pos sr = Done mr
               /\ match_in_bounds text pos mr.
Proof.
  induction depth as [|depth IH]; intros text pos sr Hdepth Hpos.
  - pose proof (rule_depth_pos sr). lia.
  - simpl.
    pose proof (Hcontract (regex sr) text (charPosToBytePos text pos)) as Hok.
    destruct (onig_search (regex sr) text (charPosToBytePos text pos))
      as [match_byte_pos region] eqn:Hsearch.
    unfold search_result_ok in Hok; simpl in Hok.
    destruct (0 <=? match_byte_pos) eqn:Hnonneg;
      [|eexists; split; [reflexivity|intros Hm; discriminate]].
    apply Z.leb_le in Hnonneg.
    destruct (size_of_int (region_end region 0) <=? Z.to_nat match_byte_pos)%nat eqn:Hwidth;
      [eexists; split; [reflexivity|intros Hm; discriminate]|].
    apply Nat.leb_gt in Hwidth.
    destruct (Hok Hnonneg Hwidth) as (Hfwd & Hend & Hchar).
    set (msb := Z.to_nat match_byte_pos) in *.
    set (meb := size_of_int (region_end region 0)) in *.
    pose proof (findMatchedRuleAndGroup_from_fields (token_rules sr) 0 region
                  text msb meb (initial_match text msb meb)) as Hfields.
    fold (findMatchedRuleAndGroup sr region text msb meb (initial_match text msb meb))
      in Hfields.
    set (result := findMatchedRuleAndGroup sr region text msb meb
                     (initial_match text msb meb)) in *.
    simpl in Hfields. destruct Hfields as (Hm & Hs & Hl & Ht & Hss).
    assert (Hbounds : match_in_bounds text pos result).
    { intros _. rewrite Hs, Hl, Ht.
      pose proof (bytePosToCharPos_mono text (charPosToBytePos text pos) msb Hfwd) as Hmono.
      rewrite bytePosToCharPos_charPosToBytePos in Hmono.
      pose proof (char_starts_at_lt text msb meb Hchar Hwidth).
      pose proof (bytePosToCharPos_le_count text meb).
      repeat split; lia. }
    destruct (winning_rule sr result) as [rule|] eqn:Hrule; [|eauto].
    destruct (sub_state_rule rule) as [sub_rule|] eqn:Hsubrule; [|eauto].
    assert (Hrule' : token_rules sr !! Z.to_nat (token_rule_idx result) = Some rule).
    { unfold winning_rule in Hrule. destruct (_ && _); [exact Hrule|discriminate]. }
    pose proof (rule_depth_sub sr sub_rule rule _ Hrule' Hsubrule) as Hd.
    destruct (sub_loop_done
                (fun p => matchAtPositionRule m_rule m_config depth (mr_matched_text result) p sub_rule)
                (mr_style result) (countChars (mr_matched_text result)))
      with (fuel := countChars (mr_matched_text result)) (sub_pos := 0%nat)
           (acc := @nil TokenSpan) as (ss & p' & ->).
    + intros p Hp.
      destruct (IH (mr_matched_text result) p sub_rule) as (mr & Hmr & Hb); [lia|lia|].
      exists mr. split; [exact Hmr|]. intros Hmatched. apply Hb. exact Hmatched.
    + lia.
    + rewrite bind_Done. eexists. split; [reflexivity|].
      intros _. simpl. apply Hbounds. exact Hm.
Qed.

Lemma matchAtPosition_done (text : string) (pos : nat) (st : Z) :
  (pos <= countChars text)%nat ->
  exists mr, matchAtPosition m_rule m_config text pos st = Done mr
             /\ match_in_bounds text pos mr.
Proof.
  intros Hpos. unfold matchAtPosition, containsRule, getStateRule.
  destruct (states m_rule !! st) as [sr|] eqn:Hst.
  - rewrite bool_decide_eq_true_2 by eauto. simpl.
    apply matchAtPositionRule_done; [lia|exact Hpos].
  - rewrite bool_decide_eq_false_2 by (intros [x Hx]; discriminate). simpl.
    eexists. split; [reflexivity|]. intros Hm. discriminate.
Qed.

(** One iteration of the scan loop moves the cursor forward, by one
    character when nothing matched and past the match otherwise. *)
Lemma scan_step_progress (text : string) (info : TextLineInfo) (s : ScanState) :
  (current_char_pos s < countChars text)%nat ->
  exists s', scan_step m_rule m_config text info s = Done s'
    /\ (current_char_pos s < current_char_pos s' <= countChars text)%nat
    /\ ((exists mr,
           matchAtPosition m_rule m_config text (current_char_pos s) (current_state s) = Done mr
           /\ matched mr = false
           /\ s' = mkScanState (S (current_char_pos s)) (current_state s) (scan_highlight s))
        \/ (exists mr,
              matchAtPosition m_rule m_config text (current_char_pos s) (current_state s) = Done mr
              /\ matched mr = true
              /\ (current_char_pos s <= mr_start mr)%nat
              /\ (1 <= mr_length mr)%nat
              /\ current_char_pos s' = (mr_start mr + mr_length mr)%nat)).
Proof.
  intros Hpos. unfold scan_step.
  destruct (matchAtPosition_done text (current_char_pos s) (current_state s))
    as (mr & Hmr & Hb); [lia|].
  rewrite Hmr, bind_Done.
  destruct (matched mr) eqn:Hm; simpl.
  - destruct (Hb Hm) as (H1 & H2 & H3 & _).
    eexists. split; [reflexivity|]. simpl. split; [lia|].
    right. exists mr. repeat split; auto.
  - eexists. split; [reflexivity|]. simpl. split; [lia|].
    left. exists mr. repeat split; auto.
Qed.

(** The scan loop needs exactly [k] iterations, and [k] is at most the
    number of characters that are left. *)
Lemma scan_loop_exact (text : string) (info : TextLineInfo) (m : nat) :
  forall s : ScanState,
    (countChars text - current_char_pos s <= m)%nat ->
    (current_char_pos s <= countChars text)%nat ->
    exists k s',
      (k <= countChars text - current_char_pos s)%nat
      /\ current_char_pos s' = countChars text
      /\ (forall fuel, (k <= fuel)%nat ->
            scan_loop m_rule m_config fuel text info (countChars text) s = Done s')
      /\ (forall fuel, (fuel < k)%nat ->
            scan_loop m_rule m_config fuel text info (countChars text) s = Fail OutOfFuel).
Proof.
  induction m as [|m IH]; intros s Hm Hle.
  - exists 0%nat, s. repeat split; [lia|lia| |intros; lia].
    intros fuel _. destruct fuel; simpl;
      (destruct (current_char_pos s <? countChars text)%nat eqn:Hlt;
       [apply Nat.ltb_lt in Hlt; lia|reflexivity]).
  - destruct (decide (current_char_pos s < countChars text)%nat) as [Hlt|Hge].
    + destruct (scan_step_progress text info s Hlt) as (s1 & Hstep & Hprog & _).
      destruct (IH s1) as (k & s' & Hk & Hend & Henough & Hshort); [lia|lia|].
      exists (S k), s'. repeat split; [lia|exact Hend| |].
      * intros fuel Hfuel. destruct fuel as [|fuel]; [lia|]. simpl.
        apply Nat.ltb_lt in Hlt. rewrite Hlt, Hstep, bind_Done.
        apply Henough. lia.
      * intros fuel Hfuel. apply Nat.ltb_lt in Hlt.
        destruct fuel as [|fuel]; simpl; rewrite Hlt; [reflexivity|].
        rewrite Hstep, bind_Done. apply Hshort. lia.
    + exists 0%nat, s. repeat split; [lia|lia| |intros; lia].
      intros fuel _. destruct fuel; simpl;
        (destruct (current_char_pos s <? countChars text)%nat eqn:Hlt;
         [apply Nat.ltb_lt in Hlt; lia|reflexivity]).
Qed.

(** C8. Progress of analyzeLine.  With an engine that keeps its contract:
    (1) every iteration of the scan loop returns and moves the cursor
    forward, by exactly one character when nothing matched (no match, a
    match of no width, a state without rule) and otherwise to the end of a
    match of at least one character that starts at or after the cursor;
    (2) a match whose region has [end <= start] is reported as no match;
    (3) the scan loop runs exactly [k] iterations for some [k] that is at
    most the number of characters of the line, hence at most that number
    plus the number of matches, and leaves the cursor at the end of the
    line;
    (4) analyzeLine never runs out of iterations, and more fuel does not
    change its result. *)
Theorem analyzeLine_terminates (text : string) (info : TextLineInfo) :
  (forall s : ScanState,
     (current_char_pos s < countChars text)%nat ->
     exists s', scan_step m_rule m_config text info s = Done s'
       /\ (current_char_pos s < current_char_pos s' <= countChars text)%nat
       /\ ((exists mr,
              matchAtPosition m_rule m_config text (current_char_pos s) (current_state s) = Done mr
              /\ matched mr = false
              /\ s' = mkScanState (S (current_char_pos s)) (current_state s) (scan_highlight s))
           \/ (exists mr,
                 matchAtPosition m_rule m_config text (current_char_pos s) (current_state s) = Done mr
                 /\ matched mr = true
                 /\ (current_char_pos s <= mr_start mr)%nat
                 /\ (1 <= mr_length mr)%nat
                 /\ current_char_pos s' = (mr_start mr + mr_length mr)%nat)))
  /\ (forall (depth pos : nat) (sr : StateRule),
        let r := onig_search (regex sr) text (charPosToBytePos text pos) in
        0 <= r.1 ->
        (size_of_int (region_end r.2 0) <= Z.to_nat r.1)%nat ->
        matchAtPositionRule m_rule m_config (S depth) text pos sr = Done MatchResult_default)
  /\ (exists (k : nat) (s' : ScanState),
        (k <= countChars text)%nat
        /\ current_char_pos s' = countChars text
        /\ (forall fuel, (k <= fuel)%nat ->
              scan_loop m_rule m_config fuel text info (countChars text)
                (mkScanState 0 (start_state info) LineHighlight_default) = Done s')
        /\ (forall fuel, (fuel < k)%nat ->
              scan_loop m_rule m_config fuel text info (countChars text)
                (mkScanState 0 (start_state info) LineHighlight_default) = Fail OutOfFuel))
  /\ (forall fuel, (countChars text <= fuel)%nat ->
        analyzeLine_fuel m_rule m_config fuel text info = analyzeLine m_rule m_config text info)
  /\ analyzeLine m_rule m_config text info <> Fail OutOfFuel.
Proof.
  destruct (scan_loop_exact text info (countChars text)
              (mkScanState 0 (start_state info) LineHighlight_default))
    as (k & s' & Hk & Hend & Henough & Hshort); [simpl; lia|simpl; lia|].
  simpl in Hk.
  split; [apply scan_step_progress|].
  split.
  { intros depth pos sr r Hnonneg Hwidth. subst r. simpl.
    destruct (onig_search (regex sr) text (charPosToBytePos text pos)) as [p region].
    simpl in Hnonneg, Hwidth.
    apply Z.leb_le in Hnonneg. rewrite Hnonneg.
    apply Nat.leb_le in Hwidth. rewrite Hwidth. reflexivity. }
  split; [exists k, s'; repeat split; [lia|exact Hend|exact Henough|exact Hshort]|].
  split.
  - intros fuel Hfuel. unfold analyzeLine, analyzeLine_fuel.
    destruct text as [|a text']; [reflexivity|].
    rewrite !Henough by lia. reflexivity.
  - unfold analyzeLine, analyzeLine_fuel.
    destruct text as [|a text']; [discriminate|].
    rewrite Henough by lia. rewrite bind_Done.
    unfold finish_line, getStateRule.
    destruct (states m_rule !! current_state s'); simpl; discriminate.
Qed.

End WithContract.
End TokenizerFacts.


(** ** The small engine keeps the contract *)

Section ToyEngine.
Import Toy.

Lemma class_matches_char_start (c : CharClass) (a : Ascii.ascii) :
  class_matches c a = true -> is_continuation a = false.
Proof.
  unfold class_matches. intros Hm. apply andb_prop in Hm as [Hm _].
  destruct (is_continuation a); [discriminate|reflexivity].
Qed.

Lemma count_class_le (c : CharClass) (s : string) :
  (count_class c s <= String.length s)%nat.
Proof.
  induction s as [|a s IH]; simpl; [lia|].
  destruct (class_matches c a); lia.
Qed.

Lemma string_drop_length (n : nat) (s : string) :
  String.length (string_drop n s) = (String.length s - n)%nat.
Proof.
  revert s. induction n as [|n IH]; intros s; simpl.
  - destruct s; simpl; lia.
  - destruct s as [|a s]; simpl; [reflexivity|]. apply IH.
Qed.

Lemma string_drop_add (n m : nat) (s : string) :
  string_drop m (string_drop n s) = string_drop (n + m) s.
Proof.
  revert s. induction n as [|n IH]; intros s; simpl.
  - destruct s; reflexivity.
  - destruct s as [|a s]; simpl; [destruct m; reflexivity|]. apply IH.
Qed.

Lemma match_atom_spec (t : Atom) (s : string) (n : nat) :
  match_atom t s = Some n ->
  (1 <= n <= String.length s)%nat
  /\ exists a s', s = String a s' /\ is_continuation a = false.
Proof.
  destruct s as [|a s]; simpl; [discriminate|].
  destruct (class_matches (atom_class t) a) eqn:Hc; [|discriminate].
  intros [= <-]. split.
  - pose proof (count_class_le (atom_class t) s). destruct (atom_plus t); lia.
  - exists a, s. split; [reflexivity|]. eapply class_matches_char_start; eauto.
Qed.

Lemma match_pattern_spec (p : Pattern) :
  forall (s : string) (off e : nat) (caps : list (Z * Z)),
    match_pattern p s off = Some (e, caps) ->
    (off <= e <= off + String.length s)%nat
    /\ ((off < e)%nat -> exists a s', s = String a s' /\ is_continuation a = false).
Proof.
  induction p as [|t p IH]; intros s off e caps; simpl.
  - intros [= <- <-]. split; [lia|intros; lia].
  - destruct (match_atom t s) as [n|] eqn:Ha; [|discriminate].
    destruct (match_pattern p (string_drop n s) (off + n)) as [[e' caps']|] eqn:Hp;
      [|discriminate].
    intros [= <- <-].
    destruct (match_atom_spec t s n Ha) as (Hn & Hfirst).
    destruct (IH _ _ _ _ Hp) as (He & _).
    rewrite string_drop_length in He.
    split; [lia|intros _; exact Hfirst].
Qed.

Lemma try_alternatives_spec (re : list Pattern) :
  forall (j : nat) (s : string) (off w e : nat) (caps : list (Z * Z)),
    try_alternatives re j s off = Some (w, e, caps) ->
    (off < e <= off + String.length s)%nat
    /\ exists a s', s = String a s' /\ is_continuation a = false.
Proof.
  induction re as [|p re IH]; intros j s off w e caps; simpl; [discriminate|].
  destruct (match_pattern p s off) as [[e' caps']|] eqn:Hp; [|apply IH].
  destruct (off <? e')%nat eqn:Hlt; [|apply IH].
  intros [= <- <- <-]. apply Nat.ltb_lt in Hlt.
  destruct (match_pattern_spec p s off e' caps' Hp) as (He & Hfirst).
  split; [lia|apply Hfirst; exact Hlt].
Qed.

Lemma search_from_spec (re : list Pattern) (s : string) :
  forall (off pos w e : nat) (caps : list (Z * Z)),
    search_from re s off = Some (pos, (w, e, caps)) ->
    (off <= pos)%nat /\ (pos < e <= off + String.length s)%nat
    /\ exists a s', string_drop (pos - off) s = String a s' /\ is_continuation a = false.
Proof.
  induction s as [|a0 s IH]; intros off pos w e caps; simpl; [discriminate|].
  destruct (try_alternatives re 0 (String a0 s) off) as [[[w' e'] caps']|] eqn:Ht.
  - intros [= <- <- <- <-].
    destruct (try_alternatives_spec re 0 _ _ _ _ _ Ht) as (He & Hfirst).
    simpl in He. split; [lia|]. split; [lia|].
    replace (off - off)%nat with 0%nat by lia. exact Hfirst.
  - intros Hs. destruct (IH _ _ _ _ _ Hs) as (Hle & He & a & s' & Hdrop & Hc).
    split; [lia|]. split; [lia|].
    exists a, s'. split; [|exact Hc].
    replace (pos - off)%nat with (S (pos - S off)) by lia. simpl. exact Hdrop.
Qed.

Lemma char_starts_at_drop (text : string) :
  forall (pos : nat) (a : Ascii.ascii) (rest : string),
    string_drop pos text = String a rest -> is_continuation a = false ->
    char_starts_at text pos.
Proof.
  unfold char_starts_at.
  induction text as [|a0 text IH]; intros pos a rest Hdrop Hc.
  - destruct pos; discriminate.
  - destruct pos as [|pos].
    + simpl in Hdrop. injection Hdrop as -> ->.
      simpl. unfold char_start. rewrite Hc, bytePosToCharPos_0. reflexivity.
    + simpl in Hdrop.
      change (bytePosToCharPos (String a0 text) (S (S pos)))
        with (char_start a0 + bytePosToCharPos text (S pos))%nat.
      rewrite (IH pos a rest Hdrop Hc). simpl. lia.
Qed.

Lemma size_of_int_of_nat_le (n : nat) : (size_of_int (Z.of_nat n) <= n)%nat.
Proof.
  unfold size_of_int.
  assert (Z.of_nat n mod 2 ^ 64 <= Z.of_nat n).
  { apply Z.mod_le; lia. }
  pose proof (Z.mod_pos_bound (Z.of_nat n) (2 ^ 64) ltac:(lia)). lia.
Qed.

Lemma toy_search_contract : @search_contract _ engine.
Proof.
  intros re text start. unfold search_result_ok. simpl. unfold search.
  destruct (search_from re (string_drop start text) start)
    as [[pos [[w e] caps]]|] eqn:Hs; simpl.
  - intros _ Hwidth.
    destruct (search_from_spec re _ _ _ _ _ _ Hs) as (Hle & He & a & s' & Hdrop & Hc).
    rewrite string_drop_length in He.
    rewrite string_drop_add in Hdrop.
    replace (start + (pos - start))%nat with pos in Hdrop by lia.
    unfold region_end, region_at in *. simpl in *.
    rewrite Nat2Z.id in *.
    pose proof (size_of_int_of_nat_le e).
    split; [lia|]. split; [|eapply char_starts_at_drop; eauto].
    assert (String.length (string_drop pos text) = S (String.length s'))
      by (rewrite Hdrop; reflexivity).
    rewrite string_drop_length in *. lia.
  - unfold ONIG_MISMATCH. intros; lia.
Qed.

End ToyEngine.

Lemma analyzeLine_terminates_witness :
  @search_contract _ Toy.engine
  /\ analyzeLine (engine := Toy.engine) Samples.keyword_grammar Samples.config "if x"
       Samples.first_line <> Fail OutOfFuel.
Proof.
  split; [exact toy_search_contract|].
  apply (analyzeLine_terminates (engine := Toy.engine) Samples.keyword_grammar
           Samples.config toy_search_contract "if x" Samples.first_line).
Defined.

(** ** Span emission *)

Section EmissionFacts.
Context {regex_type : RegexType} {engine : RegexEngine}.
Variable m_rule : SyntaxRule.
Variable m_config : HighlightConfig.

Lemma foldl_push_map {A : Type} (f : A -> TokenSpan) (xs : list A) (hl : LineHighlight) :
  foldl (fun h x => pushOrMergeSpan h (f x)) hl xs = foldl pushOrMergeSpan hl (map f xs).
Proof.
  revert hl. induction xs as [|x xs IH]; intros hl; simpl; [reflexivity|apply IH].
Qed.

(** addLineHighlightResult hands the emitted spans to the merger, in order. *)
Lemma addLineHighlightResult_emitted (hl : LineHighlight) (info : TextLineInfo)
    (st : Z) (mr : MatchResult) :
  addLineHighlightResult m_rule m_config hl info st mr =
  foldl pushOrMergeSpan hl (emitted_spans m_rule m_config info st mr).
Proof.
  unfold addLineHighlightResult, emitted_spans.
  destruct (sub_spans mr) as [|s ss]; [destruct (capture_groups mr) as [|c cs]|].
  - reflexivity.
  - apply (foldl_push_map _ (c :: cs)).
  - apply (foldl_push_map _ (s :: ss)).
Qed.

(** The rule that findMatchedRuleAndGroup records. *)
Lemma findMatchedRuleAndGroup_from_winner (rules : list (TokenRule StateRule))
    (region : OnigRegion) (text : string) (msb meb : nat) (result : MatchResult) :
  forall idx0 : Z,
    let r := findMatchedRuleAndGroup_from rules idx0 region text msb meb result in
    r = result
    \/ exists (i : nat) (rule : TokenRule StateRule),
         rules !! i = Some rule
         /\ token_rule_idx r = idx0 + Z.of_nat i
         /\ mr_style r = getGroupStyleId rule 0
         /\ mr_goto_state r = tr_goto_state rule
         /\ capture_groups r =
            capture_groups result ++ collect_capture_groups rule region text msb meb.
Proof.
  induction rules as [|tr rules IH]; intros idx0; simpl; [left; reflexivity|].
  destruct (_ && _).
  - right. exists 0%nat, tr. simpl. repeat split. lia.
  - destruct (IH (idx0 + 1)) as [Hsame|(i & rule & Hi & Hidx & Hrest)].
    + left. exact Hsame.
    + right. exists (S i), rule. simpl. split; [exact Hi|].
      split; [lia|exact Hrest].
Qed.

Lemma winning_rule_spec (sr : StateRule) (region : OnigRegion) (text : string)
    (msb meb : nat) (rule : TokenRule StateRule) :
  let result := findMatchedRuleAndGroup sr region text msb meb
                  (initial_match text msb meb) in
  winning_rule sr result = Some rule ->
  mr_style result = getGroupStyleId rule 0
  /\ mr_goto_state result = tr_goto_state rule
  /\ capture_groups result = collect_capture_groups rule region text msb meb.
Proof.
  intros result Hw. subst result. unfold winning_rule in Hw.
  unfold findMatchedRuleAndGroup in *.
  destruct (findMatchedRuleAndGroup_from_winner (token_rules sr) region text msb meb
              (initial_match text msb meb) 0) as [Hsame|(i & rule' & Hi & Hidx & Hst & Hgo & Hcg)].
  - rewrite Hsame in Hw. simpl in Hw. discriminate.
  - destruct (_ && _); [|discriminate].
    rewrite Hidx in Hw. rewrite Z.add_0_l, Nat2Z.id in Hw.
    assert (rule' = rule) by congruence. subst rule'.
    auto.
Qed.

Lemma no_winner_defaults (sr : StateRule) (region : OnigRegion) (text : string)
    (msb meb : nat) :
  let result := findMatchedRuleAndGroup sr region text msb meb
                  (initial_match text msb meb) in
  winning_rule sr result = None ->
  result = initial_match text msb meb.
Proof.
  intros result Hw. subst result. unfold winning_rule in Hw.
  unfold findMatchedRuleAndGroup in *.
  destruct (findMatchedRuleAndGroup_from_winner (token_rules sr) region text msb meb
              (initial_match text msb meb) 0) as [Hsame|(i & rule' & Hi & Hidx & Hst & Hgo & Hcg)];
    [exact Hsame|].
  pose proof (findMatchedRuleAndGroup_from_fields (token_rules sr) 0 region text msb meb
                (initial_match text msb meb)) as (Hm & _).
  rewrite Hm, Hidx in Hw. simpl in Hw.
  replace (0 <=? 0 + Z.of_nat i) with true in Hw by (symmetry; apply Z.leb_le; lia).
  rewrite Z.add_0_l, Nat2Z.id, Hi in Hw. discriminate.
Qed.

(** An invariant of the loop of the sub-grammar descent. *)
Lemma sub_loop_inv (P : nat -> list TokenSpan -> Prop)
    (sub_match : nat -> outcome MatchResult) (style : Z) (sub_len : nat) :
  (forall p acc mr,
     P p acc -> (p < sub_len)%nat -> sub_match p = Done mr -> matched mr = true ->
     P (if (mr_length mr =? 0)%nat then S (mr_start mr + mr_length mr)
        else (mr_start mr + mr_length mr)%nat)
       (acc ++ gap_before m_rule m_config style p mr ++ sub_match_content m_rule m_config mr)) ->
  forall (fuel sub_pos : nat) (acc ss : list TokenSpan) (p' : nat),
    P sub_pos acc ->
    sub_loop m_rule m_config fuel sub_match style sub_len sub_pos acc = Done (ss, p') ->
    P p' ss
    /\ ((sub_len <= p')%nat
        \/ exists mr, sub_match p' = Done mr /\ matched mr = false).
Proof.
  intros Hstep fuel. induction fuel as [|fuel IH]; intros sub_pos acc ss p' HP; simpl.
  - destruct (sub_pos <? sub_len)%nat eqn:Hlt; [discriminate|].
    intros [= <- <-]. apply Nat.ltb_ge in Hlt. auto.
  - destruct (sub_pos <? sub_len)%nat eqn:Hlt.
    + apply Nat.ltb_lt in Hlt.
      destruct (sub_match sub_pos) as [mr|e] eqn:Hmr; [|discriminate].
      rewrite bind_Done.
      destruct (matched mr) eqn:Hm; simpl.
      * apply IH. apply Hstep; assumption.
      * intros [= <- <-]. split; [exact HP|]. right. eauto.
    + intros [= <- <-]. apply Nat.ltb_ge in Hlt. auto.
Qed.

(** The shape of a successful match against a state rule. *)
Lemma matchAtPositionRule_inv (depth : nat) (text : string) (pos : nat)
    (sr : StateRule) (mr : MatchResult) :
  matchAtPositionRule m_rule m_config (S depth) text pos sr = Done mr ->
  matched mr = true ->
  exists (region : OnigRegion) (msb meb : nat),
    let result := findMatchedRuleAndGroup sr region text msb meb
                    (initial_match text msb meb) in
    (exists z, onig_search (regex sr) text (charPosToBytePos text pos) = (z, region)
               /\ 0 <= z /\ msb = Z.to_nat z)
    /\ meb = size_of_int (region_end region 0) /\ (msb < meb)%nat
    /\ ((exists rule sub_rule ss p',
           winning_rule sr result = Some rule
           /\ sub_state_rule rule = Some sub_rule
           /\ sub_loop m_rule m_config (countChars (mr_matched_text result))
                (fun p => matchAtPositionRule m_rule m_config depth
                            (mr_matched_text result) p sub_rule)
                (mr_style result) (countChars (mr_matched_text result)) 0 [] = Done (ss, p')
           /\ mr = set_sub_spans
                     (ss ++ tail_gap m_rule m_config (mr_style result) p'
                              (countChars (mr_matched_text result)))
                     result)
        \/ (mr = result
            /\ forall rule, winning_rule sr result = Some rule ->
                            sub_state_rule rule = None)).
Proof.
  simpl.
  destruct (onig_search (regex sr) text (charPosToBytePos text pos))
    as [z region] eqn:Hsearch.
  destruct (0 <=? z) eqn:Hz; [|intros [= <-]; discriminate].
  apply Z.leb_le in Hz.
  destruct (size_of_int (region_end region 0) <=? Z.to_nat z)%nat eqn:Hw;
    [intros [= <-]; discriminate|].
  apply Nat.leb_gt in Hw.
  intros Hres Hm.
  exists region, (Z.to_nat z), (size_of_int (region_end region 0)).
  cbv zeta. split; [eauto|]. split; [reflexivity|]. split; [exact Hw|].
  set (result := findMatchedRuleAndGroup sr region text _ _ _) in *.
  destruct (winning_rule sr result) as [rule|] eqn:Hrule.
  - destruct (sub_state_rule rule) as [sub_rule|] eqn:Hsub.
    + destruct (sub_loop _ _ _ _ _ _ _ _) as [[ss p']|e] eqn:Hloop; [|discriminate].
      rewrite bind_Done in Hres. injection Hres as <-.
      left. exists rule, sub_rule, ss, p'. auto.
    + injection Hres as <-. right. split; [reflexivity|].
      intros rule' [= <-]. exact Hsub.
  - injection Hres as <-. right. split; [reflexivity|]. intros rule' Hr. discriminate.
Qed.

Lemma matchAtPositionRule_unmatched (depth : nat) (text : string) (pos : nat)
    (sr : StateRule) (mr : MatchResult) :
  matchAtPositionRule m_rule m_config depth text pos sr = Done mr ->
  matched mr = false -> mr = MatchResult_default.
Proof.
  destruct depth as [|depth]; simpl; [discriminate|].
  destruct (onig_search (regex sr) text (charPosToBytePos text pos)) as [z region].
  destruct (0 <=? z); [|intros [= <-]; reflexivity].
  destruct (_ <=? _)%nat; [intros [= <-]; reflexivity|].
  pose proof (findMatchedRuleAndGroup_from_fields (token_rules sr) 0 region text
                (Z.to_nat z) (size_of_int (region_end region 0))
                (initial_match text (Z.to_nat z) (size_of_int (region_end region 0))))
    as (Hm & _).
  fold (findMatchedRuleAndGroup sr region text (Z.to_nat z)
          (size_of_int (region_end region 0))
          (initial_match text (Z.to_nat z) (size_of_int (region_end region 0)))) in Hm.
  set (result := findMatchedRuleAndGroup sr region text _ _ _) in *.
  simpl in Hm.
  destruct (winning_rule sr result) as [rule|].
  - destruct (sub_state_rule rule) as [sub_rule|].
    + destruct (sub_loop _ _ _ _ _ _ _ _) as [[ss p']|e]; [|discriminate].
      rewrite bind_Done. intros [= <-]. simpl. congruence.
    + intros [= <-]. congruence.
  - intros [= <-]. congruence.
Qed.

Lemma Forall_sub_match_content (P : TokenSpan -> Prop) (mr : MatchResult) :
  (forall a b st, P (local_span m_rule m_config a b st)) ->
  (forall d sp, P sp -> P (shift_columns d sp)) ->
  Forall P (sub_spans mr) ->
  Forall P (sub_match_content m_rule m_config mr).
Proof.
  intros Hlocal Hshift Hsub. unfold sub_match_content.
  destruct (sub_spans mr) as [|s ss].
  - destruct (capture_groups mr) as [|c cs].
    + repeat constructor. apply Hlocal.
    + apply Forall_forall. intros x Hx. apply list_elem_of_In, in_map_iff in Hx.
      destruct Hx as (g & <- & _). apply Hlocal.
  - apply Forall_forall. intros x Hx. apply list_elem_of_In, in_map_iff in Hx.
    destruct Hx as (sp & <- & Hin). apply Hshift.
    rewrite Forall_forall in Hsub. apply Hsub. apply list_elem_of_In. exact Hin.
Qed.

(** A property of the spans built inside a descent, kept by the shift to
    the start of the sub-match, holds for all sub-spans of a match. *)
Lemma matchAtPositionRule_sub_spans (P : TokenSpan -> Prop) :
  (forall a b st, P (local_span m_rule m_config a b st)) ->
  (forall d sp, P sp -> P (shift_columns d sp)) ->
  forall (depth : nat) (text : string) (pos : nat) (sr : StateRule) (mr : MatchResult),
    matchAtPositionRule m_rule m_config depth text pos sr = Done mr ->
    Forall P (sub_spans mr).
Proof.
  intros Hlocal Hshift depth.
  induction depth as [|depth IH]; intros text pos sr mr Hres; [discriminate|].
  destruct (matched mr) eqn:Hm.
  - destruct (matchAtPositionRule_inv depth text pos sr mr Hres Hm)
      as (region & msb & meb & _ & _ & _ & Hcases).
    cbv zeta in Hcases.
    destruct Hcases as [(rule & sub_rule & ss & p' & _ & _ & Hloop & ->)|(-> & _)].
    + simpl. apply Forall_app. split.
      * refine (proj1 (sub_loop_inv (fun _ acc => Forall P acc) _ _ _ _ _ _ _ _ _
                         (Forall_nil_2 P) Hloop)).
        intros p acc mr' Hacc _ Hmr' _. cbv beta.
        rewrite !Forall_app. split; [exact Hacc|]. split.
        -- unfold gap_before. destruct (_ <? _)%nat; repeat constructor. apply Hlocal.
        -- apply Forall_sub_match_content; auto.
           eapply IH; eauto.
      * unfold tail_gap. destruct (_ <? _)%nat; repeat constructor. apply Hlocal.
    + pose proof (findMatchedRuleAndGroup_from_fields (token_rules sr) 0 region text
                    msb meb (initial_match text msb meb)) as (_ & _ & _ & _ & Hss).
      unfold findMatchedRuleAndGroup. rewrite Hss. constructor.
  - rewrite (matchAtPositionRule_unmatched _ _ _ _ _ Hres Hm). constructor.
Qed.

(** The transition recorded in a match is the one of the winning rule. *)
Lemma matchAtPositionRule_goto (depth : nat) (text : string) (pos : nat)
    (sr : StateRule) (mr : MatchResult) (rule : TokenRule StateRule) :
  matchAtPositionRule m_rule m_config depth text pos sr = Done mr ->
  winning_rule sr mr = Some rule ->
  mr_goto_state mr = tr_goto_state rule /\ mr_style mr = getGroupStyleId rule 0.
Proof.
  intros Hres Hw.
  assert (Hm : matched mr = true).
  { unfold winning_rule in Hw. destruct (matched mr); [reflexivity|discriminate]. }
  destruct depth as [|depth]; [discriminate|].
  destruct (matchAtPositionRule_inv depth text pos sr mr Hres Hm)
    as (region & msb & meb & _ & _ & _ & Hcases).
  cbv zeta in Hcases.
  destruct Hcases as [(rule' & sub_rule & ss & p' & Hw' & _ & _ & ->)|(-> & _)].
  - change (winning_rule sr (set_sub_spans _ ?r)) with (winning_rule sr r) in Hw.
    destruct (winning_rule_spec sr region text msb meb rule Hw) as (Hs & Hg & _).
    simpl. auto.
  - destruct (winning_rule_spec sr region text msb meb rule Hw) as (Hs & Hg & _). auto.
Qed.

(** C10. The transition of a match and the spans emitted for it.  For a
    match found by matchAtPosition in the state [st]:
    (1) when the match is emitted through its sub-spans, every span handed
    to the merger has the default goto_state (-1);
    (2) when it is emitted as a whole or through its capture groups, every
    span handed over has the goto_state of the match;
    (3) the goto_state of the match is the one of the winning token rule;
    (4) whichever way the spans are emitted, the scan loop goes to that
    goto_state when it is not negative, and stays in its state otherwise. *)
Theorem sub_spans_leave_goto_state_default (text : string) (info : TextLineInfo)
    (s : ScanState) (mr : MatchResult) :
  matchAtPosition m_rule m_config text (current_char_pos s) (current_state s) = Done mr ->
  matched mr = true ->
  (sub_spans mr <> [] ->
   Forall (fun sp => goto_state sp = kNoState)
          (emitted_spans m_rule m_config info (current_state s) mr))
  /\ (sub_spans mr = [] ->
      Forall (fun sp => goto_state sp = mr_goto_state mr)
             (emitted_spans m_rule m_config info (current_state s) mr))
  /\ (forall sr rule,
        states m_rule !! current_state s = Some sr ->
        winning_rule sr mr = Some rule ->
        mr_goto_state mr = tr_goto_state rule)
  /\ scan_step m_rule m_config text info s =
     Done (mkScanState (mr_start mr + mr_length mr)
             (if 0 <=? mr_goto_state mr then mr_goto_state mr else current_state s)
             (foldl pushOrMergeSpan (scan_highlight s)
                (emitted_spans m_rule m_config info (current_state s) mr))).
Proof.
  intros Hres Hm.
  assert (Hrule : exists sr, states m_rule !! current_state s = Some sr
            /\ matchAtPositionRule m_rule m_config (rule_depth sr) text
                 (current_char_pos s) sr = Done mr).
  { unfold matchAtPosition, containsRule, getStateRule in Hres.
    destruct (states m_rule !! current_state s) as [sr|] eqn:Hst.
    - rewrite bool_decide_eq_true_2 in Hres by eauto. simpl in Hres. eauto.
    - rewrite bool_decide_eq_false_2 in Hres by (intros [x Hx]; discriminate).
      simpl in Hres. injection Hres as <-. discriminate. }
  destruct Hrule as (sr & Hst & Hrule).
  split; [|split; [|split]].
  - intros Hne. unfold emitted_spans.
    destruct (sub_spans mr) as [|sp sps] eqn:Hss; [congruence|].
    apply Forall_forall. intros x Hx. apply list_elem_of_In, in_map_iff in Hx.
    destruct Hx as (sub & <- & Hin). simpl.
    pose proof (matchAtPositionRule_sub_spans (fun sp => goto_state sp = kNoState)
                  ltac:(reflexivity) ltac:(intros d sp' Hsp; exact Hsp)
                  _ _ _ _ _ Hrule) as Hall.
    rewrite Hss, Forall_forall in Hall. apply Hall, list_elem_of_In, Hin.
  - intros Hnil. unfold emitted_spans. rewrite Hnil.
    destruct (capture_groups mr) as [|c cs].
    + repeat constructor.
    + apply Forall_forall. intros x Hx. apply list_elem_of_In, in_map_iff in Hx.
      destruct Hx as (g & <- & _). reflexivity.
  - intros sr' rule Hst' Hw. assert (sr' = sr) by congruence. subst sr'.
    eapply matchAtPositionRule_goto; eauto.
  - unfold scan_step. rewrite Hres, bind_Done, Hm. simpl.
    rewrite addLineHighlightResult_emitted. reflexivity.
Qed.

End EmissionFacts.

Lemma sub_spans_leave_goto_state_default_witness :
  exists mr : MatchResult,
    matchAtPosition (engine := Toy.engine) Samples.tiling_grammar Samples.config
      "abc123def" 0 0 = Done mr
    /\ matched mr = true
    /\ sub_spans mr <> []
    /\ mr_goto_state mr = 3
    /\ Forall (fun sp => goto_state sp = kNoState)
         (emitted_spans (regex_type := Toy.pattern_type) Samples.tiling_grammar Samples.config
            Samples.first_line 0 mr)
    /\ current_state <$> (match scan_step (engine := Toy.engine) Samples.tiling_grammar
                                  Samples.config "abc123def" Samples.first_line
                                  (mkScanState 0 0 LineHighlight_default) with
                          | Done s' => Some s'
                          | Fail _ => None
                          end) = Some 3.
Proof.
  eexists.
  split; [vm_compute; reflexivity|].
  split; [reflexivity|].
  split; [discriminate|].
  split; [reflexivity|].
  pose proof (sub_spans_leave_goto_state_default (engine := Toy.engine)
                Samples.tiling_grammar Samples.config "abc123def" Samples.first_line
                (mkScanState 0 0 LineHighlight_default) _
                ltac:(vm_compute; reflexivity) eq_refl) as (Hsub & _ & _ & Hstep).
  split.
  - apply Hsub. discriminate.
  - rewrite Hstep. reflexivity.
Defined.

(** ** Tiling of a match by the spans of its sub-grammar *)

Lemma tiles_app (a b : list TokenSpan) (x y z : nat) :
  tiles a x y -> tiles b y z -> tiles (a ++ b) x z.
Proof.
  revert x. induction a as [|s a IH]; intros x; simpl.
  - intros ->. auto.
  - intros (Hs & Hlt & Hrest) Hb. repeat split; auto.
Qed.

Lemma tiles_le (ss : list TokenSpan) (x y : nat) : tiles ss x y -> (x <= y)%nat.
Proof.
  revert x. induction ss as [|s ss IH]; intros x; simpl; [lia|].
  intros (Hs & Hlt & Hrest). apply IH in Hrest. lia.
Qed.

Lemma tiles_map (f : TokenSpan -> TokenSpan) (d : nat) :
  (forall s, column (start (range (f s))) = (column (start (range s)) + d)%nat
             /\ column (end_ (range (f s))) = (column (end_ (range s)) + d)%nat) ->
  forall (ss : list TokenSpan) (x y : nat),
    tiles ss x y -> tiles (map f ss) (x + d) (y + d).
Proof.
  intros Hf ss. induction ss as [|s ss IH]; intros x y; simpl.
  - intros ->. reflexivity.
  - intros (Hs & Hlt & Hrest). destruct (Hf s) as (Hfs & Hfe).
    rewrite Hfs, Hfe. repeat split; [lia|lia|]. apply IH. exact Hrest.
Qed.

Section TilingFacts.
Context {regex_type : RegexType} {engine : RegexEngine}.
Variable m_rule : SyntaxRule.
Variable m_config : HighlightConfig.
Hypothesis Hcontract : search_contract.

Lemma collect_capture_groups_none (rule : TokenRule StateRule) (region : OnigRegion)
    (text : string) (msb meb : nat) :
  group_count rule <= 0 ->
  collect_capture_groups rule region text msb meb = [].
Proof.
  intros Hle. unfold collect_capture_groups, seqZ.
  replace (Z.to_nat (group_count rule)) with 0%nat by lia. reflexivity.
Qed.

Lemma capture_free_rule (sr : StateRule) (i : nat) (rule : TokenRule StateRule) :
  capture_free sr = true -> token_rules sr !! i = Some rule ->
  group_count rule <= 0
  /\ forall sub, sub_state_rule rule = Some sub -> capture_free sub = true.
Proof.
  destruct sr as [re rs les]. simpl. intros Hall Hi.
  rewrite forallb_forall in Hall.
  specialize (Hall rule). 
  assert (Hin : In rule rs).
  { apply list_elem_of_In. eapply list_elem_of_lookup_2. exact Hi. }
  apply Hall, andb_prop in Hin as [Hg Hs].
  split; [apply Z.leb_le; exact Hg|].
  intros sub Hsub. rewrite Hsub in Hs. exact Hs.
Qed.

Lemma winning_rule_lookup (sr : StateRule) (mr : MatchResult) (rule : TokenRule StateRule) :
  winning_rule sr mr = Some rule ->
  token_rules sr !! Z.to_nat (token_rule_idx mr) = Some rule.
Proof.
  unfold winning_rule. destruct (_ && _); [auto|discriminate].
Qed.

(** A match found from [pos] lies inside the text, at or after [pos]. *)
Lemma matchAtPositionRule_bounds (depth : nat) (text : string) (pos : nat)
    (sr : StateRule) (mr : MatchResult) :
  matchAtPositionRule m_rule m_config depth text pos sr = Done mr ->
  (pos <= countChars text)%nat ->
  match_in_bounds text pos mr.
Proof.
  intros Hres Hpos Hm.
  destruct depth as [|depth]; [discriminate|].
  destruct (matchAtPositionRule_inv m_rule m_config depth text pos sr mr Hres Hm)
    as (region & msb & meb & (z & Hsearch & Hz & ->) & -> & Hwidth & Hcases).
  cbv zeta in Hcases.
  pose proof (Hcontract (regex sr) text (charPosToBytePos text pos)) as Hok.
  rewrite Hsearch in Hok. unfold search_result_ok in Hok. simpl in Hok.
  destruct (Hok Hz Hwidth) as (Hfwd & Hend & Hchar).
  pose proof (findMatchedRuleAndGroup_from_fields (token_rules sr) 0 region text
                (Z.to_nat z) (size_of_int (region_end region 0))
                (initial_match text (Z.to_nat z) (size_of_int (region_end region 0))))
    as (_ & Hs & Hl & Ht & _).
  fold (findMatchedRuleAndGroup sr region text (Z.to_nat z)
          (size_of_int (region_end region 0))
          (initial_match text (Z.to_nat z) (size_of_int (region_end region 0))))
    in Hs, Hl, Ht.
  simpl in Hs, Hl, Ht.
  pose proof (bytePosToCharPos_mono text (charPosToBytePos text pos) (Z.to_nat z) Hfwd) as Hmono.
  rewrite bytePosToCharPos_charPosToBytePos in Hmono.
  pose proof (char_starts_at_lt text _ _ Hchar Hwidth).
  pose proof (bytePosToCharPos_le_count text (size_of_int (region_end region 0))).
  destruct Hcases as [(rule & sub_rule & ss & p' & _ & _ & _ & ->)|(-> & _)]; simpl;
    rewrite ?Hs, ?Hl, ?Ht; repeat split; lia.
Qed.

(** What a sub-match of a sub-grammar without capture groups contributes
    tiles the sub-match. *)
Lemma sub_match_content_tiles (mr : MatchResult) :
  capture_groups mr = [] ->
  (sub_spans mr = [] \/ tiles (sub_spans mr) 0 (mr_length mr)) ->
  (1 <= mr_length mr)%nat ->
  tiles (sub_match_content m_rule m_config mr)
        (mr_start mr) (mr_start mr + mr_length mr).
Proof.
  intros Hcg Hss Hlen. unfold sub_match_content.
  destruct (sub_spans mr) as [|sp sps] eqn:Hsub.
  - rewrite Hcg. simpl. repeat split. lia.
  - destruct Hss as [Hnil|Htiles]; [discriminate|].
    replace (mr_start mr) with (0 + mr_start mr)%nat at 2 by lia.
    replace (mr_start mr + mr_length mr)%nat with (mr_length mr + mr_start mr)%nat by lia.
    apply tiles_map; [|exact Htiles].
    intros s0. split; reflexivity.
Qed.

(** Without capture groups in the sub-grammar, at any depth, the
    sub-spans of a match tile the matched text. *)
Lemma matchAtPositionRule_tiles (depth : nat) :
  forall (text : string) (pos : nat) (sr : StateRule) (mr : MatchResult),
    (pos <= countChars text)%nat ->
    matchAtPositionRule m_rule m_config depth text pos sr = Done mr ->
    matched mr = true ->
    (forall rule sub,
       winning_rule sr mr = Some rule -> sub_state_rule rule = Some sub ->
       capture_free sub = true ->
       tiles (sub_spans mr) 0 (mr_length mr))
    /\ ((forall rule, winning_rule sr mr = Some rule -> sub_state_rule rule = None) ->
        sub_spans mr = [])
    /\ (capture_free sr = true -> capture_groups mr = []).
Proof.
  induction depth as [|depth IH]; intros text pos sr mr Hpos Hres Hm; [discriminate|].
  pose proof (matchAtPositionRule_bounds _ _ _ _ _ Hres Hpos Hm) as (Hb1 & Hb2 & Hb3 & Hb4).
  destruct (matchAtPositionRule_inv m_rule m_config depth text pos sr mr Hres Hm)
    as (region & msb & meb & _ & _ & _ & Hcases).
  cbv zeta in Hcases.
  set (result := findMatchedRuleAndGroup sr region text msb meb
                   (initial_match text msb meb)) in *.
  destruct Hcases as [(rule & sub_rule & ss & p' & Hw & Hsub & Hloop & Hmr)|(Hmr & Hnone)].
  - assert (Hw' : winning_rule sr mr = Some rule) by (rewrite Hmr; exact Hw).
    destruct (winning_rule_spec sr region text msb meb rule Hw) as (Hstyle & _ & Hcg).
    fold result in Hstyle, Hcg.
    assert (Hlen : countChars (mr_matched_text result) = mr_length mr).
    { replace (mr_matched_text result) with (mr_matched_text mr) by (rewrite Hmr; reflexivity).
      rewrite Hb4. apply countChars_utf8Substr. exact Hb3. }
    split; [|split].
    + intros rule0 sub0 Hw0 Hsub0 Hfree.
      assert (rule0 = rule) by congruence. subst rule0.
      assert (sub0 = sub_rule) by congruence. subst sub0.
      rewrite Hlen, Hstyle in Hloop.
      assert (Hss : sub_spans mr =
                    ss ++ tail_gap m_rule m_config (getGroupStyleId rule 0) p' (mr_length mr)).
      { rewrite <- Hlen, <- Hstyle. rewrite Hmr at 1. reflexivity. }
      rewrite Hss.
      assert (Hinv : (p' <= mr_length mr)%nat /\ tiles ss 0 p');
        [refine (proj1 (sub_loop_inv m_rule m_config
                   (fun p acc => (p <= mr_length mr)%nat /\ tiles acc 0 p)
                   _ _ _ _ _ _ _ _ _ _ Hloop))
        |destruct Hinv as (Hp' & Hfilled)].
      * intros p acc mr' (Hp & Hacc) Hlt Hmr' Hm'.
        rewrite <- Hlen in Hlt.
        pose proof (matchAtPositionRule_bounds _ _ _ _ _ Hmr' (Nat.lt_le_incl _ _ Hlt) Hm')
          as (Hs1 & Hs2 & Hs3 & _).
        rewrite Hlen in Hs3.
        assert (Hple : (p <= countChars (mr_matched_text result))%nat) by lia.
        destruct (IH _ _ _ _ Hple Hmr' Hm') as (Hsub1 & Hsub2 & Hsub3).
        specialize (Hsub3 Hfree).
        assert (Hcontent : tiles (sub_match_content m_rule m_config mr')
                             (mr_start mr') (mr_start mr' + mr_length mr')).
        { apply sub_match_content_tiles; [exact Hsub3| |exact Hs2].
          destruct (winning_rule sub_rule mr') as [r'|] eqn:Hw1.
          - destruct (sub_state_rule r') as [s'|] eqn:Hs'.
            + right. eapply Hsub1; eauto.
              eapply capture_free_rule; eauto using winning_rule_lookup.
            + left. apply Hsub2. intros r0 [= <-]. exact Hs'.
          - left. apply Hsub2. intros r0 Hr0. discriminate. }
        replace (mr_length mr' =? 0)%nat with false
          by (symmetry; apply Nat.eqb_neq; lia).
        split; [lia|].
        rewrite app_assoc.
        apply (tiles_app _ _ 0 (mr_start mr')); [|exact Hcontent].
        unfold gap_before. destruct (p <? mr_start mr')%nat eqn:Hgap.
        -- apply Nat.ltb_lt in Hgap.
           apply (tiles_app _ _ 0 p); [exact Hacc|]. simpl. repeat split. exact Hgap.
        -- apply Nat.ltb_ge in Hgap. rewrite app_nil_r.
           replace (mr_start mr') with p by lia. exact Hacc.
      * split; [lia|reflexivity].
      * unfold tail_gap. destruct (p' <? mr_length mr)%nat eqn:Htail.
        -- apply Nat.ltb_lt in Htail.
           apply (tiles_app _ _ 0 p'); [exact Hfilled|]. simpl. repeat split. exact Htail.
        -- apply Nat.ltb_ge in Htail. rewrite app_nil_r.
           replace (mr_length mr) with p' by lia. exact Hfilled.
    + intros Hno. specialize (Hno rule Hw'). congruence.
    + intros Hfree. rewrite Hmr. simpl. rewrite Hcg.
      apply collect_capture_groups_none.
      eapply capture_free_rule; eauto using winning_rule_lookup.
  - subst mr. split; [|split].
    + intros rule0 sub0 Hw0 Hsub0 _. specialize (Hnone rule0 Hw0). congruence.
    + intros _.
      pose proof (findMatchedRuleAndGroup_from_fields (token_rules sr) 0 region text
                    msb meb (initial_match text msb meb)) as (_ & _ & _ & _ & Hss).
      exact Hss.
    + intros Hfree.
      destruct (winning_rule sr result) as [rule|] eqn:Hw.
      * destruct (winning_rule_spec sr region text msb meb rule Hw) as (_ & _ & Hcg).
        fold result in Hcg. rewrite Hcg.
        apply collect_capture_groups_none.
        eapply capture_free_rule; eauto using winning_rule_lookup.
      * pose proof (no_winner_defaults sr region text msb meb Hw) as Hdef.
        fold result in Hdef. rewrite Hdef. reflexivity.
Qed.






End TilingFacts.


(** ** A state without rule *)

Section UnknownState.
Context {regex_type : RegexType} {engine : RegexEngine}.
Variable m_rule : SyntaxRule.
Variable m_config : HighlightConfig.

Lemma matchAtPosition_unknown_state (text : string) (pos : nat) (st : Z) :
  states m_rule !! st = None ->
  matchAtPosition m_rule m_config text pos st = Done MatchResult_default.
Proof.
  intros Hst. unfold matchAtPosition, containsRule.
  rewrite bool_decide_eq_false_2; [reflexivity|].
  rewrite Hst. intros [x Hx]. discriminate.
Qed.

(** In a state without rule the scan loop moves on one character at a time
    to the end of the line and emits nothing. *)
Lemma scan_loop_unknown_state (text : string) (info : TextLineInfo) (st : Z)
    (hl : LineHighlight) (n : nat) :
  states m_rule !! st = None ->
  forall (fuel pos : nat),
    (n - pos <= fuel)%nat -> (pos <= n)%nat ->
    scan_loop m_rule m_config fuel text info n (mkScanState pos st hl) =
    Done (mkScanState n st hl).
Proof.
  intros Hst fuel. induction fuel as [|fuel IH]; intros pos Hfuel Hpos; simpl.
  - destruct (pos <? n)%nat eqn:Hlt; [apply Nat.ltb_lt in Hlt; lia|].
    apply Nat.ltb_ge in Hlt. replace pos with n by lia. reflexivity.
  - destruct (pos <? n)%nat eqn:Hlt.
    + apply Nat.ltb_lt in Hlt. unfold scan_step. simpl.
      rewrite matchAtPosition_unknown_state by exact Hst. simpl.
      apply IH; lia.
    + apply Nat.ltb_ge in Hlt. replace pos with n by lia. reflexivity.
Qed.

(** C9. A state without rule.  When the current state is not in the
    state map of the grammar, matchAtPosition reports no match at every
    cursor and surfaces no error; an iteration of the scan loop moves the
    cursor on by one character, emits nothing and stays in the state; the
    loop so reaches the end of the line; the lookup of the state rule that
    follows the loop finds no line end state and completes; and analyzeLine
    started in such a state returns, with no span, the state it started in
    and the character count of the line. *)
Theorem analyzeLine_unknown_state_recovers (text : string) (info : TextLineInfo)
    (st : Z) :
  states m_rule !! st = None ->
  (forall pos, matchAtPosition m_rule m_config text pos st = Done MatchResult_default)
  /\ (forall pos hl,
        scan_step m_rule m_config text info (mkScanState pos st hl)
        = Done (mkScanState (S pos) st hl))
  /\ (forall pos hl,
        (pos <= countChars text)%nat ->
        scan_loop m_rule m_config (countChars text - pos) text info (countChars text)
          (mkScanState pos st hl)
        = Done (mkScanState (countChars text) st hl))
  /\ (forall n hl,
        finish_line m_rule n (mkScanState n st hl) = Done (mkLineAnalyzeResult hl st n))
  /\ (start_state info = st ->
      analyzeLine m_rule m_config text info
      = Done (mkLineAnalyzeResult LineHighlight_default st (countChars text))).
Proof.
  intros Hst.
  assert (Hfinish : forall n hl,
            finish_line m_rule n (mkScanState n st hl)
            = Done (mkLineAnalyzeResult hl st n)).
  { intros n hl. unfold finish_line, getStateRule. simpl. rewrite Hst. reflexivity. }
  split; [intros pos; apply matchAtPosition_unknown_state; exact Hst|].
  split.
  { intros pos hl. unfold scan_step. simpl.
    rewrite matchAtPosition_unknown_state by exact Hst. reflexivity. }
  split; [intros pos hl Hpos; apply scan_loop_unknown_state; [exact Hst|lia|exact Hpos]|].
  split; [exact Hfinish|].
  intros Hstart. unfold analyzeLine, analyzeLine_fuel.
  destruct text as [|a text]; [rewrite Hstart; reflexivity|].
  rewrite Hstart.
  rewrite (scan_loop_unknown_state _ _ _ _ _ Hst) by lia.
  rewrite bind_Done. apply Hfinish.
Qed.

End UnknownState.

Lemma analyzeLine_unknown_state_recovers_witness :
  states Samples.keyword_grammar !! 5 = None
  /\ scan_loop (engine := Toy.engine) Samples.keyword_grammar Samples.config 2 "ab"
       (mkTextLineInfo 0 5 0) 2 (mkScanState 0 5 LineHighlight_default)
     = Done (mkScanState 2 5 LineHighlight_default)
  /\ analyzeLine (engine := Toy.engine) Samples.keyword_grammar Samples.config "ab"
       (mkTextLineInfo 0 5 0)
     = Done (mkLineAnalyzeResult LineHighlight_default 5 2).
Proof.
  assert (Hst : states Samples.keyword_grammar !! 5 = None) by reflexivity.
  destruct (analyzeLine_unknown_state_recovers (engine := Toy.engine)
              Samples.keyword_grammar Samples.config "ab" (mkTextLineInfo 0 5 0) 5 Hst)
    as (_ & _ & Hloop & _ & Hline).
  split; [exact Hst|].
  split; [exact (Hloop 0%nat LineHighlight_default ltac:(vm_compute; lia))|].
  exact (Hline eq_refl).
Defined.

(** ** Closed grammars: analyzeLine returns *)

Section ClosedGrammarFacts.
Context {regex_type : RegexType} {engine : RegexEngine}.
Variable m_rule : SyntaxRule.
Variable m_config : HighlightConfig.

Lemma containsRule_true (s : Z) :
  containsRule m_rule s = true <-> is_Some (states m_rule !! s).
Proof. unfold containsRule. apply bool_decide_eq_true. Qed.

Lemma states_closed_lookup (s : Z) (sr : StateRule) :
  states_closed m_rule = true -> states m_rule !! s = Some sr ->
  rule_targets_known m_rule sr = true.
Proof.
  unfold states_closed. intros Hc Hs. apply andb_prop in Hc as [_ Hall].
  rewrite forallb_forall in Hall.
  apply (Hall (s, sr)). apply list_elem_of_In, elem_of_map_to_list. exact Hs.
Qed.

Lemma rule_targets_known_goto (sr : StateRule) (i : nat) (rule : TokenRule StateRule) :
  rule_targets_known m_rule sr = true -> token_rules sr !! i = Some rule ->
  0 <= tr_goto_state rule -> containsRule m_rule (tr_goto_state rule) = true.
Proof.
  unfold rule_targets_known. intros Hk Hi Hge.
  apply andb_prop in Hk as [Hall _]. rewrite forallb_forall in Hall.
  assert (Hin : In rule (token_rules sr)).
  { apply list_elem_of_In. eapply list_elem_of_lookup_2. exact Hi. }
  apply Hall, orb_prop in Hin as [Hneg|Hc]; [|exact Hc].
  apply Z.ltb_lt in Hneg. lia.
Qed.

Lemma rule_targets_known_line_end (sr : StateRule) :
  rule_targets_known m_rule sr = true ->
  0 <= line_end_state sr -> containsRule m_rule (line_end_state sr) = true.
Proof.
  unfold rule_targets_known. intros Hk Hge.
  apply andb_prop in Hk as [_ Hle]. apply orb_prop in Hle as [Hneg|Hc]; [|exact Hc].
  apply Z.ltb_lt in Hneg. lia.
Qed.

(** The transition of a match is the one of a rule of the state, when
    there is one. *)
Lemma matchAtPositionRule_goto_cases (depth : nat) (text : string) (pos : nat)
    (sr : StateRule) (mr : MatchResult) :
  matchAtPositionRule m_rule m_config depth text pos sr = Done mr ->
  matched mr = true ->
  mr_goto_state mr = kNoState
  \/ exists i rule, token_rules sr !! i = Some rule
                    /\ mr_goto_state mr = tr_goto_state rule.
Proof.
  intros Hres Hm. destruct depth as [|depth]; [discriminate|].
  destruct (matchAtPositionRule_inv m_rule m_config depth text pos sr mr Hres Hm)
    as (region & msb & meb & _ & _ & _ & Hcases).
  cbv zeta in Hcases.
  assert (Hgoto : mr_goto_state mr =
                  mr_goto_state (findMatchedRuleAndGroup sr region text msb meb
                                   (initial_match text msb meb))).
  { destruct Hcases as [(rule & sub_rule & ss & p' & _ & _ & _ & ->)|(-> & _)];
      reflexivity. }
  rewrite Hgoto. unfold findMatchedRuleAndGroup.
  destruct (findMatchedRuleAndGroup_from_winner (token_rules sr) region text msb meb
              (initial_match text msb meb) 0)
    as [->|(i & rule & Hi & _ & _ & Hgo & _)].
  - left. reflexivity.
  - right. eauto.
Qed.

Lemma scan_loop_inv (P : ScanState -> Prop) (text : string) (info : TextLineInfo)
    (n : nat) :
  (forall s s', P s -> (current_char_pos s < n)%nat ->
                scan_step m_rule m_config text info s = Done s' -> P s') ->
  forall (fuel : nat) (s s' : ScanState),
    P s -> scan_loop m_rule m_config fuel text info n s = Done s' -> P s'.
Proof.
  intros Hstep fuel. induction fuel as [|fuel IH]; intros s s' HP; simpl.
  - destruct (_ <? _)%nat; [discriminate|]. intros [= <-]. exact HP.
  - destruct (current_char_pos s <? n)%nat eqn:Hlt; [|intros [= <-]; exact HP].
    apply Nat.ltb_lt in Hlt.
    destruct (scan_step m_rule m_config text info s) as [s1|e] eqn:Hs1; [|discriminate].
    rewrite bind_Done. apply IH. eapply Hstep; eauto.
Qed.

Hypothesis Hclosed : states_closed m_rule = true.

Lemma scan_step_known_state (text : string) (info : TextLineInfo) (s s' : ScanState) :
  containsRule m_rule (current_state s) = true ->
  scan_step m_rule m_config text info s = Done s' ->
  containsRule m_rule (current_state s') = true.
Proof.
  intros Hknown. unfold scan_step.
  destruct (matchAtPosition m_rule m_config text (current_char_pos s) (current_state s))
    as [mr|e] eqn:Hmr; [|discriminate].
  rewrite bind_Done.
  destruct (matched mr) eqn:Hm; simpl; intros [= <-]; simpl; [|exact Hknown].
  destruct (0 <=? mr_goto_state mr) eqn:Hge; [|exact Hknown].
  apply Z.leb_le in Hge.
  unfold matchAtPosition in Hmr. rewrite Hknown in Hmr. simpl in Hmr.
  unfold getStateRule in Hmr.
  destruct (states m_rule !! current_state s) as [sr|] eqn:Hst;
    [|injection Hmr as <-; discriminate].
  destruct (matchAtPositionRule_goto_cases _ _ _ _ _ Hmr Hm) as [Hno|(i & rule & Hi & Hgo)].
  - rewrite Hno in Hge. unfold kNoState in Hge. lia.
  - rewrite Hgo in *. eapply rule_targets_known_goto; eauto.
    eapply states_closed_lookup; eauto.
Qed.

Hypothesis Hcontract : search_contract.

(** In a closed grammar, from a state it has, analyzeLine returns: the end
    state is a state of the grammar again, and the character count is the
    one of the line. *)
Lemma analyzeLine_total (text : string) (info : TextLineInfo) :
  containsRule m_rule (start_state info) = true ->
  exists r, analyzeLine m_rule m_config text info = Done r
            /\ containsRule m_rule (end_state r) = true
            /\ char_count r = countChars text.
Proof.
  intros Hknown. unfold analyzeLine, analyzeLine_fuel.
  destruct text as [|a text]; [eexists; split; [reflexivity|split; [exact Hknown|reflexivity]]|].
  remember (countChars (String a text)) as n eqn:Hn.
  destruct (scan_loop_exact m_rule m_config Hcontract (String a text) info n
              (mkScanState 0 (start_state info) LineHighlight_default))
    as (k & s' & Hk & _ & Henough & _);
    [rewrite <- Hn; simpl; lia|rewrite <- Hn; simpl; lia|].
  rewrite <- Hn in Hk, Henough. simpl in Hk.
  rewrite (Henough n) by lia. rewrite bind_Done.
  assert (Hs' : containsRule m_rule (current_state s') = true).
  { refine (scan_loop_inv (fun s => containsRule m_rule (current_state s) = true)
              (String a text) info n _ n
              (mkScanState 0 (start_state info) LineHighlight_default) s'
              Hknown (Henough n ltac:(lia))).
    intros s1 s2 H1 _ H2. eapply scan_step_known_state; eauto. }
  unfold finish_line, getStateRule.
  pose proof Hs' as Hsome. apply containsRule_true in Hsome as [sr Hsr].
  rewrite Hsr. eexists. split; [reflexivity|]. simpl. split; [|reflexivity].
  destruct (0 <=? line_end_state sr) eqn:Hge; [|exact Hs'].
  apply Z.leb_le in Hge. eapply rule_targets_known_line_end; eauto.
  eapply states_closed_lookup; eauto.
Qed.

End ClosedGrammarFacts.

(** ** The text-mode splitter *)

Lemma split_newline_length (s : string) :
  length (split_newline s) = S (count_newlines s).
Proof.
  induction s as [|a s IH]; simpl; [reflexivity|].
  destruct (Ascii.eqb a newline); simpl; [rewrite IH; reflexivity|].
  destruct (split_newline s) as [|l ls]; simpl in *; [discriminate|]. exact IH.
Qed.

Lemma split_newline_snoc (t : string) :
  split_newline (t +:+ String newline "") = split_newline t ++ [EmptyString].
Proof.
  induction t as [|a t IH]; simpl; [reflexivity|].
  destruct (Ascii.eqb a newline); [rewrite IH; reflexivity|].
  rewrite IH. pose proof (split_newline_length t) as Hlen.
  destruct (split_newline t) as [|l ls]; [discriminate|reflexivity].
Qed.

Lemma split_newline_first_line (l t : string) :
  count_newlines l = 0%nat ->
  split_newline (l +:+ String newline t) = l :: split_newline t.
Proof.
  induction l as [|a l IH]; simpl; [reflexivity|].
  destruct (Ascii.eqb a newline); [discriminate|].
  intros Hl. rewrite (IH Hl). reflexivity.
Qed.

Lemma count_newlines_app (a b : string) :
  count_newlines (a +:+ b) = (count_newlines a + count_newlines b)%nat.
Proof.
  induction a as [|c a IH]; simpl; [reflexivity|]. rewrite IH. lia.
Qed.

Lemma string_app_snoc (l s : string) (c : Ascii.ascii) :
  (l +:+ String c "") +:+ s = l +:+ String c s.
Proof.
  induction l as [|a l IH]; [reflexivity|].
  change (String a ((l +:+ String c "") +:+ s) = String a (l +:+ String c s)).
  rewrite IH. reflexivity.
Qed.

Lemma has_cr_snoc (l : string) : has_cr (l +:+ String carriage_return "") = true.
Proof.
  induction l as [|a l IH]; simpl; [reflexivity|].
  destruct (l +:+ String carriage_return "") eqn:Hl; [destruct l; discriminate|].
  exact IH.
Qed.

Lemma pop_back_snoc (l : string) (c : Ascii.ascii) : pop_back (l +:+ String c "") = l.
Proof.
  induction l as [|a l IH]; simpl; [reflexivity|].
  destruct (l +:+ String c "") eqn:Hl; [destruct l; discriminate|].
  rewrite IH. reflexivity.
Qed.

Lemma strip_cr_snoc (l : string) : strip_cr (l +:+ String carriage_return "") = l.
Proof. unfold strip_cr. rewrite has_cr_snoc. apply pop_back_snoc. Qed.

Section TextAnalyzerFacts.
Context {regex_type : RegexType} {engine : RegexEngine}.
Variable m_rule : SyntaxRule.
Variable m_config : HighlightConfig.

Lemma analyzeText_lines_cons (line_text next : string) (rest : list string)
    (info : TextLineInfo) (h : DocumentHighlight) :
  analyzeText_lines m_rule m_config (line_text :: next :: rest) info h =
  (result ← analyzeLine m_rule m_config (strip_cr line_text) info;
   analyzeText_lines m_rule m_config (next :: rest)
     (next_line_info info line_text result) (addLine h (highlight result))).
Proof. reflexivity. Qed.

Lemma analyzeText_lines_last (last_line : string) (info : TextLineInfo)
    (h : DocumentHighlight) :
  analyzeText_lines m_rule m_config [last_line] info h =
  (result ← analyzeLine m_rule m_config (strip_cr last_line) info;
   Done (addLine h (highlight result))).
Proof. reflexivity. Qed.

(** One LineHighlight is added for every piece. *)
Lemma analyzeText_lines_length (pieces : list string) :
  forall (info : TextLineInfo) (h h' : DocumentHighlight),
    analyzeText_lines m_rule m_config pieces info h = Done h' ->
    length (lines h') = (length (lines h) + length pieces)%nat.
Proof.
  induction pieces as [|p pieces IH]; intros info h h'.
  - simpl. intros [= <-]. lia.
  - destruct pieces as [|q pieces].
    + rewrite analyzeText_lines_last.
      destruct (analyzeLine m_rule m_config (strip_cr p) info) as [r|e]; [|discriminate].
      rewrite bind_Done. intros [= <-]. simpl. rewrite length_app. simpl. lia.
    + rewrite analyzeText_lines_cons.
      destruct (analyzeLine m_rule m_config (strip_cr p) info) as [r|e]; [|discriminate].
      rewrite bind_Done. intros Hrest. apply IH in Hrest.
      rewrite Hrest. simpl. rewrite length_app. simpl. lia.
Qed.

(** The piece after the last ['\n'] is analysed like the others; when it is
    empty its LineHighlight is the empty one. *)
Lemma analyzeText_lines_final_empty (pieces : list string) :
  forall (info : TextLineInfo) (h h' : DocumentHighlight),
    analyzeText_lines m_rule m_config (pieces ++ [EmptyString]) info h = Done h' ->
    last (lines h') = Some LineHighlight_default.
Proof.
  induction pieces as [|p pieces IH]; intros info h h'.
  - simpl. intros [= <-]. simpl. apply last_snoc.
  - replace ((p :: pieces) ++ [EmptyString]) with (p :: (pieces ++ [EmptyString]))
      by reflexivity.
    destruct (pieces ++ [EmptyString]) as [|q qs] eqn:Hq; [destruct pieces; discriminate|].
    rewrite analyzeText_lines_cons.
    destruct (analyzeLine m_rule m_config (strip_cr p) info) as [r|e]; [|discriminate].
    rewrite bind_Done. apply IH.
Qed.

Hypothesis Hclosed : states_closed m_rule = true.
Hypothesis Hcontract : search_contract.

Lemma analyzeText_lines_total (pieces : list string) :
  forall (info : TextLineInfo) (h : DocumentHighlight),
    containsRule m_rule (start_state info) = true ->
    exists h', analyzeText_lines m_rule m_config pieces info h = Done h'.
Proof.
  induction pieces as [|p pieces IH]; intros info h Hknown.
  - eexists. reflexivity.
  - destruct (analyzeLine_total m_rule m_config Hclosed Hcontract (strip_cr p) info Hknown)
      as (r & Hr & Hend & _).
    destruct pieces as [|q pieces].
    + rewrite analyzeText_lines_last, Hr, bind_Done. eauto.
    + rewrite analyzeText_lines_cons, Hr, bind_Done. apply IH. exact Hend.
Qed.

Lemma analyzeText_total (text : string) :
  exists h, analyzeText m_rule m_config text = Done h.
Proof.
  unfold analyzeText. destruct text as [|a text]; [eauto|].
  apply analyzeText_lines_total. simpl.
  unfold states_closed in Hclosed. apply andb_prop in Hclosed as [Hd _]. exact Hd.
Qed.

(** C2 (amended). Line alignment of analyzeText.  In a closed grammar
    and with an engine that keeps its contract, analyzeText returns; the
    DocumentHighlight of the empty text has no LineHighlight, and the one of
    a text that is not empty has one LineHighlight for every line of the
    text: the number of its ['\n'] plus one, the line after a final ['\n']
    included. *)
Theorem analyzeText_line_count (text : string) :
  analyzeText m_rule m_config "" = Done (mkDocumentHighlight [])
  /\ exists h, analyzeText m_rule m_config text = Done h
               /\ length (lines h) =
                  match text with
                  | EmptyString => 0%nat
                  | String _ _ => S (count_newlines text)
                  end.
Proof.
  split; [reflexivity|].
  destruct (analyzeText_total text) as (h & Hh). exists h. split; [exact Hh|].
  unfold analyzeText in Hh. destruct text as [|a text]; [injection Hh as <-; reflexivity|].
  apply analyzeText_lines_length in Hh. rewrite Hh, split_newline_length. reflexivity.
Qed.

(** C6. The last line and the carriage return in analyzeText.  In a
    closed grammar and with an engine that keeps its contract:
    (1) for a text that ends in ['\n'], analyzeText returns one
    LineHighlight more than the text has ['\n'], and the last one, for the
    empty line after the final ['\n'], has no span;
    (2) the text [a\n] yields exactly two LineHighlights, the second empty;
    (3) a line [l\r\n] is cut out as the piece [l\r];
    (4) such a piece is analysed as [l], without the ['\r'], and the line
    after it starts at the offset of this line plus
    [char_count + 1 + 1]. *)
Theorem analyzeText_final_line_and_cr :
  (forall t : string,
     exists h, analyzeText m_rule m_config (t +:+ String newline "") = Done h
               /\ length (lines h) = S (S (count_newlines t))
               /\ last (lines h) = Some LineHighlight_default)
  /\ (exists h l0, analyzeText m_rule m_config ("a" +:+ String newline "") = Done h
                   /\ lines h = [l0; LineHighlight_default])
  /\ (forall l t : string,
        count_newlines l = 0%nat ->
        split_newline (l +:+ String carriage_return (String newline t))
        = (l +:+ String carriage_return "") :: split_newline t)
  /\ (forall (l next : string) (rest : list string) (info : TextLineInfo)
             (h : DocumentHighlight),
        analyzeText_lines m_rule m_config
          ((l +:+ String carriage_return "") :: next :: rest) info h
        = (result ← analyzeLine m_rule m_config l info;
           analyzeText_lines m_rule m_config (next :: rest)
             (mkTextLineInfo (S (li_line info)) (end_state result)
                (start_char_offset info + char_count result + 1 + 1))
             (addLine h (highlight result)))).
Proof.
  assert (Hfinal : forall t : string,
     exists h, analyzeText m_rule m_config (t +:+ String newline "") = Done h
               /\ length (lines h) = S (S (count_newlines t))
               /\ last (lines h) = Some LineHighlight_default).
  { intros t. destruct (analyzeText_total (t +:+ String newline "")) as (h & Hh).
    exists h. split; [exact Hh|].
    unfold analyzeText in Hh.
    destruct (t +:+ String newline "") as [|a s] eqn:Ht; [destruct t; discriminate|].
    rewrite <- Ht in Hh. split.
    - apply analyzeText_lines_length in Hh.
      rewrite Hh, split_newline_length, count_newlines_app. simpl. lia.
    - rewrite split_newline_snoc in Hh.
      eapply analyzeText_lines_final_empty. exact Hh. }
  split; [exact Hfinal|]. split; [|split].
  - destruct (Hfinal "a") as (h & Hh & Hlen & Hlast).
    exists h. destruct h as [ls]. simpl in *.
    destruct ls as [|l0 [|l1 [|l2 ls]]]; simpl in Hlen; try discriminate.
    exists l0. split; [exact Hh|]. simpl in Hlast. congruence.
  - intros l t Hl.
    replace (l +:+ String carriage_return (String newline t))
      with ((l +:+ String carriage_return "") +:+ String newline t).
    + apply split_newline_first_line. rewrite count_newlines_app, Hl. reflexivity.
    + apply string_app_snoc.
  - intros l next rest info h.
    rewrite analyzeText_lines_cons, strip_cr_snoc.
    unfold next_line_info. rewrite has_cr_snoc. reflexivity.
Qed.

End TextAnalyzerFacts.

Lemma analyzeText_line_count_witness :
  states_closed (regex_type := Toy.pattern_type) Samples.comment_grammar = true
  /\ @search_contract _ Toy.engine
  /\ exists h, analyzeText (engine := Toy.engine) Samples.comment_grammar Samples.config
                 ("/*" +:+ Samples.nl +:+ "hi" +:+ Samples.nl +:+ "*/") = Done h
               /\ length (lines h) = 3%nat.
Proof.
  split; [vm_compute; reflexivity|].
  split; [exact toy_search_contract|].
  exact (proj2 (analyzeText_line_count (engine := Toy.engine) Samples.comment_grammar
                  Samples.config ltac:(vm_compute; reflexivity) toy_search_contract
                  ("/*" +:+ Samples.nl +:+ "hi" +:+ Samples.nl +:+ "*/"))).
Defined.

(** C2 as stated fails on the empty text: analyzeText returns at its
    first test with a DocumentHighlight that has no LineHighlight, not one
    empty LineHighlight. *)
Lemma analyzeText_line_count_counterexample :
  analyzeText (engine := Toy.engine) Samples.keyword_grammar Samples.config ""
  = Done (mkDocumentHighlight [])
  /\ ~ (exists h l, analyzeText (engine := Toy.engine) Samples.keyword_grammar
                      Samples.config "" = Done h
                    /\ lines h = [l] /\ spans l = []).
Proof.
  split; [reflexivity|].
  intros (h & l & Hh & Hl & _). simpl in Hh. injection Hh as <-. discriminate.
Qed.

Lemma analyzeText_final_line_and_cr_witness :
  states_closed (regex_type := Toy.pattern_type) Samples.letter_grammar = true
  /\ @search_contract _ Toy.engine
  /\ (exists h, analyzeText (engine := Toy.engine) Samples.letter_grammar Samples.config
                  ("x" +:+ Samples.nl) = Done h
                /\ length (lines h) = 2%nat
                /\ last (lines h) = Some LineHighlight_default)
  /\ map (fun l => map (fun sp => index (start (range sp))) (spans l))
       (match analyzeText (engine := Toy.engine) Samples.letter_grammar Samples.config
                ("x" +:+ Samples.cr +:+ Samples.nl +:+ "x") with
        | Done h => lines h
        | Fail _ => []
        end) = [[0%nat]; [3%nat]].
Proof.
  split; [vm_compute; reflexivity|].
  split; [exact toy_search_contract|].
  split.
  - exact (proj1 (analyzeText_final_line_and_cr (engine := Toy.engine) Samples.letter_grammar
                    Samples.config ltac:(vm_compute; reflexivity) toy_search_contract) "x").
  - vm_compute. reflexivity.
Defined.

(** ** The incremental analyzer: the re-tokenization loop *)

Section IncrementalFacts.
Context {regex_type : RegexType} {engine : RegexEngine} {D : Type} {buffer : DocumentBuffer D}.
Variable m_rule : SyntaxRule.
Variable m_config : HighlightConfig.

Lemma vec_at_insert_eq {A : Type} (d x : A) (v : list A) (i : nat) :
  (i < length v)%nat -> vec_at d (<[i := x]> v) i = x.
Proof. intros Hi. unfold vec_at. rewrite list_lookup_insert_eq by exact Hi. reflexivity. Qed.

Lemma vec_at_insert_ne {A : Type} (d x : A) (v : list A) (i j : nat) :
  i <> j -> vec_at d (<[i := x]> v) j = vec_at d v j.
Proof. intros Hne. unfold vec_at. rewrite list_lookup_insert_ne by exact Hne. reflexivity. Qed.

Lemma vec_at_lookup_eq {A : Type} (d : A) (v w : list A) (j : nat) :
  v !! j = w !! j -> vec_at d v j = vec_at d w j.
Proof. unfold vec_at. intros ->. reflexivity. Qed.

(** What one iteration of the loop does. *)
Lemma retokenize_step_inv (doc : D) (cel : nat) (s s' : PassState) :
  retokenize_step m_rule m_config doc cel s = Done s' ->
  exists result,
    analyzeLine m_rule m_config (text (getLine doc (ps_line s)))
      (mkTextLineInfo (ps_line s) (ps_current_state s) (ps_line_start_index s))
    = Done result
    /\ s' = mkPassState (S (ps_line s)) (end_state result)
              (ps_line_start_index s + char_count result
               + getLineEndingWidth (ending (getLine doc (ps_line s))))
              (<[ps_line s := end_state result]> (ps_states s))
              (<[ps_line s := highlight result]> (ps_lines s))
              (stability_check cel (ps_line s)
                 (vec_at 0 (ps_states s) (ps_line s))
                 (vec_at LineHighlight_default (ps_lines s) (ps_line s)) result).
Proof.
  unfold retokenize_step.
  destruct (analyzeLine _ _ _ _) as [result|e]; [|discriminate].
  rewrite bind_Done. intros [= <-]. eauto.
Qed.

(** The flag is set by an iteration exactly when its line is stable. *)
Lemma retokenize_step_stable (doc : D) (cel : nat) (s s' : PassState) :
  retokenize_step m_rule m_config doc cel s = Done s' ->
  (ps_line s < length (ps_states s))%nat ->
  (ps_line s < length (ps_lines s))%nat ->
  ps_stable s' = stable_at cel s s' (ps_line s).
Proof.
  intros Hstep Hs Hl.
  destruct (retokenize_step_inv doc cel s s' Hstep) as (result & _ & ->).
  unfold stable_at, stability_check. simpl.
  rewrite !vec_at_insert_eq by assumption.
  destruct (_ && _); reflexivity.
Qed.

Lemma retokenize_loop_spec (doc : D) (cel : nat) (todo : nat) :
  forall s s' : PassState,
    retokenize_loop m_rule m_config todo doc cel s = Done s' ->
    ps_stable s = false ->
    (ps_line s + todo <= length (ps_states s))%nat ->
    (ps_line s + todo <= length (ps_lines s))%nat ->
    (ps_line s <= ps_line s' <= ps_line s + todo)%nat
    /\ length (ps_states s') = length (ps_states s)
    /\ length (ps_lines s') = length (ps_lines s)
    /\ (forall j, (j < ps_line s)%nat \/ (ps_line s' <= j)%nat ->
                  ps_states s' !! j = ps_states s !! j
                  /\ ps_lines s' !! j = ps_lines s !! j)
    /\ (forall j, (ps_line s <= j < ps_line s')%nat ->
                  stable_at cel s s' j = true
                  <-> ps_stable s' = true /\ S j = ps_line s')
    /\ (ps_stable s' = true -> (ps_line s < ps_line s')%nat)
    /\ (ps_stable s' = false -> ps_line s' = (ps_line s + todo)%nat).
Proof.
  induction todo as [|todo IH]; intros s s' Hloop Hst Hls Hll; simpl in Hloop.
  - injection Hloop as <-.
    split; [lia|]. split; [reflexivity|]. split; [reflexivity|].
    split; [intros j _; split; reflexivity|].
    split; [intros j Hj; lia|].
    split; [congruence|intros _; lia].
  - rewrite Hst in Hloop.
    destruct (retokenize_step m_rule m_config doc cel s) as [s1|e] eqn:Hstep;
      [|discriminate].
    rewrite bind_Done in Hloop.
    pose proof (retokenize_step_stable doc cel s s1 Hstep ltac:(lia) ltac:(lia)) as Hflag.
    destruct (retokenize_step_inv doc cel s s1 Hstep) as (result & _ & Hs1).
    assert (Hline1 : ps_line s1 = S (ps_line s)) by (rewrite Hs1; reflexivity).
    assert (Hlen1 : length (ps_states s1) = length (ps_states s)
                    /\ length (ps_lines s1) = length (ps_lines s)).
    { rewrite Hs1. simpl. rewrite !length_insert. auto. }
    assert (Hother : forall j, j <> ps_line s ->
              ps_states s1 !! j = ps_states s !! j /\ ps_lines s1 !! j = ps_lines s !! j).
    { intros j Hj. rewrite Hs1. simpl.
      rewrite !list_lookup_insert_ne by congruence. auto. }
    destruct Hlen1 as (Hlen1s & Hlen1l).
    destruct (ps_stable s1) eqn:Hst1.
    + assert (s' = s1).
      { destruct todo; simpl in Hloop; [|rewrite Hst1 in Hloop]; congruence. }
      subst s'.
      split; [lia|]. split; [lia|]. split; [lia|].
      split; [intros j Hj; apply Hother; lia|].
      split; [|split; [intros _; lia|intros Hs'; congruence]].
      intros j Hj. assert (j = ps_line s) by lia. subst j.
      split; [intros _; split; [exact Hst1|lia]|].
      intros _. symmetry. exact Hflag.
    + destruct (IH s1 s' Hloop Hst1 ltac:(lia) ltac:(lia))
        as (Hrange & Hlens & Hlenl & Hkeep & Hiff & Hprog & Hend).
      split; [lia|]. split; [lia|]. split; [lia|].
      split; [|split; [|split]].
      * intros j Hj.
        destruct (Hkeep j ltac:(lia)) as (Hk1 & Hk2).
        destruct (Hother j ltac:(lia)) as (Ho1 & Ho2).
        split; congruence.
      * intros j Hj.
        destruct (decide (j = ps_line s)) as [->|Hne].
        -- assert (Hsame : stable_at cel s s' (ps_line s) = stable_at cel s s1 (ps_line s)).
           { destruct (Hkeep (ps_line s) ltac:(lia)) as (Hk1 & Hk2).
             unfold stable_at.
             rewrite (vec_at_lookup_eq 0 _ _ _ Hk1).
             rewrite (vec_at_lookup_eq LineHighlight_default _ _ _ Hk2). reflexivity. }
           rewrite Hsame, <- Hflag. split; [discriminate|].
           intros (Hs' & Hj'). specialize (Hprog Hs'). lia.
        -- assert (Hsame : stable_at cel s s' j = stable_at cel s1 s' j).
           { destruct (Hother j Hne) as (Ho1 & Ho2).
             unfold stable_at.
             rewrite (vec_at_lookup_eq 0 _ _ _ Ho1).
             rewrite (vec_at_lookup_eq LineHighlight_default _ _ _ Ho2). reflexivity. }
           rewrite Hsame. apply Hiff. lia.
      * intros Hs'. specialize (Hprog Hs'). lia.
      * intros Hs'. rewrite (Hend Hs'). lia.
Qed.

End IncrementalFacts.

(** ** The incremental analyzer against the full analysis *)

(** C1 (the code departs from it). The buffer with the lines [x], [],
    [x], [x] is analysed in full with [Samples.letter_grammar]; then a line
    break is inserted in front of the first line.  The re-tokenization is
    stable at line 2 (an empty line) and stops there.  The spans of the
    lines 3 and 4 are the ones of the former lines 2 and 3: under show_index
    their indices are fixed up, their line numbers are not.  The full
    analysis of the patched buffer gives them the line numbers 3 and 4, so
    the two DocumentHighlights differ, whatever getLineCharCount returns. *)
Theorem incremental_differs_from_full :
  forall line_char_count : list DocumentLine -> nat -> nat,
  exists a_inc a_full : InternalDocumentAnalyzer (list DocumentLine),
    Samples.edited line_char_count Samples.four_lines Samples.at_start Samples.nl
    = Done a_inc
    /\ m_document a_inc = Samples.five_lines
    /\ Samples.analyzed line_char_count Samples.five_lines = Done a_full
    /\ Samples.line_numbers (m_highlight a_inc) = [[]; [1]; []; [2]; [3]]%nat
    /\ Samples.line_numbers (m_highlight a_full) = [[]; [1]; []; [3]; [4]]%nat
    /\ LineHighlight_eqb (vec_at LineHighlight_default (lines (m_highlight a_inc)) 3)
         (vec_at LineHighlight_default (lines (m_highlight a_full)) 3) = false
    /\ m_highlight a_inc <> m_highlight a_full.
Proof.
  intros line_char_count.
  eexists. eexists.
  split; [vm_compute; reflexivity|].
  split; [vm_compute; reflexivity|].
  split; [vm_compute; reflexivity|].
  split; [vm_compute; reflexivity|].
  split; [vm_compute; reflexivity|].
  split; [vm_compute; reflexivity|].
  intros Heq. apply (f_equal Samples.line_numbers) in Heq.
  vm_compute in Heq. discriminate.
Qed.

(** C5 (the code departs from it). After the same edit, under
    show_index:
    (1) whatever getLineCharCount returns, the span of line 3 has the index
    4 and the column 0 but names the line 2, which starts at offset 3: the
    index is not the start of the line of the span plus its column;
    (2) when getLineCharCount is the number of characters of the text of the
    line, the fix-up moves on by that number, without the width of the line
    ending that the re-tokenization loop adds: the span of line 4 gets the
    index 5, and line 4 starts at offset 6;
    (3) the full analysis of the patched buffer is consistent in both
    readings. *)
Theorem fixup_leaves_index_inconsistent :
  (forall line_char_count : list DocumentLine -> nat -> nat,
   exists a_inc : InternalDocumentAnalyzer (list DocumentLine),
     Samples.edited line_char_count Samples.four_lines Samples.at_start Samples.nl
     = Done a_inc
     /\ m_document a_inc = Samples.five_lines
     /\ (spans (vec_at LineHighlight_default (lines (m_highlight a_inc)) 3)) !! 0%nat
        = Some (mkTokenSpan
                  (mkTextRange (mkTextPosition 2 0 4) (mkTextPosition 2 1 5))
                  4 0 kNoState "x" None)
     /\ charIndexOfLine (DocumentBuffer := Toy.buffer line_char_count)
          Samples.five_lines 2 = 3%nat
     /\ index_consistent (buffer := Toy.buffer line_char_count) Samples.five_lines
          (m_highlight a_inc) = false)
  /\ (exists a_inc : InternalDocumentAnalyzer (list DocumentLine),
        Samples.edited Toy.text_char_count Samples.four_lines Samples.at_start Samples.nl
        = Done a_inc
        /\ Samples.highlight_fields (m_highlight a_inc)
           = [[]; [[1; 0; 1; 1; 1; 2]]; []; [[2; 0; 4; 2; 1; 5]]; [[3; 0; 5; 3; 1; 6]]]%nat
        /\ charIndexOfLine (DocumentBuffer := Toy.buffer Toy.text_char_count)
             Samples.five_lines 4 = 6%nat
        /\ index_consistent_by_position (buffer := Toy.buffer Toy.text_char_count)
             Samples.five_lines (m_highlight a_inc) = false)
  /\ (forall line_char_count : list DocumentLine -> nat -> nat,
      exists a_full : InternalDocumentAnalyzer (list DocumentLine),
        Samples.analyzed line_char_count Samples.five_lines = Done a_full
        /\ index_consistent (buffer := Toy.buffer line_char_count) Samples.five_lines
             (m_highlight a_full) = true
        /\ index_consistent_by_position (buffer := Toy.buffer line_char_count)
             Samples.five_lines (m_highlight a_full) = true).
Proof.
  split; [|split].
  - intros line_char_count. eexists.
    split; [vm_compute; reflexivity|].
    repeat split; vm_compute; reflexivity.
  - eexists.
    split; [vm_compute; reflexivity|].
    repeat split; vm_compute; reflexivity.
  - intros line_char_count. eexists.
    split; [vm_compute; reflexivity|].
    split; vm_compute; reflexivity.
Qed.

(** * Further properties *)

(** ** Invariants of the LineHighlight of a line *)

Lemma span_stamped_extend_end (line_no offset : nat) (last span : TokenSpan) :
  span_stamped line_no offset last -> span_stamped line_no offset span ->
  span_stamped line_no offset (extend_end last span).
Proof.
  intros (H1 & H2 & H3 & H4) (H5 & H6 & H7 & H8).
  unfold span_stamped. simpl. auto.
Qed.

Lemma pushOrMergeSpan_Forall (P : TokenSpan -> Prop) (hl : LineHighlight)
    (span : TokenSpan) :
  (forall last, P last -> P (extend_end last span)) ->
  Forall P (spans hl) -> P span ->
  Forall P (spans (pushOrMergeSpan hl span)).
Proof.
  intros Hext Hall Hspan. destruct hl as [ss]. simpl in *.
  destruct ss as [|x init _] using rev_ind.
  - rewrite pushOrMergeSpan_nil. repeat constructor. exact Hspan.
  - rewrite pushOrMergeSpan_snoc.
    apply Forall_app in Hall as [Hinit Hx].
    apply Forall_cons in Hx as [Hx _].
    destruct (mergeable x span); apply Forall_app; split; auto.
Qed.

Lemma foldl_pushOrMergeSpan_Forall (P : TokenSpan -> Prop) (block : list TokenSpan) :
  (forall last span, P last -> P span -> P (extend_end last span)) ->
  forall hl : LineHighlight,
    Forall P (spans hl) -> Forall P block ->
    Forall P (spans (foldl pushOrMergeSpan hl block)).
Proof.
  intros Hext. induction block as [|sp block IH]; intros hl Hall Hblock; simpl.
  - exact Hall.
  - apply Forall_cons in Hblock as [Hsp Hblock].
    apply IH; [|exact Hblock].
    apply pushOrMergeSpan_Forall; auto.
Qed.

Section LineInvariants.
Context {regex_type : RegexType} {engine : RegexEngine}.
Variable m_rule : SyntaxRule.
Variable m_config : HighlightConfig.

Lemma emitted_spans_stamped (info : TextLineInfo) (st : Z) (mr : MatchResult) :
  Forall (span_stamped (li_line info) (start_char_offset info))
         (emitted_spans m_rule m_config info st mr).
Proof.
  unfold emitted_spans.
  destruct (sub_spans mr) as [|s ss]; [destruct (capture_groups mr) as [|c cs]|].
  - repeat constructor; simpl; lia.
  - apply Forall_forall. intros x Hx. apply list_elem_of_In, in_map_iff in Hx.
    destruct Hx as (g & <- & _). repeat split; simpl; lia.
  - apply Forall_forall. intros x Hx. apply list_elem_of_In, in_map_iff in Hx.
    destruct Hx as (g & <- & _). repeat split.
Qed.

(** A property of spans that the emitted spans have and the merge keeps
    holds for the spans of the line. *)
Lemma analyzeLine_Forall (P : TokenSpan -> Prop) (text : string)
    (info : TextLineInfo) (r : LineAnalyzeResult) :
  (forall last span, P last -> P span -> P (extend_end last span)) ->
  (forall st mr, Forall P (emitted_spans m_rule m_config info st mr)) ->
  analyzeLine m_rule m_config text info = Done r ->
  Forall P (spans (highlight r)).
Proof.
  intros Hext Hemit. unfold analyzeLine, analyzeLine_fuel.
  destruct text as [|a text]; [intros [= <-]; constructor|].
  destruct (scan_loop _ _ _ _ _ _ _) as [s'|e] eqn:Hloop; [|discriminate].
  rewrite bind_Done. unfold finish_line. intros [= <-]. simpl.
  refine (scan_loop_inv m_rule m_config (fun s => Forall P (spans (scan_highlight s)))
            _ _ _ _ _ _ s' _ Hloop); [|constructor].
  intros s1 s2 H1 _. unfold scan_step.
  destruct (matchAtPosition _ _ _ _ _) as [mr|e]; [|discriminate].
  rewrite bind_Done.
  destruct (matched mr); simpl; intros [= <-]; simpl; [|exact H1].
  rewrite addLineHighlightResult_emitted.
  apply foldl_pushOrMergeSpan_Forall; auto.
Qed.

(** Every span of the LineHighlight that analyzeLine returns carries the
    line and the start offset of the call. *)
Lemma analyzeLine_stamped (text : string) (info : TextLineInfo)
    (r : LineAnalyzeResult) :
  analyzeLine m_rule m_config text info = Done r ->
  Forall (span_stamped (li_line info) (start_char_offset info)) (spans (highlight r)).
Proof.
  apply analyzeLine_Forall.
  - apply span_stamped_extend_end.
  - intros st mr. apply emitted_spans_stamped.
Qed.

(** The merger leaves nothing to fuse in the LineHighlight of a line. *)
Lemma analyzeLine_closed (text : string) (info : TextLineInfo)
    (r : LineAnalyzeResult) :
  analyzeLine m_rule m_config text info = Done r ->
  merge_closed (spans (highlight r)).
Proof.
  unfold analyzeLine, analyzeLine_fuel.
  destruct text as [|a text]; [intros [= <-]; apply merge_closed_nil|].
  destruct (scan_loop _ _ _ _ _ _ _) as [s'|e] eqn:Hloop; [|discriminate].
  rewrite bind_Done. unfold finish_line. intros [= <-]. simpl.
  refine (scan_loop_inv m_rule m_config (fun s => merge_closed (spans (scan_highlight s)))
            _ _ _ _ _ _ s' _ Hloop); [|apply merge_closed_nil].
  intros s1 s2 H1 _. unfold scan_step.
  destruct (matchAtPosition _ _ _ _ _) as [mr|e]; [|discriminate].
  rewrite bind_Done.
  destruct (matched mr); simpl; intros [= <-]; simpl; [|exact H1].
  rewrite addLineHighlightResult_emitted.
  apply (foldl_pushOrMergeSpan_merge_closed (fun x => x)). exact H1.
Qed.

(** The character count that analyzeLine reports is the one of the text. *)
Lemma analyzeLine_char_count (text : string) (info : TextLineInfo)
    (r : LineAnalyzeResult) :
  analyzeLine m_rule m_config text info = Done r ->
  char_count r = countChars text.
Proof.
  unfold analyzeLine, analyzeLine_fuel.
  destruct text as [|a text]; [intros [= <-]; reflexivity|].
  destruct (scan_loop _ _ _ _ _ _ _) as [s'|e]; [|discriminate].
  rewrite bind_Done. unfold finish_line. intros [= <-]. reflexivity.
Qed.

(** X1. The LineHighlight of a line.  When analyzeLine returns, every
    span of its LineHighlight names the line of the call in both positions
    and has as indices the start offset of the call plus its columns, merged
    spans included; no two neighbouring spans are left that the merger would
    fuse (the first ending in the column where the second starts, with the
    same style); and the character count reported is the one of the text. *)
Theorem analyzeLine_highlight_invariants (text : string) (info : TextLineInfo)
    (r : LineAnalyzeResult) :
  analyzeLine m_rule m_config text info = Done r ->
  Forall (span_stamped (li_line info) (start_char_offset info)) (spans (highlight r))
  /\ merge_closed (spans (highlight r))
  /\ char_count r = countChars text.
Proof.
  intros Hr. split; [exact (analyzeLine_stamped text info r Hr)|].
  split; [exact (analyzeLine_closed text info r Hr)|].
  exact (analyzeLine_char_count text info r Hr).
Qed.

End LineInvariants.

Lemma analyzeLine_highlight_invariants_witness :
  exists r : LineAnalyzeResult,
    analyzeLine (engine := Toy.engine) Samples.comment_grammar Samples.config
      "a/*b*/c" (mkTextLineInfo 3 0 40) = Done r
    /\ spans (highlight r) <> []
    /\ Forall (span_stamped 3 40) (spans (highlight r))
    /\ merge_closed (spans (highlight r))
    /\ char_count r = 7%nat.
Proof.
  eexists.
  split; [vm_compute; reflexivity|].
  split; [discriminate|].
  apply (analyzeLine_highlight_invariants (engine := Toy.engine)
           Samples.comment_grammar Samples.config "a/*b*/c" (mkTextLineInfo 3 0 40)).
  vm_compute. reflexivity.
Defined.

(** ** The full analysis *)

Section FullAnalysisFacts.
Context {regex_type : RegexType} {engine : RegexEngine}
        {D : Type} {buffer : DocumentBuffer D}.
Variable m_rule : SyntaxRule.
Variable m_config : HighlightConfig.

Lemma seed_state_insert_ge (S : list Z) (i j : nat) (x : Z) :
  (j <= i)%nat -> seed_state (<[i := x]> S) j = seed_state S j.
Proof.
  intros Hle. unfold seed_state.
  destruct (0 <? j)%nat eqn:Hj; [|reflexivity].
  apply Nat.ltb_lt in Hj. apply vec_at_insert_ne. lia.
Qed.

Lemma seed_state_succ (S : list Z) (i : nat) (x : Z) :
  (i < length S)%nat -> seed_state (<[i := x]> S) (Datatypes.S i) = x.
Proof.
  intros Hi. unfold seed_state. simpl.
  replace (i - 0)%nat with i by lia. apply vec_at_insert_eq. exact Hi.
Qed.

Lemma line_result_at_ext (doc : D) (S S' : list Z) (L L' : list LineHighlight)
    (j : nat) :
  seed_state S' j = seed_state S j -> S' !! j = S !! j -> L' !! j = L !! j ->
  line_result_at m_rule m_config doc S L j ->
  line_result_at m_rule m_config doc S' L' j.
Proof.
  intros Hseed HS HL (r & Hr & Hs & Hl).
  exists r. rewrite Hseed, HS, HL. auto.
Qed.

Lemma full_step_inv (doc : D) (s s' : PassState) :
  full_loop_inv m_rule m_config doc s -> (ps_line s < length (ps_states s))%nat ->
  full_step m_rule m_config doc s = Done s' ->
  full_loop_inv m_rule m_config doc s'
  /\ ps_line s' = S (ps_line s)
  /\ length (ps_states s') = length (ps_states s).
Proof.
  intros (Hlen & Hlsi & Hcur & Hres) Hbound. unfold full_step.
  destruct (analyzeLine _ _ _ _) as [r|e] eqn:Hr; [|discriminate].
  rewrite bind_Done. intros [= <-].
  split; [|split; [reflexivity|apply length_insert]].
  unfold full_loop_inv. simpl.
  split; [rewrite length_app; simpl; lia|].
  split; [rewrite Hlsi, (analyzeLine_char_count _ _ _ _ _ Hr); reflexivity|].
  split; [symmetry; apply seed_state_succ; exact Hbound|].
  intros j Hj. destruct (decide (j = ps_line s)) as [->|Hne].
  - exists r. rewrite seed_state_insert_ge by lia.
    rewrite <- Hcur, <- Hlsi. split; [exact Hr|]. split.
    + apply list_lookup_insert_eq. exact Hbound.
    + rewrite lookup_app_r by lia. rewrite Hlen, Nat.sub_diag. reflexivity.
  - apply (line_result_at_ext doc (ps_states s) _ (ps_lines s)).
    + apply seed_state_insert_ge. lia.
    + apply list_lookup_insert_ne. lia.
    + apply lookup_app_l. lia.
    + apply Hres. lia.
Qed.

Lemma full_loop_spec (doc : D) (todo : nat) :
  forall s s' : PassState,
    full_loop_inv m_rule m_config doc s -> (ps_line s + todo <= length (ps_states s))%nat ->
    full_loop m_rule m_config todo doc s = Done s' ->
    full_loop_inv m_rule m_config doc s'
    /\ ps_line s' = (ps_line s + todo)%nat
    /\ length (ps_states s') = length (ps_states s).
Proof.
  induction todo as [|todo IH]; intros s s' Hinv Hbound; simpl.
  - intros [= <-]. split; [exact Hinv|]. split; [lia|reflexivity].
  - destruct (full_step m_rule m_config doc s) as [s1|e] eqn:Hstep; [|discriminate].
    rewrite bind_Done. intros Hloop.
    destruct (full_step_inv doc s s1 Hinv ltac:(lia) Hstep) as (Hinv1 & Hline1 & Hlen1).
    destruct (IH s1 s' Hinv1 ltac:(lia) Hloop) as (Hinv' & Hline' & Hlen').
    split; [exact Hinv'|]. split; lia.
Qed.

Lemma length_vec_resize {A : Type} (n : nat) (x : A) (v : list A) :
  length (vec_resize n x v) = n.
Proof.
  unfold vec_resize. rewrite length_app, length_take, length_replicate. lia.
Qed.

(** What analyzeHighlight returns is the state in which its loop over the
    lines ends, and that state fulfils the invariant of the loop at the
    line count. *)
Lemma analyzeHighlight_loop_end (a a' : InternalDocumentAnalyzer D) :
  analyzeHighlight m_rule m_config a = Done a' ->
  exists s,
    a' = mkInternalDocumentAnalyzer (m_document a) (ps_states s)
           (mkDocumentHighlight (ps_lines s))
    /\ full_loop_inv m_rule m_config (m_document a) s
    /\ ps_line s = getLineCount (m_document a)
    /\ length (ps_states s) = getLineCount (m_document a).
Proof.
  unfold analyzeHighlight.
  destruct (full_loop _ _ _ _ _) as [s|e] eqn:Hloop; [|discriminate].
  rewrite bind_Done. intros [= <-]. exists s. split; [reflexivity|].
  assert (Hinit : full_loop_inv m_rule m_config (m_document a)
            (mkPassState 0 kDefaultStateId 0
               (vec_resize (getLineCount (m_document a)) 0 (m_line_syntax_states a))
               [] false)).
  { split; [reflexivity|]. split; [reflexivity|]. split; [reflexivity|].
    simpl. intros j Hj. lia. }
  assert (Hbound : (0 + getLineCount (m_document a)
                    <= length (vec_resize (getLineCount (m_document a)) 0%Z
                                 (m_line_syntax_states a)))%nat)
    by (rewrite length_vec_resize; lia).
  destruct (full_loop_spec (m_document a) (getLineCount (m_document a)) _ s
              Hinit Hbound Hloop) as (Hinv & Hline & Hlens).
  simpl in Hline, Hlens. rewrite length_vec_resize in Hlens.
  split; [exact Hinv|]. split; [lia|exact Hlens].
Qed.

(** X2. The full analysis line by line.  When analyzeHighlight
    returns, it keeps the document, the vector of states and the
    DocumentHighlight have one entry for every line of the document, and the
    entries of every line are the end state and the LineHighlight of
    analyzeLine on the text of the line, called with the number of the line,
    the end state of the line before it (the default state for line 0) and
    the offset where the line starts (the characters and line endings of
    the lines before it), whatever states and highlight the analyzer had
    before. *)
Theorem analyzeHighlight_line_by_line (a a' : InternalDocumentAnalyzer D) :
  analyzeHighlight m_rule m_config a = Done a' ->
  m_document a' = m_document a
  /\ length (m_line_syntax_states a') = getLineCount (m_document a)
  /\ length (lines (m_highlight a')) = getLineCount (m_document a)
  /\ forall j, (j < getLineCount (m_document a))%nat ->
               line_result_at m_rule m_config (m_document a)
                 (m_line_syntax_states a') (lines (m_highlight a')) j.
Proof.
  intros Ha.
  destruct (analyzeHighlight_loop_end a a' Ha) as (s & -> & (Hlen & _ & _ & Hres) & Hline & Hlens).
  simpl. split; [reflexivity|]. split; [exact Hlens|]. split; [lia|].
  intros j Hj. apply Hres. lia.
Qed.

(** X3. Index consistency and merge closure of the full analysis.
    In the DocumentHighlight that analyzeHighlight returns, every span in
    the LineHighlight of line [j] names the line [j] in both positions and
    has as indices the character offset where line [j] starts in the
    document plus its columns, and no LineHighlight has two neighbouring
    spans that the merger would fuse. *)
Theorem analyzeHighlight_spans_stamped (a a' : InternalDocumentAnalyzer D)
    (j : nat) (l : LineHighlight) :
  analyzeHighlight m_rule m_config a = Done a' ->
  lines (m_highlight a') !! j = Some l ->
  Forall (span_stamped j (doc_line_start (m_document a) j)) (spans l)
  /\ merge_closed (spans l).
Proof.
  intros Ha Hl.
  destruct (analyzeHighlight_loop_end a a' Ha) as (s & -> & (Hlen & _ & _ & Hres) & Hline & _).
  simpl in Hl.
  pose proof (lookup_lt_Some _ _ _ Hl) as Hj. rewrite Hlen in Hj.
  destruct (Hres j Hj) as (r & Hr & _ & Hlr).
  assert (l = highlight r) by congruence. subst l.
  split.
  - apply (analyzeLine_stamped _ _ _ _ _ Hr).
  - apply (analyzeLine_closed _ _ _ _ _ Hr).
Qed.

End FullAnalysisFacts.

Lemma analyzeHighlight_line_by_line_witness :
  exists a' : InternalDocumentAnalyzer (list DocumentLine),
    analyzeHighlight (engine := Toy.engine) (buffer := Toy.buffer Toy.text_char_count)
      Samples.letter_grammar Samples.config
      (mkInternalDocumentAnalyzer Samples.four_lines [9; 9] (mkDocumentHighlight []))
    = Done a'
    /\ m_document a' = Samples.four_lines
    /\ length (m_line_syntax_states a') = 4%nat
    /\ length (lines (m_highlight a')) = 4%nat
    /\ forall j, (j < 4)%nat ->
                 line_result_at (engine := Toy.engine)
                   (buffer := Toy.buffer Toy.text_char_count)
                   Samples.letter_grammar Samples.config Samples.four_lines
                   (m_line_syntax_states a') (lines (m_highlight a')) j.
Proof.
  eexists.
  split; [vm_compute; reflexivity|].
  apply (analyzeHighlight_line_by_line (engine := Toy.engine)
           (buffer := Toy.buffer Toy.text_char_count)
           Samples.letter_grammar Samples.config
           (mkInternalDocumentAnalyzer Samples.four_lines [9; 9] (mkDocumentHighlight []))).
  vm_compute. reflexivity.
Defined.

Lemma analyzeHighlight_spans_stamped_witness :
  exists (a' : InternalDocumentAnalyzer (list DocumentLine)) (l : LineHighlight),
    Samples.analyzed Toy.text_char_count Samples.four_lines = Done a'
    /\ lines (m_highlight a') !! 2%nat = Some l
    /\ spans l <> []
    /\ Forall (span_stamped 2 3) (spans l)
    /\ merge_closed (spans l).
Proof.
  eexists. eexists.
  split; [vm_compute; reflexivity|].
  split; [vm_compute; reflexivity|].
  split; [discriminate|].
  eapply (analyzeHighlight_spans_stamped (engine := Toy.engine)
            (buffer := Toy.buffer Toy.text_char_count)
            Samples.letter_grammar Samples.config
            (Samples.fresh_analyzer Samples.four_lines) _ 2%nat).
  - vm_compute. reflexivity.
  - vm_compute. reflexivity.
Defined.


(** ** Layouts: analyzeLine apart from line number and offset *)

Lemma map_eq_snoc {A B : Type} (f : A -> B) (l : list A) (init : list A) (x : A) :
  map f l = map f (init ++ [x]) ->
  exists init' x', l = init' ++ [x'] /\ map f init' = map f init /\ f x' = f x.
Proof.
  rewrite map_app. intros Heq.
  apply map_eq_app in Heq as (l1 & l2 & -> & H1 & H2).
  destruct l2 as [|x' [|y l2]]; simpl in H2; try discriminate.
  pose proof (f_equal (hd (f x)) H2) as Hx. simpl in Hx. eauto.
Qed.

Lemma mergeable_layout (a a' b b' : TokenSpan) :
  span_layout a = span_layout a' -> span_layout b = span_layout b' ->
  mergeable a b = mergeable a' b'.
Proof.
  unfold span_layout, mergeable. intros [= H1 H2 H3 H4 H5 H6 H7] [= G1 G2 G3 G4 G5 G6 G7].
  rewrite H2, H3, G1, G3. reflexivity.
Qed.

Lemma extend_end_layout (a a' b b' : TokenSpan) :
  span_layout a = span_layout a' -> span_layout b = span_layout b' ->
  span_layout (extend_end a b) = span_layout (extend_end a' b').
Proof.
  unfold span_layout, extend_end. simpl.
  intros [= H1 H2 H3 H4 H5 H6 H7] [= G1 G2 G3 G4 G5 G6 G7].
  congruence.
Qed.

Lemma pushOrMergeSpan_layout (hl1 hl2 : LineHighlight) (sp1 sp2 : TokenSpan) :
  same_layout hl1 hl2 -> span_layout sp1 = span_layout sp2 ->
  same_layout (pushOrMergeSpan hl1 sp1) (pushOrMergeSpan hl2 sp2).
Proof.
  unfold same_layout. destruct hl1 as [ss1], hl2 as [ss2]. simpl.
  intros Hss Hsp.
  destruct ss1 as [|x1 init1 _] using rev_ind.
  - destruct ss2; [|discriminate]. rewrite !pushOrMergeSpan_nil. simpl. congruence.
  - symmetry in Hss. apply map_eq_snoc in Hss as (init2 & x2 & -> & Hinit & Hx).
    rewrite !pushOrMergeSpan_snoc.
    rewrite (mergeable_layout x2 x1 sp2 sp1) by congruence.
    destruct (mergeable x1 sp1); rewrite !map_app; simpl.
    + rewrite Hinit, (extend_end_layout x1 x2 sp1 sp2) by congruence. reflexivity.
    + rewrite Hinit, Hx, Hsp. reflexivity.
Qed.

Lemma foldl_pushOrMergeSpan_layout (b1 : list TokenSpan) :
  forall (b2 : list TokenSpan) (hl1 hl2 : LineHighlight),
    same_layout hl1 hl2 -> map span_layout b1 = map span_layout b2 ->
    same_layout (foldl pushOrMergeSpan hl1 b1) (foldl pushOrMergeSpan hl2 b2).
Proof.
  induction b1 as [|x1 b1 IH]; intros [|x2 b2] hl1 hl2 Hhl Hb;
    try discriminate; [exact Hhl|].
  pose proof (f_equal (hd (span_layout x1)) Hb) as Hx.
  pose proof (f_equal (@tl _) Hb) as Ht.
  simpl in Hx, Ht. simpl. apply IH; [|exact Ht].
  apply pushOrMergeSpan_layout; assumption.
Qed.

Lemma outcome_rel_bind {A B : Type} (R : A -> A -> Prop) (Q : B -> B -> Prop)
    (m1 m2 : outcome A) (f1 f2 : A -> outcome B) :
  outcome_rel R m1 m2 ->
  (forall a1 a2, R a1 a2 -> outcome_rel Q (f1 a1) (f2 a2)) ->
  outcome_rel Q (m1 ≫= f1) (m2 ≫= f2).
Proof.
  destruct m1 as [a1|e1], m2 as [a2|e2]; simpl; intros HR Hf; try contradiction.
  - apply Hf. exact HR.
  - exact HR.
Qed.

Lemma outcome_rel_eq_refl {A : Type} (m : outcome A) : outcome_rel eq m m.
Proof. destruct m; reflexivity. Qed.

Section LayoutFacts.
Context {regex_type : RegexType} {engine : RegexEngine}.
Variable m_rule : SyntaxRule.
Variable m_config : HighlightConfig.

Lemma emitted_spans_layout (info1 info2 : TextLineInfo) (st : Z) (mr : MatchResult) :
  map span_layout (emitted_spans m_rule m_config info1 st mr)
  = map span_layout (emitted_spans m_rule m_config info2 st mr).
Proof.
  unfold emitted_spans.
  destruct (sub_spans mr) as [|s ss]; [destruct (capture_groups mr) as [|c cs]|].
  - reflexivity.
  - rewrite !map_map. reflexivity.
  - rewrite !map_map. reflexivity.
Qed.

Lemma scan_step_layout (text : string) (info1 info2 : TextLineInfo)
    (s1 s2 : ScanState) :
  same_scan_state s1 s2 ->
  outcome_rel same_scan_state
    (scan_step m_rule m_config text info1 s1)
    (scan_step m_rule m_config text info2 s2).
Proof.
  intros (Hpos & Hst & Hhl). unfold scan_step. rewrite Hpos, Hst.
  apply (outcome_rel_bind eq); [apply outcome_rel_eq_refl|].
  intros mr _ <-.
  destruct (matched mr); simpl.
  - split; [reflexivity|]. split; [reflexivity|]. simpl.
    rewrite !addLineHighlightResult_emitted.
    apply foldl_pushOrMergeSpan_layout; [exact Hhl|apply emitted_spans_layout].
  - split; [reflexivity|]. split; [reflexivity|exact Hhl].
Qed.

Lemma scan_loop_layout (text : string) (info1 info2 : TextLineInfo) (n fuel : nat) :
  forall s1 s2 : ScanState,
    same_scan_state s1 s2 ->
    outcome_rel same_scan_state
      (scan_loop m_rule m_config fuel text info1 n s1)
      (scan_loop m_rule m_config fuel text info2 n s2).
Proof.
  induction fuel as [|fuel IH]; intros s1 s2 Hs; simpl;
    destruct Hs as (Hpos & Hrest); rewrite Hpos;
    destruct (current_char_pos s2 <? n)%nat; simpl; try reflexivity;
    try (split; assumption).
  apply (outcome_rel_bind same_scan_state).
  - apply scan_step_layout. split; assumption.
  - apply IH.
Qed.

(** Two calls of analyzeLine on the same text from the same start state
    end the same way, up to the line numbers and indices of the spans. *)
Lemma analyzeLine_layout (text : string) (info1 info2 : TextLineInfo) :
  start_state info1 = start_state info2 ->
  outcome_rel same_line_result
    (analyzeLine m_rule m_config text info1)
    (analyzeLine m_rule m_config text info2).
Proof.
  intros Hst. unfold analyzeLine, analyzeLine_fuel.
  destruct text as [|a text]; simpl.
  - split; [exact Hst|]. split; reflexivity.
  - apply (outcome_rel_bind same_scan_state).
    + apply scan_loop_layout. rewrite Hst. repeat split.
    + intros s1 s2 (Hpos & Hcur & Hhl). unfold finish_line. rewrite Hcur.
      simpl. repeat split. exact Hhl.
Qed.

(** X4. analyzeLine apart from the line number and the start offset.
    Two calls of analyzeLine on the same text from the same start state end
    the same way: both fail alike, or both return, with the same end state,
    the same character count, and LineHighlights whose spans agree, one by
    one, in columns, style, state, goto_state, matched text and inline
    style.  The line number and the start offset of the call show in the
    line numbers and indices of the spans only. *)
Theorem analyzeLine_position_independent (text : string) (info1 info2 : TextLineInfo) :
  start_state info1 = start_state info2 ->
  match analyzeLine m_rule m_config text info1,
        analyzeLine m_rule m_config text info2 with
  | Done r1, Done r2 =>
      end_state r1 = end_state r2
      /\ char_count r1 = char_count r2
      /\ map span_layout (spans (highlight r1)) = map span_layout (spans (highlight r2))
  | Fail e1, Fail e2 => e1 = e2
  | _, _ => False
  end.
Proof.
  intros Hst. exact (analyzeLine_layout text info1 info2 Hst).
Qed.

End LayoutFacts.

Lemma analyzeLine_position_independent_witness :
  match analyzeLine (engine := Toy.engine) Samples.comment_grammar Samples.config
          "a/*b" (mkTextLineInfo 0 0 0),
        analyzeLine (engine := Toy.engine) Samples.comment_grammar Samples.config
          "a/*b" (mkTextLineInfo 7 0 120) with
  | Done r1, Done r2 =>
      end_state r1 = end_state r2
      /\ char_count r1 = char_count r2
      /\ map span_layout (spans (highlight r1)) = map span_layout (spans (highlight r2))
  | Fail e1, Fail e2 => e1 = e2
  | _, _ => False
  end.
Proof.
  apply (analyzeLine_position_independent (engine := Toy.engine)
           Samples.comment_grammar Samples.config "a/*b"
           (mkTextLineInfo 0 0 0) (mkTextLineInfo 7 0 120)).
  reflexivity.
Defined.

(** ** The vectors after the patch *)

Section ResizeFacts.
Context {A : Type}.
Variable range : TextRange.
Variable line_change : Z.
Variable x : A.
Variable v : list A.
Hypothesis Hend : (line (end_ range) < length v)%nat.
Hypothesis Hfirst : 0 <= Z.of_nat (line (end_ range)) + line_change.

Lemma resize_for_patch_length :
  Z.of_nat (length (resize_for_patch range line_change x v))
  = Z.of_nat (length v) + line_change.
Proof.
  unfold resize_for_patch.
  destruct (line_change <? 0) eqn:Hneg.
  - apply Z.ltb_lt in Hneg. unfold vec_erase.
    rewrite length_app, length_take, length_drop. lia.
  - apply Z.ltb_ge in Hneg. destruct (0 <? line_change) eqn:Hpos.
    + apply Z.ltb_lt in Hpos. unfold vec_insert.
      rewrite !length_app, length_take, length_replicate, length_drop. lia.
    + apply Z.ltb_ge in Hpos. lia.
Qed.

(** The entries up to the line where the change ends keep their place. *)
Lemma resize_for_patch_before (j : nat) :
  (j <= line (end_ range))%nat ->
  Z.of_nat j <= Z.of_nat (line (end_ range)) + line_change ->
  resize_for_patch range line_change x v !! j = v !! j.
Proof.
  intros Hj Hj'. unfold resize_for_patch.
  destruct (line_change <? 0) eqn:Hneg.
  - apply Z.ltb_lt in Hneg. unfold vec_erase.
    rewrite lookup_app_l by (rewrite length_take; lia).
    apply lookup_take_lt. lia.
  - destruct (0 <? line_change) eqn:Hpos; [|reflexivity].
    unfold vec_insert.
    rewrite lookup_app_l by (rewrite length_take; lia).
    apply lookup_take_lt. lia.
Qed.

(** The entries after it are the old ones, moved by the line change. *)
Lemma resize_for_patch_after (j : nat) :
  Z.of_nat (line (end_ range)) + line_change < Z.of_nat j ->
  resize_for_patch range line_change x v !! j
  = v !! Z.to_nat (Z.of_nat j - line_change).
Proof.
  intros Hj. unfold resize_for_patch.
  destruct (line_change <? 0) eqn:Hneg.
  - apply Z.ltb_lt in Hneg. unfold vec_erase.
    rewrite lookup_app_r by (rewrite length_take; lia).
    rewrite lookup_drop, length_take. f_equal. lia.
  - apply Z.ltb_ge in Hneg. destruct (0 <? line_change) eqn:Hpos.
    + apply Z.ltb_lt in Hpos. unfold vec_insert.
      rewrite lookup_app_r by (rewrite length_take; lia).
      rewrite lookup_app_r by (rewrite length_take, length_replicate; lia).
      rewrite lookup_drop, length_take, length_replicate. f_equal. lia.
    + apply Z.ltb_ge in Hpos. f_equal. lia.
Qed.

End ResizeFacts.

Lemma int32_of_small (z : Z) : - 2 ^ 31 <= z < 2 ^ 31 -> int32_of z = z.
Proof.
  intros Hz. unfold int32_of.
  rewrite Z.mod_small by lia. lia.
Qed.

Lemma change_end_line_of_spec (range : TextRange) (line_change : Z) :
  Z.of_nat (line (end_ range)) < 2 ^ 31 ->
  - 2 ^ 31 <= line_change < 2 ^ 31 ->
  0 <= Z.of_nat (line (end_ range)) + line_change ->
  Z.of_nat (change_end_line_of range line_change)
  = Z.of_nat (line (end_ range)) + line_change.
Proof.
  intros He Hlc Hge. unfold change_end_line_of, size_of_int.
  rewrite int32_of_small by lia.
  rewrite Z.mod_small by lia. lia.
Qed.

(** ** The incremental analysis agrees with the full analysis *)

Lemma same_layout_refl (l : LineHighlight) : same_layout l l.
Proof. reflexivity. Qed.

Lemma same_layout_sym (l1 l2 : LineHighlight) : same_layout l1 l2 -> same_layout l2 l1.
Proof. unfold same_layout. congruence. Qed.

Lemma same_layout_trans (l1 l2 l3 : LineHighlight) :
  same_layout l1 l2 -> same_layout l2 l3 -> same_layout l1 l3.
Proof. unfold same_layout. congruence. Qed.

Lemma Forall2_insert_same {A : Type} (R : A -> A -> Prop) (l : list A) :
  (forall y, R y y) ->
  forall (i : nat) (x : A),
    (forall y, l !! i = Some y -> R x y) -> Forall2 R (<[i := x]> l) l.
Proof.
  intros Hrefl. induction l as [|a l IH]; intros i x Hx; simpl.
  - constructor.
  - destruct i as [|i]; simpl.
    + constructor; [apply Hx; reflexivity|]. clear -Hrefl. induction l; constructor; auto.
    + constructor; [apply Hrefl|]. apply IH. exact Hx.
Qed.

Lemma Forall2_same_layout_trans (l1 l2 l3 : list LineHighlight) :
  Forall2 same_layout l1 l2 -> Forall2 same_layout l2 l3 -> Forall2 same_layout l1 l3.
Proof.
  intros H12. revert l3. induction H12 as [|x y l1 l2 Hxy H12 IH]; intros l3 H23.
  - inversion H23. constructor.
  - inversion H23 as [|y' z l2' l3' Hyz H23']; subst.
    constructor; [eapply same_layout_trans; eauto|apply IH; assumption].
Qed.

Lemma Forall2_same_layout_refl (l : list LineHighlight) : Forall2 same_layout l l.
Proof. induction l; constructor; [apply same_layout_refl|assumption]. Qed.

Lemma seed_state_zero (S : list Z) : seed_state S 0 = kDefaultStateId.
Proof. reflexivity. Qed.

Lemma seed_state_pos (S : list Z) (j : nat) :
  (0 < j)%nat -> seed_state S j = vec_at 0 S (j - 1).
Proof.
  intros Hj. unfold seed_state.
  destruct (0 <? j)%nat eqn:H0; [reflexivity|]. apply Nat.ltb_ge in H0. lia.
Qed.

Lemma vec_at_eq_lookup {A : Type} (d : A) (v w : list A) (i : nat) :
  (i < length v)%nat -> (i < length w)%nat ->
  vec_at d v i = vec_at d w i -> v !! i = w !! i.
Proof.
  intros Hv Hw. unfold vec_at.
  destruct (lookup_lt_is_Some_2 v i Hv) as [a ->].
  destruct (lookup_lt_is_Some_2 w i Hw) as [b ->]. simpl. congruence.
Qed.

Section IncrementalAgreement.
Context {regex_type : RegexType} {engine : RegexEngine}
        {D : Type} {buffer : DocumentBuffer D}.
Variable m_rule : SyntaxRule.
Variable m_config : HighlightConfig.

(** The result of a line carries over to a line with the same text, the
    same state in front of it, the same end state and a LineHighlight of
    the same layout. *)
Lemma line_layout_at_transfer (d1 d2 : D) (S1 S2 : list Z)
    (L1 L2 : list LineHighlight) (j1 j2 : nat) :
  text (getLine d2 j2) = text (getLine d1 j1) ->
  seed_state S2 j2 = seed_state S1 j1 ->
  S2 !! j2 = S1 !! j1 ->
  (forall l1, L1 !! j1 = Some l1 -> exists l2, L2 !! j2 = Some l2 /\ same_layout l2 l1) ->
  line_layout_at m_rule m_config d1 S1 L1 j1 ->
  line_layout_at m_rule m_config d2 S2 L2 j2.
Proof.
  intros Htext Hseed HS HL (r1 & Hr1 & HS1 & l1 & HL1 & Hl1).
  pose proof (analyzeLine_layout m_rule m_config (text (getLine d1 j1))
                (mkTextLineInfo j1 (seed_state S1 j1) (doc_line_start d1 j1))
                (mkTextLineInfo j2 (seed_state S2 j2) (doc_line_start d2 j2))
                (eq_sym Hseed)) as Hrel.
  rewrite Hr1, <- Htext in Hrel.
  destruct (analyzeLine m_rule m_config (text (getLine d2 j2)) _) as [r2|e] eqn:Hr2;
    [|contradiction].
  destruct Hrel as (Hend & _ & Hhl).
  exists r2. split; [exact Hr2|]. split; [rewrite HS, HS1, Hend; reflexivity|].
  destruct (HL l1 HL1) as (l2 & HL2 & Hl2).
  exists l2. split; [exact HL2|].
  eapply same_layout_trans; [exact Hl2|]. eapply same_layout_trans; eauto.
Qed.

Lemma line_result_at_layout (doc : D) (S : list Z) (L : list LineHighlight) (j : nat) :
  line_result_at m_rule m_config doc S L j -> line_layout_at m_rule m_config doc S L j.
Proof.
  intros (r & Hr & HS & HL). exists r. split; [exact Hr|]. split; [exact HS|].
  exists (highlight r). split; [exact HL|apply same_layout_refl].
Qed.

(** One iteration of the re-tokenization keeps the invariant. *)
Lemma retokenize_step_keeps_inv (doc : D) (cel first : nat) (s s1 : PassState) :
  retokenize_inv m_rule m_config doc first s ->
  (ps_line s < length (ps_states s))%nat ->
  (ps_line s < length (ps_lines s))%nat ->
  retokenize_step m_rule m_config doc cel s = Done s1 ->
  retokenize_inv m_rule m_config doc first s1.
Proof.
  intros (Hcur & Hres) Hls Hll Hstep.
  destruct (retokenize_step_inv m_rule m_config doc cel s s1 Hstep) as (r & Hr & ->).
  unfold retokenize_inv. simpl. split.
  - symmetry. apply seed_state_succ. exact Hls.
  - intros j Hj. destruct (decide (j = ps_line s)) as [->|Hne].
    + pose proof (analyzeLine_layout m_rule m_config (text (getLine doc (ps_line s)))
                    (mkTextLineInfo (ps_line s) (ps_current_state s) (ps_line_start_index s))
                    (mkTextLineInfo (ps_line s)
                       (seed_state (<[ps_line s := end_state r]> (ps_states s)) (ps_line s))
                       (doc_line_start doc (ps_line s)))) as Hrel.
      rewrite Hr in Hrel.
      destruct (analyzeLine m_rule m_config (text (getLine doc (ps_line s)))
                  (mkTextLineInfo (ps_line s)
                     (seed_state (<[ps_line s := end_state r]> (ps_states s)) (ps_line s))
                     (doc_line_start doc (ps_line s)))) as [r2|e] eqn:Hr2.
      * destruct Hrel as (Hend & _ & Hhl).
        { simpl. rewrite seed_state_insert_ge by lia. exact Hcur. }
        exists r2. split; [exact Hr2|]. split.
        -- rewrite list_lookup_insert_eq by exact Hls. congruence.
        -- exists (highlight r). split; [|exact Hhl].
           apply list_lookup_insert_eq. exact Hll.
      * exfalso. apply Hrel. simpl. rewrite seed_state_insert_ge by lia. exact Hcur.
    + apply (line_layout_at_transfer doc doc (ps_states s) _ (ps_lines s) _ j j).
      * reflexivity.
      * apply seed_state_insert_ge. lia.
      * apply list_lookup_insert_ne. lia.
      * intros l1 Hl1. exists l1. split; [|apply same_layout_refl].
        rewrite list_lookup_insert_ne by lia. exact Hl1.
      * apply Hres. lia.
Qed.

Lemma retokenize_loop_keeps_inv (doc : D) (cel first : nat) (todo : nat) :
  forall s s' : PassState,
    retokenize_inv m_rule m_config doc first s ->
    (ps_line s + todo <= length (ps_states s))%nat ->
    (ps_line s + todo <= length (ps_lines s))%nat ->
    retokenize_loop m_rule m_config todo doc cel s = Done s' ->
    retokenize_inv m_rule m_config doc first s'.
Proof.
  induction todo as [|todo IH]; intros s s' Hinv Hls Hll; simpl.
  - intros [= <-]. exact Hinv.
  - destruct (ps_stable s); [intros [= <-]; exact Hinv|].
    destruct (retokenize_step m_rule m_config doc cel s) as [s1|e] eqn:Hstep;
      [|discriminate].
    rewrite bind_Done. intros Hloop.
    pose proof (retokenize_step_keeps_inv doc cel first s s1 Hinv ltac:(lia) ltac:(lia) Hstep)
      as Hinv1.
    destruct (retokenize_step_inv m_rule m_config doc cel s s1 Hstep) as (r & _ & Hs1).
    apply (IH s1 s' Hinv1); [| |exact Hloop];
      rewrite Hs1; simpl; rewrite length_insert; lia.
Qed.

(** The fix-up of the indices leaves the states alone and keeps the layout
    of every LineHighlight. *)
Lemma fixup_loop_layout (doc : D) (todo : nat) :
  forall s : PassState,
    ps_states (fixup_loop todo doc s) = ps_states s
    /\ Forall2 same_layout (ps_lines (fixup_loop todo doc s)) (ps_lines s).
Proof.
  induction todo as [|todo IH]; intros s; simpl.
  - split; [reflexivity|apply Forall2_same_layout_refl].
  - destruct (IH (fixup_step doc s)) as (HS & HL).
    split; [rewrite HS; reflexivity|].
    eapply Forall2_same_layout_trans; [exact HL|].
    unfold fixup_step. simpl.
    apply Forall2_insert_same; [apply same_layout_refl|].
    intros y Hy. unfold vec_at. rewrite Hy. simpl.
    unfold same_layout. simpl. rewrite map_map. reflexivity.
Qed.

End IncrementalAgreement.
Section EditAgreement.
Context {regex_type : RegexType} {engine : RegexEngine}
        {D : Type} {buffer : DocumentBuffer D}.
Variable m_rule : SyntaxRule.
Variable m_config : HighlightConfig.

Lemma fixup_keeps_agreement (doc : D) (todo : nat) (s : PassState) :
  agrees_with_full m_rule m_config doc (ps_states s) (ps_lines s) ->
  agrees_with_full m_rule m_config doc
    (ps_states (fixup_loop todo doc s)) (ps_lines (fixup_loop todo doc s)).
Proof.
  intros (HlS & HlL & Hres).
  destruct (fixup_loop_layout doc todo s) as (HS & HL).
  split; [rewrite HS; exact HlS|].
  split; [rewrite (Forall2_length _ _ _ HL); exact HlL|].
  intros j Hj.
  apply (line_layout_at_transfer m_rule m_config doc doc (ps_states s) _ (ps_lines s) _ j j).
  - reflexivity.
  - rewrite HS. reflexivity.
  - rewrite HS. reflexivity.
  - intros l1 Hl1. destruct (Forall2_lookup_r _ _ _ _ _ HL Hl1) as (l2 & Hl2 & Hsame).
    exists l2. split; assumption.
  - apply Hres. exact Hj.
Qed.

(** After the re-tokenization of an edit, the vectors agree with the full
    analysis of the patched document. *)
Lemma retokenize_keeps_agreement (doc doc' : D) (range : TextRange) (line_change : Z)
    (S : list Z) (L : list LineHighlight) (idx : nat) (s : PassState) :
  agrees_with_full m_rule m_config doc S L ->
  edit_well_formed doc doc' range line_change ->
  retokenize_loop m_rule m_config (getLineCount doc' - line (start range)) doc'
    (change_end_line_of range line_change)
    (mkPassState (line (start range))
       (seed_state (resize_for_patch range line_change 0 S) (line (start range)))
       idx
       (resize_for_patch range line_change 0 S)
       (resize_for_patch range line_change LineHighlight_default L) false)
  = Done s ->
  agrees_with_full m_rule m_config doc' (ps_states s) (ps_lines s).
Proof.
  intros (HlS & HlL & Hres) (Hcount & Hse & Hen & He31 & Hlc31 & Hsl & Hbefore & Hafter) Hloop.
  set (sl := line (start range)) in *.
  set (el := line (end_ range)) in *.
  set (S0 := resize_for_patch range line_change 0 S) in *.
  set (L0 := resize_for_patch range line_change LineHighlight_default L) in *.
  set (s0 := mkPassState sl (seed_state S0 sl) idx S0 L0 false) in *.
  assert (Hel0 : 0 <= Z.of_nat el + line_change) by lia.
  assert (HendS : (el < length S)%nat) by lia.
  assert (HendL : (el < length L)%nat) by lia.
  pose proof (resize_for_patch_length range line_change 0 S HendS Hel0) as HlenS0.
  pose proof (resize_for_patch_length range line_change LineHighlight_default L HendL Hel0)
    as HlenL0.
  fold S0 in HlenS0. fold L0 in HlenL0.
  pose proof (change_end_line_of_spec range line_change He31 Hlc31 Hel0) as Hcel.
  fold el in Hcel.
  assert (HbS : (ps_line s0 + (getLineCount doc' - sl) <= length (ps_states s0))%nat)
    by (simpl; lia).
  assert (HbL : (ps_line s0 + (getLineCount doc' - sl) <= length (ps_lines s0))%nat)
    by (simpl; lia).
  destruct (retokenize_loop_spec m_rule m_config doc' _ _ s0 s Hloop eq_refl HbS HbL)
    as (Hrange & HlS' & HlL' & Hkeep & Hstable & Hprog & Hnostab).
  assert (Hinv0 : retokenize_inv m_rule m_config doc' sl s0).
  { split; [reflexivity|]. simpl. intros j Hj. lia. }
  pose proof (retokenize_loop_keeps_inv m_rule m_config doc' _ sl _ s0 s Hinv0 HbS HbL Hloop)
    as (_ & Hmid).
  simpl in Hrange, HlS', HlL', Hkeep, Hstable, Hprog, Hnostab.
  split; [lia|]. split; [lia|].
  intros j Hj.
  destruct (decide (j < sl)%nat) as [Hlt|Hge].
  - (* a line before the edit *)
    apply (line_layout_at_transfer m_rule m_config doc doc' S _ L _ j j).
    + apply Hbefore. exact Hlt.
    + destruct j as [|j]; [reflexivity|].
      rewrite !seed_state_pos by lia. unfold vec_at.
      replace (Datatypes.S j - 1)%nat with j by lia.
      rewrite (proj1 (Hkeep j ltac:(lia))).
      unfold S0. rewrite resize_for_patch_before by lia. reflexivity.
    + rewrite (proj1 (Hkeep j ltac:(lia))).
      unfold S0. apply resize_for_patch_before; lia.
    + intros l1 Hl1. exists l1. split; [|apply same_layout_refl].
      rewrite (proj2 (Hkeep j ltac:(lia))).
      unfold L0. rewrite resize_for_patch_before by lia. exact Hl1.
    + apply Hres. lia.
  - destruct (decide (j < ps_line s)%nat) as [Hin|Hout].
    + apply Hmid. lia.
    + (* a line after the one where the re-tokenization stopped *)
      assert (Hst : ps_stable s = true).
      { destruct (ps_stable s) eqn:E; [reflexivity|]. specialize (Hnostab eq_refl). lia. }
      specialize (Hprog Hst).
      set (k := (ps_line s - 1)%nat).
      assert (Hk : stable_at (change_end_line_of range line_change) s0 s k = true).
      { apply Hstable; [unfold k; lia|]. split; [exact Hst|unfold k; lia]. }
      unfold stable_at in Hk. simpl in Hk.
      apply andb_prop in Hk as (Hk & _). apply andb_prop in Hk as (Hcelk & HkS).
      apply Nat.ltb_lt in Hcelk. apply Z.eqb_eq in HkS.
      set (j1 := Z.to_nat (Z.of_nat j - line_change)).
      apply (line_layout_at_transfer m_rule m_config doc doc' S _ L _ j1 j).
      * apply Hafter; lia.
      * rewrite !seed_state_pos by (unfold j1; lia).
        destruct (decide (j - 1 = k)%nat) as [Hjk|Hjk].
        -- rewrite Hjk, <- HkS. unfold vec_at, S0.
           rewrite resize_for_patch_after by lia.
           do 2 f_equal. unfold j1. lia.
        -- unfold vec_at. rewrite (proj1 (Hkeep (j - 1)%nat ltac:(unfold k in Hjk; lia))).
           unfold S0. rewrite resize_for_patch_after by (unfold k in Hjk; lia).
           do 2 f_equal. unfold j1. lia.
      * rewrite (proj1 (Hkeep j ltac:(lia))).
        unfold S0. apply resize_for_patch_after; lia.
      * intros l1 Hl1. exists l1. split; [|apply same_layout_refl].
        rewrite (proj2 (Hkeep j ltac:(lia))).
        unfold L0. rewrite resize_for_patch_after by lia. exact Hl1.
      * apply Hres. unfold j1. lia.
Qed.

(** One edit through analyzeHighlightIncremental keeps the agreement with
    the full analysis, for the patched document. *)
Lemma incremental_keeps_agreement (a a' : InternalDocumentAnalyzer D)
    (range : TextRange) (new_text : string) :
  agrees_with_full m_rule m_config (m_document a)
    (m_line_syntax_states a) (lines (m_highlight a)) ->
  edit_well_formed (m_document a) (patch (m_document a) range new_text).1 range
    (patch (m_document a) range new_text).2 ->
  analyzeHighlightIncremental m_rule m_config a range new_text = Done a' ->
  m_document a' = (patch (m_document a) range new_text).1
  /\ agrees_with_full m_rule m_config (m_document a')
       (m_line_syntax_states a') (lines (m_highlight a')).
Proof.
  intros Hag Hwf. unfold analyzeHighlightIncremental.
  destruct (patch (m_document a) range new_text) as [doc' line_change] eqn:Hpatch.
  simpl in Hwf.
  destruct (retokenize_loop _ _ _ _ _ _) as [s|e] eqn:Hloop; [|discriminate].
  rewrite bind_Done. intros [= <-]. simpl. split; [reflexivity|].
  pose proof (retokenize_keeps_agreement _ _ _ _ _ _ _ _ Hag Hwf Hloop) as Hs.
  destruct (cfg_show_index m_config); [apply fixup_keeps_agreement|]; exact Hs.
Qed.

(** What analyzeHighlight leaves in the vectors agrees with the full
    analysis. *)
Lemma analyzeHighlight_agrees (a a' : InternalDocumentAnalyzer D) :
  analyzeHighlight m_rule m_config a = Done a' ->
  m_document a' = m_document a
  /\ agrees_with_full m_rule m_config (m_document a')
       (m_line_syntax_states a') (lines (m_highlight a')).
Proof.
  intros Ha.
  destruct (analyzeHighlight_loop_end m_rule m_config a a' Ha)
    as (s & -> & (Hlen & _ & _ & Hres) & Hline & Hlens).
  simpl. split; [reflexivity|]. split; [exact Hlens|]. split; [lia|].
  intros j Hj. apply line_result_at_layout. apply Hres. lia.
Qed.

(** Two pairs of vectors that agree with the full analysis of one document
    have the same states, and LineHighlights of the same layout. *)
Lemma agrees_with_full_unique (doc : D) (S1 S2 : list Z) (L1 L2 : list LineHighlight) :
  agrees_with_full m_rule m_config doc S1 L1 ->
  agrees_with_full m_rule m_config doc S2 L2 ->
  S1 = S2 /\ Forall2 same_layout L1 L2.
Proof.
  intros (HlS1 & HlL1 & H1) (HlS2 & HlL2 & H2).
  assert (Hall : forall n j, (j < n)%nat -> (j < getLineCount doc)%nat ->
            S1 !! j = S2 !! j
            /\ exists l1 l2, L1 !! j = Some l1 /\ L2 !! j = Some l2 /\ same_layout l1 l2).
  { induction n as [|n IH]; intros j Hjn Hj; [lia|].
    destruct (H1 j Hj) as (r1 & Hr1 & Hs1 & l1 & Hl1 & Hsame1).
    destruct (H2 j Hj) as (r2 & Hr2 & Hs2 & l2 & Hl2 & Hsame2).
    assert (Hseed : seed_state S1 j = seed_state S2 j).
    { destruct j as [|j]; [reflexivity|].
      rewrite !seed_state_pos by lia. unfold vec_at.
      replace (Datatypes.S j - 1)%nat with j by lia.
      rewrite (proj1 (IH j ltac:(lia) ltac:(lia))). reflexivity. }
    pose proof (analyzeLine_layout m_rule m_config (text (getLine doc j))
                  (mkTextLineInfo j (seed_state S1 j) (doc_line_start doc j))
                  (mkTextLineInfo j (seed_state S2 j) (doc_line_start doc j))
                  Hseed) as Hrel.
    rewrite Hr1, Hr2 in Hrel. destruct Hrel as (Hend & _ & Hhl).
    split; [congruence|].
    exists l1, l2. split; [exact Hl1|]. split; [exact Hl2|].
    eapply same_layout_trans; [exact Hsame1|].
    eapply same_layout_trans; [exact Hhl|]. apply same_layout_sym. exact Hsame2. }
  split.
  - apply list_eq. intros j. destruct (decide (j < getLineCount doc)%nat) as [Hj|Hj].
    + apply (Hall (Datatypes.S j) j); lia.
    + rewrite !lookup_ge_None_2 by lia. reflexivity.
  - apply Forall2_same_length_lookup_2; [congruence|].
    intros j x y Hx Hy.
    assert (Hj : (j < getLineCount doc)%nat)
      by (rewrite <- HlL1; eapply lookup_lt_Some; exact Hx).
    destruct (Hall (Datatypes.S j) j ltac:(lia) Hj) as (_ & l1 & l2 & Hl1 & Hl2 & Hsame).
    congruence.
Qed.

(** A sequence of edits keeps the agreement, for the document after the
    edits. *)
Lemma analyzeIncrementalAll_keeps_agreement (edits : list (TextRange * string)) :
  forall a a' : InternalDocumentAnalyzer D,
    agrees_with_full m_rule m_config (m_document a)
      (m_line_syntax_states a) (lines (m_highlight a)) ->
    edits_well_formed (m_document a) edits ->
    analyzeIncrementalAll m_rule m_config a edits = Done a' ->
    m_document a' = patched (m_document a) edits
    /\ agrees_with_full m_rule m_config (m_document a')
         (m_line_syntax_states a') (lines (m_highlight a')).
Proof.
  induction edits as [|[range new_text] rest IH]; intros a a' Hag Hwf; simpl.
  - intros [= <-]. split; [reflexivity|exact Hag].
  - destruct Hwf as (Hwf1 & Hwfr).
    destruct (analyzeHighlightIncremental m_rule m_config a range new_text) as [a1|e] eqn:H1;
      [|discriminate].
    rewrite bind_Done. intros Hrest.
    destruct (incremental_keeps_agreement a a1 range new_text Hag Hwf1 H1) as (Hdoc & Hag1).
    rewrite <- Hdoc in Hwfr |- *.
    apply (IH a1 a' Hag1 Hwfr Hrest).
Qed.

(** X5. Incremental analysis against the full analysis.
    Take an analyzer whose vectors come from analyzeHighlight, pass it any
    sequence of edits through analyzeHighlightIncremental, each edit well
    formed for the buffer it meets, and run analyzeHighlight on the outcome.
    Then the incremental outcome holds the document after the edits, its
    vector of end states is the one of the full analysis, and its
    DocumentHighlight has for every line the LineHighlight of the full
    analysis up to the line numbers and indices in the spans: the same
    columns, styles, states and goto states, span by span. *)
Theorem incremental_edits_match_full_analysis
    (a0 a a' full : InternalDocumentAnalyzer D) (edits : list (TextRange * string)) :
  analyzeHighlight m_rule m_config a0 = Done a ->
  edits_well_formed (m_document a) edits ->
  analyzeIncrementalAll m_rule m_config a edits = Done a' ->
  analyzeHighlight m_rule m_config a' = Done full ->
  m_document a' = patched (m_document a0) edits
  /\ m_line_syntax_states a' = m_line_syntax_states full
  /\ Forall2 same_layout (lines (m_highlight a')) (lines (m_highlight full)).
Proof.
  intros Hfull0 Hwf Hinc Hfull.
  destruct (analyzeHighlight_agrees a0 a Hfull0) as (Hdoc0 & Hag0).
  destruct (analyzeIncrementalAll_keeps_agreement edits a a' Hag0 Hwf Hinc) as (Hdoc & Hag).
  destruct (analyzeHighlight_agrees a' full Hfull) as (Hdocf & Hagf).
  split; [rewrite Hdoc, Hdoc0; reflexivity|].
  rewrite Hdocf in Hagf.
  exact (agrees_with_full_unique _ _ _ _ _ Hag Hagf).
Qed.

End EditAgreement.

(** The edit that puts a line break in front of the buffer with the lines
    [x], [], [x], [x] is well formed. *)
Lemma sample_edit_well_formed :
  edits_well_formed (buffer := Toy.buffer Toy.text_char_count) Samples.four_lines
    [(Samples.at_start, Samples.nl)].
Proof.
  simpl. split; [|exact I].
  split; [vm_compute; reflexivity|].
  split; [vm_compute; lia|].
  split; [vm_compute; lia|].
  split; [vm_compute; reflexivity|].
  split; [vm_compute; split; [discriminate|reflexivity]|].
  split; [vm_compute; discriminate|].
  split; [intros j Hj; vm_compute in Hj; lia|].
  intros j Hlt Hj.
  do 5 (destruct j as [|j]; [first [reflexivity | simpl in Hlt; lia]|]).
  vm_compute in Hj. lia.
Qed.

Lemma incremental_edits_match_full_analysis_witness :
  exists a a' full,
    analyzeHighlight (engine := Toy.engine) (buffer := Toy.buffer Toy.text_char_count)
      Samples.letter_grammar Samples.config (Samples.fresh_analyzer Samples.four_lines)
    = Done a
    /\ analyzeIncrementalAll (engine := Toy.engine) (buffer := Toy.buffer Toy.text_char_count)
         Samples.letter_grammar Samples.config a [(Samples.at_start, Samples.nl)]
       = Done a'
    /\ analyzeHighlight (engine := Toy.engine) (buffer := Toy.buffer Toy.text_char_count)
         Samples.letter_grammar Samples.config a' = Done full
    /\ m_document a' = Samples.five_lines
    /\ m_line_syntax_states a' = m_line_syntax_states full
    /\ Forall2 same_layout (lines (m_highlight a')) (lines (m_highlight full)).
Proof.
  eexists. eexists. eexists.
  split; [vm_compute; reflexivity|].
  split; [vm_compute; reflexivity|].
  split; [vm_compute; reflexivity|].
  refine (incremental_edits_match_full_analysis
            (engine := Toy.engine) (buffer := Toy.buffer Toy.text_char_count)
            Samples.letter_grammar Samples.config
            (Samples.fresh_analyzer Samples.four_lines) _ _ _
            [(Samples.at_start, Samples.nl)] _ _ _ _).
  - vm_compute. reflexivity.
  - exact sample_edit_well_formed.
  - vm_compute. reflexivity.
  - vm_compute. reflexivity.
Defined.

(** ** The analyzers return *)

Section AnalyzersReturn.
Context {regex_type : RegexType} {engine : RegexEngine}
        {D : Type} {buffer : DocumentBuffer D}.
Variable m_rule : SyntaxRule.
Variable m_config : HighlightConfig.
Hypothesis Hclosed : states_closed m_rule = true.
Hypothesis Hcontract : search_contract.

Lemma default_state_known : containsRule m_rule kDefaultStateId = true.
Proof.
  unfold states_closed in Hclosed. apply andb_prop in Hclosed as [Hd _]. exact Hd.
Qed.

Lemma full_loop_total (doc : D) (todo : nat) :
  forall s : PassState,
    containsRule m_rule (ps_current_state s) = true ->
    exists s', full_loop m_rule m_config todo doc s = Done s'.
Proof.
  induction todo as [|todo IH]; intros s Hknown; simpl; [eauto|].
  unfold full_step.
  destruct (analyzeLine_total m_rule m_config Hclosed Hcontract
              (text (getLine doc (ps_line s)))
              (mkTextLineInfo (ps_line s) (ps_current_state s) (ps_line_start_index s))
              Hknown) as (r & -> & Hend & _).
  rewrite !bind_Done. apply IH. exact Hend.
Qed.

Lemma retokenize_loop_total (doc : D) (cel todo : nat) :
  forall s : PassState,
    containsRule m_rule (ps_current_state s) = true ->
    exists s', retokenize_loop m_rule m_config todo doc cel s = Done s'.
Proof.
  induction todo as [|todo IH]; intros s Hknown; simpl; [eauto|].
  destruct (ps_stable s); [eauto|].
  unfold retokenize_step.
  destruct (analyzeLine_total m_rule m_config Hclosed Hcontract
              (text (getLine doc (ps_line s)))
              (mkTextLineInfo (ps_line s) (ps_current_state s) (ps_line_start_index s))
              Hknown) as (r & -> & Hend & _).
  rewrite !bind_Done. apply IH. exact Hend.
Qed.

(** The states in vectors that agree with the full analysis are states of
    the grammar. *)
Lemma agrees_states_known (doc : D) (S : list Z) (L : list LineHighlight) :
  agrees_with_full m_rule m_config doc S L ->
  forall j st, S !! j = Some st -> containsRule m_rule st = true.
Proof.
  intros (HlS & _ & Hres).
  assert (Hall : forall n j, (j < n)%nat -> (j < getLineCount doc)%nat ->
                             forall st, S !! j = Some st -> containsRule m_rule st = true).
  { induction n as [|n IH]; intros j Hjn Hj st Hst; [lia|].
    destruct (Hres j Hj) as (r & Hr & Hs & _).
    assert (Hseed : containsRule m_rule (seed_state S j) = true).
    { destruct j as [|j]; [exact default_state_known|].
      rewrite seed_state_pos by lia. unfold vec_at.
      replace (Datatypes.S j - 1)%nat with j by lia.
      destruct (lookup_lt_is_Some_2 S j ltac:(lia)) as (st' & Hst').
      rewrite Hst'. simpl. apply (IH j ltac:(lia) ltac:(lia) st' Hst'). }
    destruct (analyzeLine_total m_rule m_config Hclosed Hcontract
                (text (getLine doc j))
                (mkTextLineInfo j (seed_state S j) (doc_line_start doc j)) Hseed)
      as (r' & Hr' & Hend & _).
    assert (r' = r) by congruence. subst r'. congruence. }
  intros j st Hst. apply (Hall (Datatypes.S j) j ltac:(lia)); [|exact Hst].
  rewrite <- HlS. eapply lookup_lt_Some. exact Hst.
Qed.

Lemma incremental_total (a : InternalDocumentAnalyzer D)
    (range : TextRange) (new_text : string) :
  agrees_with_full m_rule m_config (m_document a)
    (m_line_syntax_states a) (lines (m_highlight a)) ->
  edit_well_formed (m_document a) (patch (m_document a) range new_text).1 range
    (patch (m_document a) range new_text).2 ->
  exists a', analyzeHighlightIncremental m_rule m_config a range new_text = Done a'.
Proof.
  intros Hag Hwf. unfold analyzeHighlightIncremental.
  destruct (patch (m_document a) range new_text) as [doc' line_change] eqn:Hpatch.
  simpl in Hwf.
  destruct Hwf as (Hcount & Hse & Hen & He31 & Hlc31 & Hsl & _ & _).
  destruct (retokenize_loop_total doc' (change_end_line_of range line_change)
              (getLineCount doc' - line (start range))
              (mkPassState (line (start range))
                 (seed_state (resize_for_patch range line_change 0 (m_line_syntax_states a))
                    (line (start range)))
                 (charIndexOfLine doc' (line (start range)))
                 (resize_for_patch range line_change 0 (m_line_syntax_states a))
                 (resize_for_patch range line_change LineHighlight_default
                    (lines (m_highlight a))) false)) as (s & ->).
  - simpl. destruct (line (start range)) as [|sl] eqn:Hstart; [exact default_state_known|].
    rewrite seed_state_pos by lia. unfold vec_at.
    replace (Datatypes.S sl - 1)%nat with sl by lia.
    pose proof (proj1 Hag) as HlS.
    rewrite resize_for_patch_before by lia.
    destruct (lookup_lt_is_Some_2 (m_line_syntax_states a) sl ltac:(lia)) as (st & Hst).
    rewrite Hst. simpl.
    apply (agrees_states_known (m_document a) _ (lines (m_highlight a)) Hag sl st Hst).
  - rewrite bind_Done. eauto.
Qed.

Lemma analyzeHighlight_total (a : InternalDocumentAnalyzer D) :
  exists a', analyzeHighlight m_rule m_config a = Done a'.
Proof.
  unfold analyzeHighlight.
  destruct (full_loop_total (m_document a) (getLineCount (m_document a))
              (mkPassState 0 kDefaultStateId 0
                 (vec_resize (getLineCount (m_document a)) 0 (m_line_syntax_states a))
                 [] false) default_state_known) as (s & ->).
  rewrite bind_Done. eauto.
Qed.

Lemma analyzeIncrementalAll_total (edits : list (TextRange * string)) :
  forall a : InternalDocumentAnalyzer D,
    agrees_with_full m_rule m_config (m_document a)
      (m_line_syntax_states a) (lines (m_highlight a)) ->
    edits_well_formed (m_document a) edits ->
    exists a', analyzeIncrementalAll m_rule m_config a edits = Done a'.
Proof.
  induction edits as [|[range new_text] rest IH]; intros a Hag Hwf; simpl; [eauto|].
  destruct Hwf as (Hwf1 & Hwfr).
  destruct (incremental_total a range new_text Hag Hwf1) as (a1 & H1).
  rewrite H1, bind_Done.
  destruct (incremental_keeps_agreement m_rule m_config a a1 range new_text Hag Hwf1 H1)
    as (Hdoc & Hag1).
  apply (IH a1 Hag1). rewrite Hdoc. exact Hwfr.
Qed.

(** X6. The analyzers return.  With a closed grammar (it has the default
    state, and every goto state and line end state of its rules is one of
    its states) and an engine that keeps its contract, analyzeHighlight
    returns for every document; analyzeHighlightIncremental then returns for
    every edit of a sequence, each well formed for the buffer it meets; and
    analyzeHighlight returns on the outcome. *)
Theorem incremental_edits_return (a0 : InternalDocumentAnalyzer D)
    (edits : list (TextRange * string)) :
  edits_well_formed (m_document a0) edits ->
  exists a a' full,
    analyzeHighlight m_rule m_config a0 = Done a
    /\ analyzeIncrementalAll m_rule m_config a edits = Done a'
    /\ analyzeHighlight m_rule m_config a' = Done full.
Proof.
  intros Hwf.
  destruct (analyzeHighlight_total a0) as (a & Ha).
  destruct (analyzeHighlight_agrees m_rule m_config a0 a Ha) as (Hdoc & Hag).
  rewrite <- Hdoc in Hwf.
  destruct (analyzeIncrementalAll_total edits a Hag Hwf) as (a' & Ha').
  destruct (analyzeHighlight_total a') as (full & Hfull).
  exists a, a', full. split; [exact Ha|]. split; [exact Ha'|exact Hfull].
Qed.

End AnalyzersReturn.

Lemma incremental_edits_return_witness :
  exists a a' full : InternalDocumentAnalyzer (list DocumentLine),
    analyzeHighlight (engine := Toy.engine) (buffer := Toy.buffer Toy.text_char_count)
      Samples.letter_grammar Samples.config (Samples.fresh_analyzer Samples.four_lines)
    = Done a
    /\ analyzeIncrementalAll (engine := Toy.engine)
         (buffer := Toy.buffer Toy.text_char_count)
         Samples.letter_grammar Samples.config a [(Samples.at_start, Samples.nl)]
       = Done a'
    /\ analyzeHighlight (engine := Toy.engine) (buffer := Toy.buffer Toy.text_char_count)
         Samples.letter_grammar Samples.config a' = Done full.
Proof.
  apply (incremental_edits_return (engine := Toy.engine)
           (buffer := Toy.buffer Toy.text_char_count)
           Samples.letter_grammar Samples.config).
  - vm_compute. reflexivity.
  - exact toy_search_contract.
  - exact sample_edit_well_formed.
Defined.

(** ** Text mode against document mode *)

Section TextAgainstDocument.
Context {regex_type : RegexType} {engine : RegexEngine}
        {D : Type} {buffer : DocumentBuffer D}.
Variable m_rule : SyntaxRule.
Variable m_config : HighlightConfig.

(** The loop of analyzeText over the pieces from the [k]-th on and the loop
    of analyzeHighlight over the lines from [k] on run in step. *)
Lemma text_loop_simulates_full_loop (doc : D) (all : list string) :
  holds_pieces doc all ->
  forall (pieces : list string) (k : nat) (info : TextLineInfo)
         (h : DocumentHighlight) (s : PassState),
    drop k all = pieces ->
    li_line info = k -> ps_line s = k ->
    start_state info = ps_current_state s ->
    start_char_offset info = ps_line_start_index s ->
    lines h = ps_lines s ->
    match analyzeText_lines m_rule m_config pieces info h,
          full_loop m_rule m_config (length pieces) doc s with
    | Done h', Done s' => lines h' = ps_lines s'
    | Fail e1, Fail e2 => e1 = e2
    | _, _ => False
    end.
Proof.
  intros (Hcount & Hlines).
  induction pieces as [|p pieces IH]; intros k info h s Hdrop Hk Hs Hst Hoff Hh.
  - simpl. exact Hh.
  - assert (Hp : all !! k = Some p).
    { pose proof (lookup_drop all k 0) as Hl. rewrite Hdrop, Nat.add_0_r in Hl.
      symmetry. exact Hl. }
    assert (Hrest : drop (S k) all = pieces).
    { rewrite (drop_S _ _ _ Hp) in Hdrop. congruence. }
    destruct (Hlines k p Hp) as (Htext & Hwidth).
    assert (Hcall : analyzeLine m_rule m_config (text (getLine doc (ps_line s)))
                      (mkTextLineInfo (ps_line s) (ps_current_state s) (ps_line_start_index s))
                    = analyzeLine m_rule m_config (strip_cr p) info).
    { rewrite Hs, Htext, <- Hst, <- Hoff, <- Hk. destruct info; reflexivity. }
    cbn [length full_loop]. unfold full_step. rewrite Hcall.
    destruct pieces as [|q pieces].
    + rewrite analyzeText_lines_last.
      destruct (analyzeLine m_rule m_config (strip_cr p) info) as [r|e]; [|reflexivity].
      rewrite !bind_Done. simpl. rewrite Hh. reflexivity.
    + rewrite analyzeText_lines_cons.
      destruct (analyzeLine m_rule m_config (strip_cr p) info) as [r|e]; [|reflexivity].
      rewrite !bind_Done.
      apply (IH (S k)); simpl; try congruence.
      rewrite Hs, Hwidth, <- Hoff; [lia|].
      apply (f_equal length) in Hdrop. rewrite length_drop in Hdrop. simpl in Hdrop. lia.
Qed.

(** X7. Text mode and document mode.  For a text that is not empty and
    a buffer that holds its lines (one line for every piece between two
    ['\n'], its text the piece without the ['\r'] at its end, its ending as
    wide as what was cut off), analyzeText on the text and analyzeHighlight
    on the buffer end the same way: both fail alike, or both return, and then
    with the same DocumentHighlight, line numbers and indices included. *)
Theorem analyzeText_matches_analyzeHighlight (text : string)
    (a : InternalDocumentAnalyzer D) :
  text <> EmptyString ->
  holds_pieces (m_document a) (split_newline text) ->
  match analyzeText m_rule m_config text, analyzeHighlight m_rule m_config a with
  | Done h, Done a' => m_highlight a' = h
  | Fail e1, Fail e2 => e1 = e2
  | _, _ => False
  end.
Proof.
  intros Hne Hholds. unfold analyzeText, analyzeHighlight.
  destruct text as [|c text]; [congruence|].
  pose proof (text_loop_simulates_full_loop (m_document a) _ Hholds
                (split_newline (String c text)) 0
                (mkTextLineInfo 0 kDefaultStateId 0) (mkDocumentHighlight [])
                (mkPassState 0 kDefaultStateId 0
                   (vec_resize (getLineCount (m_document a)) 0 (m_line_syntax_states a))
                   [] false)
                eq_refl eq_refl eq_refl eq_refl eq_refl eq_refl) as Hsim.
  pose proof (proj1 Hholds) as Hcount. rewrite Hcount in Hsim |- *.
  destruct (analyzeText_lines _ _ _ _ _) as [h'|e1];
    destruct (full_loop _ _ _ _ _) as [s'|e2]; try contradiction.
  - rewrite bind_Done. simpl. destruct h' as [ls]. simpl in Hsim. rewrite Hsim. reflexivity.
  - exact Hsim.
Qed.

End TextAgainstDocument.

Lemma analyzeText_matches_analyzeHighlight_witness :
  exists (h : DocumentHighlight) (a' : InternalDocumentAnalyzer (list DocumentLine)),
    analyzeText (engine := Toy.engine) Samples.comment_grammar Samples.config
      ("a/*b" +:+ Samples.cr +:+ Samples.nl +:+ "c*/d") = Done h
    /\ analyzeHighlight (engine := Toy.engine) (buffer := Toy.buffer Toy.text_char_count)
         Samples.comment_grammar Samples.config
         (Samples.fresh_analyzer
            (Toy.parse_lines ("a/*b" +:+ Samples.cr +:+ Samples.nl +:+ "c*/d")))
       = Done a'
    /\ length (lines h) = 2%nat
    /\ m_highlight a' = h.
Proof.
  pose proof (analyzeText_matches_analyzeHighlight (engine := Toy.engine)
                (buffer := Toy.buffer Toy.text_char_count)
                Samples.comment_grammar Samples.config
                ("a/*b" +:+ Samples.cr +:+ Samples.nl +:+ "c*/d")
                (Samples.fresh_analyzer
                   (Toy.parse_lines ("a/*b" +:+ Samples.cr +:+ Samples.nl +:+ "c*/d"))))
    as H.
  eexists. eexists.
  split; [vm_compute; reflexivity|].
  split; [vm_compute; reflexivity|].
  split; [reflexivity|].
  apply H.
  - discriminate.
  - split; [vm_compute; reflexivity|].
    intros j p Hp.
    do 2 (destruct j as [|j];
          [injection Hp as <-; split;
           [reflexivity|intros Hlt; first [reflexivity | simpl in Hlt; lia]]|]).
    discriminate.
Defined.

(** ** Offsets of the spans of analyzeText *)

Lemma countChars_strip_cr (p : string) :
  (countChars (strip_cr p) + (if has_cr p then 1 else 0))%nat = countChars p.
Proof.
  unfold strip_cr.
  induction p as [|a p IH]; [reflexivity|].
  destruct p as [|b p].
  - simpl. destruct (Ascii.eqb a carriage_return) eqn:E; simpl; [|lia].
    apply Ascii.eqb_eq in E. subst a. reflexivity.
  - change (has_cr (String a (String b p))) with (has_cr (String b p)).
    change (pop_back (String a (String b p))) with (String a (pop_back (String b p))).
    destruct (has_cr (String b p)).
    + change (countChars (String a (pop_back (String b p))))
        with (char_start a + countChars (pop_back (String b p)))%nat.
      change (countChars (String a (String b p)))
        with (char_start a + countChars (String b p))%nat.
      lia.
    + lia.
Qed.

Lemma piece_start_text_before (s : string) :
  forall i, (i < length (split_newline s))%nat ->
            piece_start (split_newline s) i = countChars (text_before s i).
Proof.
  induction s as [|a s IH]; intros i Hi.
  - destruct i; [reflexivity|simpl in Hi; lia].
  - destruct i as [|i]; [reflexivity|].
    simpl in Hi |- *. destruct (Ascii.eqb a newline) eqn:E.
    + apply Ascii.eqb_eq in E. subst a. simpl in Hi |- *.
      rewrite IH by lia. reflexivity.
    + destruct (split_newline s) as [|l ls] eqn:Hs.
      { pose proof (split_newline_length s) as Hl. rewrite Hs in Hl. discriminate. }
      simpl in Hi |- *. specialize (IH (S i) ltac:(simpl; lia)). simpl in IH.
      rewrite <- IH. lia.
Qed.

Section TextOffsets.
Context {regex_type : RegexType} {engine : RegexEngine}.
Variable m_rule : SyntaxRule.
Variable m_config : HighlightConfig.

(** The LineHighlights that the loop of analyzeText adds carry the numbers
    and the start offsets of their lines. *)
Lemma analyzeText_lines_stamped (pieces : list string) :
  forall (info : TextLineInfo) (h h' : DocumentHighlight),
    analyzeText_lines m_rule m_config pieces info h = Done h' ->
    exists added,
      lines h' = lines h ++ added
      /\ length added = length pieces
      /\ forall i l, added !! i = Some l ->
           Forall (span_stamped (li_line info + i)
                     (start_char_offset info + piece_start pieces i)) (spans l)
           /\ merge_closed (spans l).
Proof.
  induction pieces as [|p pieces IH]; intros info h h'.
  - simpl. intros [= <-]. exists []. rewrite app_nil_r.
    split; [reflexivity|]. split; [reflexivity|]. intros i l Hl. discriminate.
  - assert (Hfirst : forall r, analyzeLine m_rule m_config (strip_cr p) info = Done r ->
              Forall (span_stamped (li_line info + 0)
                        (start_char_offset info + piece_start (p :: pieces) 0))
                     (spans (highlight r))
              /\ merge_closed (spans (highlight r))).
    { intros r Hr. simpl. rewrite !Nat.add_0_r. split.
      - exact (analyzeLine_stamped m_rule m_config _ _ _ Hr).
      - exact (analyzeLine_closed m_rule m_config _ _ _ Hr). }
    destruct pieces as [|q pieces].
    + rewrite analyzeText_lines_last.
      destruct (analyzeLine m_rule m_config (strip_cr p) info) as [r|e] eqn:Hr; [|discriminate].
      rewrite bind_Done. intros [= <-]. exists [highlight r].
      split; [reflexivity|]. split; [reflexivity|].
      intros i l Hl. destruct i as [|i]; [|destruct i; discriminate].
      injection Hl as <-. apply Hfirst. reflexivity.
    + rewrite analyzeText_lines_cons.
      destruct (analyzeLine m_rule m_config (strip_cr p) info) as [r|e] eqn:Hr; [|discriminate].
      rewrite bind_Done. intros Hrest.
      destruct (IH _ _ _ Hrest) as (added & Hlines & Hlen & Hadded).
      exists (highlight r :: added).
      split; [rewrite Hlines; simpl; rewrite <- app_assoc; reflexivity|].
      split; [simpl; rewrite Hlen; reflexivity|].
      intros i l Hl. destruct i as [|i].
      * injection Hl as <-. apply Hfirst. reflexivity.
      * destruct (Hadded i l Hl) as (Hst & Hmc). split; [|exact Hmc].
        pose proof (analyzeLine_char_count m_rule m_config _ _ _ Hr) as Hcc.
        pose proof (countChars_strip_cr p) as Hcr.
        replace (li_line info + S i)%nat
          with (li_line (next_line_info info p r) + i)%nat by (simpl; lia).
        replace (start_char_offset info + piece_start (p :: q :: pieces) (S i))%nat
          with (start_char_offset (next_line_info info p r) + piece_start (q :: pieces) i)%nat;
          [exact Hst|].
        cbn [piece_start next_line_info start_char_offset]. rewrite Hcc. lia.
Qed.

(** X8. The spans of analyzeText.  In the DocumentHighlight that
    analyzeText returns, every span in the LineHighlight of line [i] names
    the line [i] in both positions, and its indices are its columns plus the
    number of characters of the text in front of line [i] (the text up to and
    with its [i]-th ['\n'], a ['\r'] before the ['\n'] counted as one
    character); no LineHighlight has two neighbouring spans that the merger
    would fuse. *)
Theorem analyzeText_spans_stamped (text : string) (h : DocumentHighlight)
    (i : nat) (l : LineHighlight) :
  analyzeText m_rule m_config text = Done h ->
  lines h !! i = Some l ->
  Forall (span_stamped i (countChars (text_before text i))) (spans l)
  /\ merge_closed (spans l).
Proof.
  unfold analyzeText. destruct text as [|a text]; [intros [= <-]; discriminate|].
  intros Hh Hl.
  destruct (analyzeText_lines_stamped _ _ _ _ Hh) as (added & Hlines & Hlen & Hadded).
  simpl in Hlines. rewrite Hlines in Hl.
  destruct (Hadded i l Hl) as (Hst & Hmc). split; [|exact Hmc].
  rewrite <- piece_start_text_before;
    [exact Hst|rewrite <- Hlen; eapply lookup_lt_Some; exact Hl].
Qed.

End TextOffsets.

Lemma analyzeText_spans_stamped_witness :
  exists (h : DocumentHighlight) (l : LineHighlight),
    analyzeText (engine := Toy.engine) Samples.comment_grammar Samples.config
      ("a/*b" +:+ Samples.cr +:+ Samples.nl +:+ "c*/d") = Done h
    /\ lines h !! 1%nat = Some l
    /\ spans l <> []
    /\ Forall (span_stamped 1 6) (spans l)
    /\ merge_closed (spans l).
Proof.
  eexists. eexists.
  split; [vm_compute; reflexivity|].
  split; [vm_compute; reflexivity|].
  split; [discriminate|].
  eapply (analyzeText_spans_stamped (engine := Toy.engine)
            Samples.comment_grammar Samples.config
            ("a/*b" +:+ Samples.cr +:+ Samples.nl +:+ "c*/d") _ 1%nat).
  - vm_compute. reflexivity.
  - vm_compute. reflexivity.
Defined.

(** ** The order of the spans of a line *)

Lemma ordered_between_weaken (ss : list TokenSpan) :
  forall lo hi hi' : nat,
    ordered_between lo hi ss -> (hi <= hi')%nat -> ordered_between lo hi' ss.
Proof.
  induction ss as [|s ss IH]; intros lo hi hi'; simpl; [lia|].
  intros (H1 & H2 & H3) Hle. split; [exact H1|]. split; [exact H2|]. eapply IH; eauto.
Qed.

Lemma ordered_between_le (ss : list TokenSpan) :
  forall lo hi : nat, ordered_between lo hi ss -> (lo <= hi)%nat.
Proof.
  induction ss as [|s ss IH]; intros lo hi; simpl; [lia|].
  intros (H1 & H2 & H3). apply IH in H3. lia.
Qed.

Lemma ordered_between_snoc (ss : list TokenSpan) (s : TokenSpan) :
  forall lo p : nat,
    ordered_between lo p ss ->
    (p <= column (start (range s)))%nat ->
    (column (start (range s)) < column (end_ (range s)))%nat ->
    ordered_between lo (column (end_ (range s))) (ss ++ [s]).
Proof.
  induction ss as [|x ss IH]; intros lo p; simpl.
  - intros Hlo Hp Hs. split; [lia|]. split; [exact Hs|lia].
  - intros (H1 & H2 & H3) Hp Hs. split; [exact H1|]. split; [exact H2|].
    eapply IH; eauto.
Qed.

(** The last span may be stretched to a column further right. *)
Lemma ordered_between_stretch (ss : list TokenSpan) (x sp : TokenSpan) :
  forall lo p : nat,
    ordered_between lo p (ss ++ [x]) ->
    (column (end_ (range x)) <= column (end_ (range sp)))%nat ->
    ordered_between lo (column (end_ (range sp))) (ss ++ [extend_end x sp]).
Proof.
  induction ss as [|y ss IH]; intros lo p; simpl.
  - intros (H1 & H2 & H3) Hle. split; [exact H1|]. split; lia.
  - intros (H1 & H2 & H3) Hle. split; [exact H1|]. split; [exact H2|].
    eapply IH; eauto.
Qed.

Lemma pushOrMergeSpan_ordered (hl : LineHighlight) (sp : TokenSpan) (lo p : nat) :
  ordered_between lo p (spans hl) ->
  (p <= column (start (range sp)))%nat ->
  (column (start (range sp)) < column (end_ (range sp)))%nat ->
  ordered_between lo (column (end_ (range sp))) (spans (pushOrMergeSpan hl sp)).
Proof.
  intros Hord Hp Hsp. destruct hl as [ss]. simpl in *.
  destruct ss as [|x init _] using rev_ind.
  - rewrite pushOrMergeSpan_nil. simpl in *. split; [lia|]. split; [exact Hsp|lia].
  - rewrite pushOrMergeSpan_snoc.
    destruct (mergeable x sp) eqn:Hm; simpl.
    + apply (ordered_between_stretch init x sp lo p Hord).
      unfold mergeable in Hm. apply andb_prop in Hm as [Hcol _].
      apply Nat.eqb_eq in Hcol. lia.
    + replace (init ++ [x; sp]) with ((init ++ [x]) ++ [sp])
        by (rewrite <- app_assoc; reflexivity).
      apply (ordered_between_snoc (init ++ [x]) sp lo p Hord Hp Hsp).
Qed.

(** A block of spans that tile the columns [a .. b), handed to the merger
    after spans that end at or before [a]. *)
Lemma foldl_pushOrMergeSpan_ordered (block : list TokenSpan) :
  forall (hl : LineHighlight) (lo p a b : nat),
    ordered_between lo p (spans hl) -> (p <= a)%nat -> tiles block a b ->
    ordered_between lo b (spans (foldl pushOrMergeSpan hl block)).
Proof.
  induction block as [|sp block IH]; intros hl lo p a b Hord Hp; simpl.
  - intros <-. eapply ordered_between_weaken; eauto.
  - intros (Hs & Hlt & Hrest).
    apply (IH (pushOrMergeSpan hl sp) lo (column (end_ (range sp)))
              (column (end_ (range sp))) b); [|lia|exact Hrest].
    apply (pushOrMergeSpan_ordered hl sp lo p Hord); lia.
Qed.

Section OrderedSpans.
Context {regex_type : RegexType} {engine : RegexEngine}.
Variable m_rule : SyntaxRule.
Variable m_config : HighlightConfig.
Hypothesis Hcontract : search_contract.
Hypothesis Hfree : grammar_capture_free m_rule = true.

Lemma grammar_capture_free_lookup (st : Z) (sr : StateRule) :
  states m_rule !! st = Some sr -> capture_free sr = true.
Proof.
  intros Hst. unfold grammar_capture_free in Hfree. rewrite forallb_forall in Hfree.
  apply (Hfree (st, sr)). apply list_elem_of_In, elem_of_map_to_list. exact Hst.
Qed.

(** Without capture groups, what a match hands to the merger tiles the
    columns of the match. *)
Lemma emitted_spans_tile (text : string) (info : TextLineInfo) (pos : nat) (st : Z)
    (mr : MatchResult) :
  (pos <= countChars text)%nat ->
  matchAtPosition m_rule m_config text pos st = Done mr ->
  matched mr = true ->
  tiles (emitted_spans m_rule m_config info st mr)
        (mr_start mr) (mr_start mr + mr_length mr).
Proof.
  intros Hpos Hres Hm.
  destruct (states m_rule !! st) as [sr|] eqn:Hst;
    [|rewrite (matchAtPosition_unknown_state m_rule m_config text pos st Hst) in Hres;
      injection Hres as <-; discriminate].
  assert (Hrule : matchAtPositionRule m_rule m_config (rule_depth sr) text pos sr = Done mr).
  { unfold matchAtPosition, containsRule, getStateRule in Hres.
    rewrite Hst in Hres.
    rewrite bool_decide_eq_true_2 in Hres by eauto. exact Hres. }
  pose proof (grammar_capture_free_lookup st sr Hst) as Hsr.
  pose proof (matchAtPositionRule_bounds m_rule m_config Hcontract _ _ _ _ _ Hrule Hpos Hm)
    as (_ & Hlen & _).
  destruct (matchAtPositionRule_tiles m_rule m_config Hcontract _ _ _ _ _ Hpos Hrule Hm)
    as (Hfilled & Hnosub & Hnocg).
  specialize (Hnocg Hsr).
  destruct (winning_rule sr mr) as [rule|] eqn:Hw.
  - destruct (sub_state_rule rule) as [sub|] eqn:Hsub.
    + destruct (capture_free_rule sr _ rule Hsr (winning_rule_lookup sr mr rule Hw))
        as (_ & Hsubfree).
      pose proof (Hfilled rule sub eq_refl Hsub (Hsubfree sub Hsub)) as Htiles.
      unfold emitted_spans. destruct (sub_spans mr) as [|sp sps] eqn:Hss;
        [simpl in Htiles; lia|].
      replace (mr_start mr) with (0 + mr_start mr)%nat at 1 by lia.
      replace (mr_start mr + mr_length mr)%nat with (mr_length mr + mr_start mr)%nat by lia.
      apply tiles_map; [|exact Htiles].
      intros s0. split; reflexivity.
    + unfold emitted_spans.
      rewrite Hnosub by (intros rule' [= <-]; exact Hsub).
      rewrite Hnocg. simpl. split; [reflexivity|]. split; lia.
  - unfold emitted_spans.
    rewrite Hnosub by (intros rule' Hr; discriminate).
    rewrite Hnocg. simpl. split; [reflexivity|]. split; lia.
Qed.

(** The spans of a line are in the order of their columns. *)
Lemma analyzeLine_ordered (text : string) (info : TextLineInfo)
    (r : LineAnalyzeResult) :
  analyzeLine m_rule m_config text info = Done r ->
  ordered_between 0 (countChars text) (spans (highlight r)).
Proof.
  unfold analyzeLine, analyzeLine_fuel.
  destruct text as [|a text]; [intros [= <-]; simpl; lia|].
  destruct (scan_loop _ _ _ _ _ _ _) as [s'|e] eqn:Hloop; [|discriminate].
  rewrite bind_Done. unfold finish_line. intros [= <-]. simpl.
  set (n := countChars (String a text)) in *.
  assert (Hinv : (current_char_pos s' <= n)%nat
                 /\ ordered_between 0 (current_char_pos s') (spans (scan_highlight s'))).
  { refine (scan_loop_inv m_rule m_config
              (fun s => (current_char_pos s <= n)%nat
                        /\ ordered_between 0 (current_char_pos s) (spans (scan_highlight s)))
              _ _ _ _ _ _ s' _ Hloop); [|simpl; lia].
    intros s1 s2 (Hle & Hord) Hlt. unfold scan_step.
    destruct (matchAtPosition _ _ _ _ _) as [mr|e] eqn:Hmr; [|discriminate].
    rewrite bind_Done.
    destruct (matched mr) eqn:Hm; simpl; intros [= <-]; simpl.
    - pose proof (matchAtPosition_done m_rule m_config Hcontract (String a text)
                    (current_char_pos s1) (current_state s1) ltac:(fold n; lia))
        as (mr' & Hmr' & Hb).
      assert (mr' = mr) by congruence. subst mr'.
      destruct (Hb Hm) as (Hb1 & Hb2 & Hb3 & _).
      split; [exact Hb3|].
      rewrite addLineHighlightResult_emitted.
      apply (foldl_pushOrMergeSpan_ordered _ _ 0%nat (current_char_pos s1) (mr_start mr));
        [exact Hord|exact Hb1|].
      apply (emitted_spans_tile (String a text) info (current_char_pos s1)
               (current_state s1) mr ltac:(fold n; lia) Hmr Hm).
    - split; [lia|]. eapply ordered_between_weaken; [exact Hord|lia]. }
  destruct Hinv as (Hle & Hord).
  eapply ordered_between_weaken; eauto.
Qed.

Lemma ordered_between_length (ss : list TokenSpan) :
  forall lo hi : nat, ordered_between lo hi ss -> (lo + length ss <= hi)%nat.
Proof.
  induction ss as [|s ss IH]; intros lo hi; simpl; [lia|].
  intros (H1 & H2 & H3). apply IH in H3. lia.
Qed.

(** X9. The order of the spans of a line.  For a grammar without
    capture groups (in its rules and in their sub-grammars, at any depth) and
    an engine that keeps its contract, the spans of the LineHighlight that
    analyzeLine returns are in the order of their columns: no span is empty,
    each starts at or after the column where the one before ends, the first
    at or after column 0, and the last ends within the characters of the
    line.  So a line has at most as many spans as characters. *)
Theorem analyzeLine_spans_ordered (text : string) (info : TextLineInfo)
    (r : LineAnalyzeResult) :
  analyzeLine m_rule m_config text info = Done r ->
  ordered_between 0 (countChars text) (spans (highlight r))
  /\ (length (spans (highlight r)) <= countChars text)%nat.
Proof.
  intros Hr. pose proof (analyzeLine_ordered text info r Hr) as Hord.
  split; [exact Hord|]. apply ordered_between_length in Hord. lia.
Qed.

Lemma spanCount_from (ls : list LineHighlight) :
  forall c : nat,
    foldl (fun count l => (count + length (spans l))%nat) c ls
    = (c + foldl (fun count l => (count + length (spans l))%nat) 0%nat ls)%nat.
Proof.
  induction ls as [|l ls IH]; intros c; simpl; [lia|].
  rewrite (IH (c + length (spans l))%nat), (IH (length (spans l))). lia.
Qed.

Lemma spanCount_addLine (h : DocumentHighlight) (l : LineHighlight) :
  spanCount (addLine h l) = (spanCount h + length (spans l))%nat.
Proof.
  unfold spanCount, addLine. simpl. rewrite foldl_app. reflexivity.
Qed.

Lemma countChars_pieces (s : string) :
  (list_sum (map countChars (split_newline s)) + count_newlines s)%nat = countChars s.
Proof.
  induction s as [|a s IH]; [reflexivity|].
  simpl. destruct (Ascii.eqb a newline) eqn:E.
  - apply Ascii.eqb_eq in E. subst a. simpl. simpl in IH. lia.
  - destruct (split_newline s) as [|l ls] eqn:Hs.
    { pose proof (split_newline_length s) as Hl. rewrite Hs in Hl. discriminate. }
    simpl in IH |- *. lia.
Qed.

Lemma analyzeText_lines_span_count (pieces : list string) :
  forall (info : TextLineInfo) (h h' : DocumentHighlight),
    analyzeText_lines m_rule m_config pieces info h = Done h' ->
    (spanCount h' <= spanCount h + list_sum (map countChars pieces))%nat.
Proof.
  induction pieces as [|p pieces IH]; intros info h h'.
  - simpl. intros [= <-]. lia.
  - assert (Hline : forall r, analyzeLine m_rule m_config (strip_cr p) info = Done r ->
                              (length (spans (highlight r)) <= countChars p)%nat).
    { intros r Hr. pose proof (analyzeLine_ordered _ _ _ Hr) as Hord.
      apply ordered_between_length in Hord.
      pose proof (countChars_strip_cr p). lia. }
    destruct pieces as [|q pieces].
    + rewrite analyzeText_lines_last.
      destruct (analyzeLine m_rule m_config (strip_cr p) info) as [r|e] eqn:Hr; [|discriminate].
      rewrite bind_Done. intros [= <-]. rewrite spanCount_addLine.
      specialize (Hline r eq_refl). simpl. lia.
    + rewrite analyzeText_lines_cons.
      destruct (analyzeLine m_rule m_config (strip_cr p) info) as [r|e] eqn:Hr; [|discriminate].
      rewrite bind_Done. intros Hrest. apply IH in Hrest.
      rewrite spanCount_addLine in Hrest. specialize (Hline r eq_refl).
      change (list_sum (map countChars (p :: q :: pieces)))
        with (countChars p + list_sum (map countChars (q :: pieces)))%nat.
      lia.
Qed.

(** X10. The number of spans of a text.  For a grammar without capture
    groups and an engine that keeps its contract, the spanCount of the
    DocumentHighlight that analyzeText returns is at most the number of
    characters of the text that are not ['\n']. *)
Theorem analyzeText_span_count (text : string) (h : DocumentHighlight) :
  analyzeText m_rule m_config text = Done h ->
  (spanCount h + count_newlines text <= countChars text)%nat.
Proof.
  unfold analyzeText. destruct text as [|a text]; [intros [= <-]; simpl; lia|].
  intros Hh. apply analyzeText_lines_span_count in Hh.
  pose proof (countChars_pieces (String a text)) as Hsum.
  change (spanCount (mkDocumentHighlight [])) with 0%nat in Hh. lia.
Qed.

End OrderedSpans.

Lemma analyzeLine_spans_ordered_witness :
  exists r : LineAnalyzeResult,
    analyzeLine (engine := Toy.engine) Samples.tiling_grammar Samples.config
      "abc123def" Samples.first_line = Done r
    /\ length (spans (highlight r)) = 3%nat
    /\ ordered_between 0 9 (spans (highlight r))
    /\ (length (spans (highlight r)) <= 9)%nat.
Proof.
  eexists.
  split; [vm_compute; reflexivity|].
  split; [reflexivity|].
  apply (analyzeLine_spans_ordered (engine := Toy.engine)
           Samples.tiling_grammar Samples.config toy_search_contract
           ltac:(vm_compute; reflexivity) "abc123def" Samples.first_line).
  vm_compute. reflexivity.
Defined.

Lemma analyzeText_span_count_witness :
  exists h : DocumentHighlight,
    analyzeText (engine := Toy.engine) Samples.tiling_grammar Samples.config
      ("abc123def" +:+ Samples.nl +:+ "12") = Done h
    /\ spanCount h = 4%nat
    /\ (spanCount h + 1 <= 12)%nat.
Proof.
  eexists.
  split; [vm_compute; reflexivity|].
  split; [reflexivity|].
  apply (analyzeText_span_count (engine := Toy.engine)
           Samples.tiling_grammar Samples.config toy_search_contract
           ltac:(vm_compute; reflexivity)
           ("abc123def" +:+ Samples.nl +:+ "12")).
  vm_compute. reflexivity.
Defined.


(** ** The registry *)

Section RegistryFacts.
Context {regex_type : RegexType} {D : Type}.
Variable getUri : D -> string.
Variable getExtension : string -> string.



(** X12. Lookup of a grammar by name.  getSyntaxRuleByName returns the
    first grammar of that name in the order in which the engine visits its
    grammars, and nothing exactly when no grammar has the name. *)
Theorem getSyntaxRuleByName_first_match (e : HighlightEngine D) (rule_name : string) :
  (forall rule,
     getSyntaxRuleByName e rule_name = Some rule ->
     exists i,
       m_syntax_rules e !! i = Some rule
       /\ name rule = rule_name
       /\ forall j other,
            m_syntax_rules e !! j = Some other -> (j < i)%nat -> name other <> rule_name)
  /\ (getSyntaxRuleByName e rule_name = None <->
      forall rule, rule ∈ m_syntax_rules e -> name rule <> rule_name).
Proof.
  unfold getSyntaxRuleByName. split.
  - intros rule Hfind.
    destruct (list_find _ (m_syntax_rules e)) as [[i r]|] eqn:Hlf; [|discriminate].
    simpl in Hfind. injection Hfind as ->.
    apply list_find_Some in Hlf as (Hi & Hin & Hbefore).
    exists i. split; [exact Hi|]. split; [exact Hin|].
    intros j other Hj Hlt. exact (Hbefore j other Hj Hlt).
  - destruct (list_find _ (m_syntax_rules e)) as [[i r]|] eqn:Hlf; simpl.
    + apply list_find_Some in Hlf as (Hi & Hin & _).
      split; [discriminate|]. intros Hnone.
      exfalso. apply (Hnone r); [eapply list_elem_of_lookup_2; exact Hi|exact Hin].
    + split; [|reflexivity]. intros _.
      apply list_find_None in Hlf. rewrite Forall_forall in Hlf. exact Hlf.
Qed.

(** X13. The analyzers of the engine.  When loadDocument hands out an
    analyzer for a document, the engine holds that analyzer under the URI
    of the document and keeps its grammars, its config and the analyzers of
    all other URIs; the analyzer is the one the engine held under the URI,
    or, when it held none, a new one for the document and the grammar found
    for the extension of the URI.  Every later loadDocument of a document
    with that URI, whatever document it is, hands out the same analyzer and
    leaves the engine as it is.  After removeDocument of the URI the engine
    holds no analyzer for it. *)
Theorem loadDocument_caches (e e' : HighlightEngine D) (document : D)
    (analyzer : DocumentAnalyzer D) :
  loadDocument getUri getExtension e document = (Some analyzer, e') ->
  m_analyzer_map e' !! getUri document = Some analyzer
  /\ engine_config e' = engine_config e
  /\ m_syntax_rules e' = m_syntax_rules e
  /\ (forall uri, uri <> getUri document ->
                  m_analyzer_map e' !! uri = m_analyzer_map e !! uri)
  /\ (m_analyzer_map e !! getUri document = Some analyzer
      \/ (m_analyzer_map e !! getUri document = None
          /\ exists rule,
               getSyntaxRuleByExtension e (getExtension (getUri document)) = Some rule
               /\ analyzer = new_DocumentAnalyzer document rule (engine_config e)))
  /\ (forall other : D,
        getUri other = getUri document ->
        loadDocument getUri getExtension e' other = (Some analyzer, e'))
  /\ m_analyzer_map (removeDocument e' (getUri document)) !! getUri document = None.
Proof.
  unfold loadDocument.
  destruct (m_analyzer_map e !! getUri document) as [cached|] eqn:Hmap.
  - intros [= -> <-].
    split; [exact Hmap|]. split; [reflexivity|]. split; [reflexivity|].
    split; [reflexivity|]. split; [left; reflexivity|].
    split; [|apply lookup_delete_eq].
    intros other ->. rewrite Hmap. reflexivity.
  - destruct (getSyntaxRuleByExtension e (getExtension (getUri document)))
      as [rule|] eqn:Hrule; [|discriminate].
    intros [= <- <-]. simpl.
    split; [apply lookup_insert_eq|]. split; [reflexivity|]. split; [reflexivity|].
    split; [intros uri Hne; apply lookup_insert_ne; congruence|].
    split; [right; split; [reflexivity|exists rule; split; reflexivity]|].
    split; [|apply lookup_delete_eq].
    intros other ->. rewrite lookup_insert_eq. reflexivity.
Qed.

(** A loadDocument that hands out nothing leaves the engine as it is. *)
Lemma loadDocument_none (e e' : HighlightEngine D) (document : D) :
  loadDocument getUri getExtension e document = (None, e') -> e' = e.
Proof.
  unfold loadDocument.
  destruct (m_analyzer_map e !! getUri document); [discriminate|].
  destruct (getSyntaxRuleByExtension e _); [discriminate|].
  intros [= <-]. reflexivity.
Qed.

End RegistryFacts.

Lemma loadDocument_caches_witness :
  exists (analyzer : DocumentAnalyzer (string * list DocumentLine))
         (e' : HighlightEngine (string * list DocumentLine)),
    loadDocument Samples.uri_of Samples.extension_of Samples.letter_engine
      ("a.x", Samples.four_lines) = (Some analyzer, e')
    /\ m_document (analyzer_impl analyzer) = ("a.x", Samples.four_lines)
    /\ loadDocument Samples.uri_of Samples.extension_of e' ("a.x", Samples.five_lines)
       = (Some analyzer, e').
Proof.
  eexists. eexists.
  split; [vm_compute; reflexivity|].
  split; [reflexivity|].
  refine (proj1 (proj2 (proj2 (proj2 (proj2 (proj2
            (loadDocument_caches Samples.uri_of Samples.extension_of
               Samples.letter_engine _ ("a.x", Samples.four_lines) _ _))))))
            ("a.x", Samples.five_lines) eq_refl).
  vm_compute. reflexivity.
Defined.

(** ** Equality of spans and of LineHighlights *)

Lemma TextPosition_eqb_eq (a b : TextPosition) : TextPosition_eqb a b = true <-> a = b.
Proof.
  destruct a as [l1 c1 i1], b as [l2 c2 i2]. unfold TextPosition_eqb. simpl.
  rewrite !andb_true_iff, !Nat.eqb_eq. split.
  - intros ((-> & ->) & ->). reflexivity.
  - intros [= -> -> ->]. auto.
Qed.

Lemma TextRange_eqb_eq (a b : TextRange) : TextRange_eqb a b = true <-> a = b.
Proof.
  destruct a as [s1 e1], b as [s2 e2]. unfold TextRange_eqb. simpl.
  rewrite andb_true_iff, !TextPosition_eqb_eq. split.
  - intros (-> & ->). reflexivity.
  - intros [= -> ->]. auto.
Qed.

Lemma TokenSpan_eqb_key (a b : TokenSpan) :
  TokenSpan_eqb a b = true <-> span_key a = span_key b.
Proof.
  unfold TokenSpan_eqb, span_key.
  rewrite !andb_true_iff, TextRange_eqb_eq, !Z.eqb_eq. split.
  - intros (((-> & ->) & ->) & ->). reflexivity.
  - intros [= -> -> -> ->]. auto.
Qed.

Lemma spans_eqb_key (xs : list TokenSpan) :
  forall ys, spans_eqb xs ys = true <-> map span_key xs = map span_key ys.
Proof.
  induction xs as [|x xs IH]; intros [|y ys]; simpl; try (split; [discriminate|discriminate]).
  - split; reflexivity.
  - rewrite andb_true_iff, TokenSpan_eqb_key, IH. split.
    + intros (H1 & H2). rewrite H1, H2. reflexivity.
    + intros H. split.
      * exact (f_equal (hd (span_key x)) H).
      * exact (f_equal (@tl _) H).
Qed.

(** X14. What the equality of LineHighlights looks at.  TokenSpan ==
    holds exactly when the two spans have the same range, style, state and
    goto_state, != exactly when it does not, and LineHighlight == exactly
    when the two have as many spans and these agree, one by one, in those
    four fields.  So == is an equivalence on LineHighlights, and it does not
    see the matched text or the inline style of a span: two LineHighlights
    that differ in these only are ==. *)
Theorem LineHighlight_eqb_compares_keys :
  (forall a b : TokenSpan, TokenSpan_eqb a b = true <-> span_key a = span_key b)
  /\ (forall a b : TokenSpan, TokenSpan_neqb a b = true <-> span_key a <> span_key b)
  /\ (forall a b : LineHighlight,
        LineHighlight_eqb a b = true
        <-> map span_key (spans a) = map span_key (spans b))
  /\ (forall a : LineHighlight, LineHighlight_eqb a a = true)
  /\ (forall a b : LineHighlight,
        LineHighlight_eqb a b = true -> LineHighlight_eqb b a = true)
  /\ (forall a b c : LineHighlight,
        LineHighlight_eqb a b = true -> LineHighlight_eqb b c = true ->
        LineHighlight_eqb a c = true)
  /\ (forall (l : LineHighlight) (f : TokenSpan -> string * option string),
        LineHighlight_eqb l
          (mkLineHighlight
             (map (fun sp => mkTokenSpan (range sp) (style_id sp) (state sp)
                               (goto_state sp) (f sp).1 (f sp).2) (spans l)))
        = true).
Proof.
  assert (Hkey : forall a b : LineHighlight,
            LineHighlight_eqb a b = true
            <-> map span_key (spans a) = map span_key (spans b))
    by (intros a b; apply spans_eqb_key).
  split; [exact TokenSpan_eqb_key|].
  split.
  { intros a b. unfold TokenSpan_neqb. rewrite negb_true_iff, <- TokenSpan_eqb_key.
    destruct (TokenSpan_eqb a b); split; congruence. }
  split; [exact Hkey|].
  split; [intros a; apply Hkey; reflexivity|].
  split; [intros a b Hab; apply Hkey; symmetry; apply Hkey; exact Hab|].
  split.
  { intros a b c Hab Hbc. apply Hkey. etransitivity; apply Hkey; eassumption. }
  intros l f. apply Hkey. simpl. rewrite map_map. reflexivity.
Qed.

(** ** The rule that a match is credited to *)


Section FirstRule.
Context {regex_type : RegexType}.



End FirstRule.

(** ** Where a match lies *)

Section MatchInLine.
Context {regex_type : RegexType} {engine : RegexEngine}.
Variable m_rule : SyntaxRule.
Variable m_config : HighlightConfig.
Hypothesis Hcontract : search_contract.

(** X16. Where a match lies.  With an engine that keeps its contract,
    matchAtPosition returns for every cursor within the line, whatever the
    state; a match it reports starts at or after the cursor, is at least one
    character long, ends within the characters of the line, and its matched
    text is that part of the line; for a state that the grammar does not
    have it reports no match. *)
Theorem matchAtPosition_in_line (text : string) (pos : nat) (st : Z) :
  (pos <= countChars text)%nat ->
  exists mr,
    matchAtPosition m_rule m_config text pos st = Done mr
    /\ (matched mr = true ->
        (pos <= mr_start mr)%nat
        /\ (1 <= mr_length mr)%nat
        /\ (mr_start mr + mr_length mr <= countChars text)%nat
        /\ mr_matched_text mr = utf8Substr text (mr_start mr) (mr_length mr))
    /\ (states m_rule !! st = None -> matched mr = false).
Proof.
  intros Hpos.
  destruct (matchAtPosition_done m_rule m_config Hcontract text pos st Hpos)
    as (mr & Hmr & Hb).
  exists mr. split; [exact Hmr|]. split; [exact Hb|].
  intros Hst. rewrite (matchAtPosition_unknown_state m_rule m_config text pos st Hst) in Hmr.
  injection Hmr as <-. reflexivity.
Qed.

End MatchInLine.

Lemma matchAtPosition_in_line_witness :
  exists mr : MatchResult,
    matchAtPosition (engine := Toy.engine) Samples.keyword_grammar Samples.config
      "an if" 1 0 = Done mr
    /\ matched mr = true
    /\ ((1 <= mr_start mr)%nat
        /\ (1 <= mr_length mr)%nat
        /\ (mr_start mr + mr_length mr <= 5)%nat
        /\ mr_matched_text mr = "if").
Proof.
  destruct (matchAtPosition_in_line (engine := Toy.engine) Samples.keyword_grammar
              Samples.config toy_search_contract "an if" 1 0 ltac:(vm_compute; lia))
    as (mr & Hmr & Hb & _).
  exists mr. split; [exact Hmr|].
  assert (Hm : matched mr = true).
  { vm_compute in Hmr. injection Hmr as <-. reflexivity. }
  split; [exact Hm|].
  destruct (Hb Hm) as (H1 & H2 & H3 & H4).
  split; [exact H1|]. split; [exact H2|]. split; [exact H3|].
  rewrite H4. vm_compute in Hmr. injection Hmr as <-. reflexivity.
Defined.

(** ** The re-tokenization of an edit *)

Section ContractReturns.
Context {regex_type : RegexType} {engine : RegexEngine}
        {D : Type} {buffer : DocumentBuffer D}.
Variable m_rule : SyntaxRule.
Variable m_config : HighlightConfig.
Hypothesis Hcontract : search_contract.



End ContractReturns.

Section RetokenizeExact.
Context {regex_type : RegexType} {engine : RegexEngine}
        {D : Type} {buffer : DocumentBuffer D}.
Variable m_rule : SyntaxRule.
Variable m_config : HighlightConfig.







End RetokenizeExact.

